(** * r2sync: one-way synchronisation of a local directory to an R2/S3 bucket

    A shallow embedding of the synchroniser ([Sync], [shouldExclude],
    [calcETag], [UploadFile], [DeleteObject], [main]) together with the
    parts of the Go standard library it calls ([path.Match], [path.Clean],
    [path.Join], [path.Dir], [filepath.Rel], [filepath.Walk],
    [strings.Split], [strings.ReplaceAll]).

    Conventions.
    - Go strings are modelled as [string]; every byte is one character
      (the model of [path.Match] agrees with Go on ASCII input, where a
      rune is one byte).
    - [filepath] is modelled for a Unix host: the separator is [/].
    - Go's [error] is a message; [nil] is [None]. *)

From Stdlib Require Import ZArith Ascii String List Bool Permutation Lia.
From stdpp Require Import base option list gmap strings fin_maps.

Set Default Proof Using "Type".

(** ** Strings *)

Module GoStrings.

(** [strings.ReplaceAll(s, old, new)] for one-byte [old] and [new]. *)
Fixpoint ReplaceAll (s : string) (old new : ascii) : string :=
  match s with
  | EmptyString => EmptyString
  | String c s' =>
      String (if Ascii.eqb c old then new else c) (ReplaceAll s' old new)
  end.

(** [strings.Split(s, sep)] for a one-byte separator: the result always
    has one more element than [s] has separators. *)
Fixpoint Split (s : string) (sep : ascii) : list string :=
  match s with
  | EmptyString => [EmptyString]
  | String c s' =>
      if Ascii.eqb c sep then EmptyString :: Split s' sep
      else match Split s' sep with
           | [] => [String c EmptyString]
           | x :: xs => String c x :: xs
           end
  end.

(** [strings.Join(elems, sep)]. *)
Fixpoint Join (elems : list string) (sep : string) : string :=
  match elems with
  | [] => EmptyString
  | [x] => x
  | x :: xs => x +:+ sep +:+ Join xs sep
  end.

(** [strings.TrimPrefix] for a one-byte prefix. *)
Definition TrimPrefix1 (s : string) (c : ascii) : string :=
  match s with
  | String d s' => if Ascii.eqb d c then s' else s
  | EmptyString => s
  end.

(** [strings.IndexByte(s, c) >= 0]. *)
Fixpoint contains (s : string) (c : ascii) : bool :=
  match s with
  | EmptyString => false
  | String d s' => Ascii.eqb d c || contains s' c
  end.

Definition is_empty (s : string) : bool :=
  match s with EmptyString => true | _ => false end.

End GoStrings.

(** ** Errors *)

Definition error := string.

Definition ErrBadPattern : error := "syntax error in pattern".

(** ** [path] and [path/filepath] *)

Module GoPath.
Import GoStrings.

Definition slash : ascii := "/"%char.
Definition backslash : ascii := "\"%char.

(** [scanChunk]'s scan loop, after the leading stars are removed: the
    chunk runs up to the first star outside a bracket expression. *)
Fixpoint scanLoop (inrange : bool) (pattern : string) : string * string :=
  match pattern with
  | EmptyString => (EmptyString, EmptyString)
  | String c p' =>
      if Ascii.eqb c backslash then
        match p' with
        | EmptyString => (String c EmptyString, EmptyString)
        | String d p'' =>
            let '(chunk, rest) := scanLoop inrange p'' in
            (String c (String d chunk), rest)
        end
      else if Ascii.eqb c "["%char then
        let '(chunk, rest) := scanLoop true p' in (String c chunk, rest)
      else if Ascii.eqb c "]"%char then
        let '(chunk, rest) := scanLoop false p' in (String c chunk, rest)
      else if Ascii.eqb c "*"%char then
        if inrange then
          let '(chunk, rest) := scanLoop inrange p' in (String c chunk, rest)
        else (EmptyString, pattern)
      else
        let '(chunk, rest) := scanLoop inrange p' in (String c chunk, rest)
  end.

Fixpoint skipStars (pattern : string) : bool * string :=
  match pattern with
  | String c p' =>
      if Ascii.eqb c "*"%char then (true, snd (skipStars p'))
      else (false, pattern)
  | EmptyString => (false, pattern)
  end.

(** [scanChunk(pattern) = (star, chunk, rest)]. *)
Definition scanChunk (pattern : string) : bool * string * string :=
  let '(star, p) := skipStars pattern in
  let '(chunk, rest) := scanLoop false p in
  (star, chunk, rest).

(** ** [unicode/utf8]

    A rune is a number; a string is its bytes. *)

Definition RuneError : N := 65533.

(** [s[n:]] for [n] no larger than the length of [s]. *)
Fixpoint skipBytes (n : nat) (s : string) : string :=
  match n, s with
  | S n', String _ t => skipBytes n' t
  | _, _ => s
  end.

(** [utf8.DecodeRuneInString(s) = (r, size)]. The first byte decides the
    width and the range the second byte has to lie in (the tables [first]
    and [acceptRanges]): below [0x80] the byte is the rune; [0x80..0xC1]
    and [0xF5..0xFF] start no encoding; [0xC2..0xDF] start two bytes,
    [0xE0..0xEF] three and [0xF0..0xF4] four; the second byte lies in
    [0x80..0xBF], but in [0xA0..0xBF] after [0xE0], [0x80..0x9F] after
    [0xED], [0x90..0xBF] after [0xF0] and [0x80..0x8F] after [0xF4]. What
    is not a full encoding gives [RuneError] with width 1. *)
Definition DecodeRuneInString (s : string) : N * nat :=
  match s with
  | EmptyString => (RuneError, 0)
  | String c0 t0 =>
      let s0 := N_of_ascii c0 in
      if (s0 <? 128)%N then (s0, 1)
      else if (s0 <? 194)%N || (244 <? s0)%N then (RuneError, 1)
      else
        let sz := if (s0 <? 224)%N then 2 else if (s0 <? 240)%N then 3 else 4 in
        let lo := if (s0 =? 224)%N then 160%N
                  else if (s0 =? 240)%N then 144%N else 128%N in
        let hi := if (s0 =? 237)%N then 159%N
                  else if (s0 =? 244)%N then 143%N else 191%N in
        if (String.length s <? sz)%nat then (RuneError, 1)
        else
          match t0 with
          | EmptyString => (RuneError, 1)
          | String c1 t1 =>
              let s1 := N_of_ascii c1 in
              if (s1 <? lo)%N || (hi <? s1)%N then (RuneError, 1)
              else if (sz <=? 2)%nat then
                (N.lor (N.shiftl (N.land s0 31) 6) (N.land s1 63), 2)
              else
                match t1 with
                | EmptyString => (RuneError, 1)
                | String c2 t2 =>
                    let s2 := N_of_ascii c2 in
                    if (s2 <? 128)%N || (191 <? s2)%N then (RuneError, 1)
                    else if (sz <=? 3)%nat then
                      (N.lor (N.lor (N.shiftl (N.land s0 15) 12)
                                    (N.shiftl (N.land s1 63) 6))
                             (N.land s2 63), 3)
                    else
                      match t2 with
                      | EmptyString => (RuneError, 1)
                      | String c3 _ =>
                          let s3 := N_of_ascii c3 in
                          if (s3 <? 128)%N || (191 <? s3)%N then (RuneError, 1)
                          else
                            (N.lor (N.lor (N.lor (N.shiftl (N.land s0 7) 18)
                                                 (N.shiftl (N.land s1 63) 12))
                                          (N.shiftl (N.land s2 63) 6))
                                   (N.land s3 63), 4)
                      end
                end
          end
  end.

(** [getEsc]: a possibly escaped rune of a bracket expression; [None]
    is [ErrBadPattern], which is also the answer for a byte that starts
    no encoding and for a rune that ends the chunk. *)
Definition getEsc (chunk : string) : option (N * string) :=
  match chunk with
  | EmptyString => None
  | String c rest =>
      if Ascii.eqb c "-"%char || Ascii.eqb c "]"%char then None
      else
        let chunk' := if Ascii.eqb c backslash then rest else chunk in
        if is_empty chunk' then None
        else
          let '(r, n) := DecodeRuneInString chunk' in
          let nchunk := skipBytes n chunk' in
          if ((r =? RuneError)%N && (n =? 1)%nat) || is_empty nchunk then None
          else Some (r, nchunk)
  end.

Definition rune_le (a b : N) : bool := (a <=? b)%N.

(** The range loop of a bracket expression: [r] is the rune read from
    the name, [nrange] says whether a range was already parsed. The
    result is the [match] flag and the chunk after the closing bracket. *)
Fixpoint classRanges (fuel : nat) (chunk : string) (r : N)
    (nrange : bool) (matched : bool) : option (bool * string) :=
  match fuel with
  | O => None
  | S fuel' =>
      match chunk with
      | String c rest =>
          if Ascii.eqb c "]"%char && nrange then Some (matched, rest)
          else
            match getEsc chunk with
            | None => None
            | Some (lo, chunk1) =>
                match chunk1 with
                | String d after_dash =>
                    if Ascii.eqb d "-"%char then
                      match getEsc after_dash with
                      | None => None
                      | Some (hi, chunk2) =>
                          classRanges fuel' chunk2 r true
                            (matched || (rune_le lo r && rune_le r hi))
                      end
                    else
                      classRanges fuel' chunk1 r true
                        (matched || (rune_le lo r && rune_le r lo))
                | EmptyString => None
                end
            end
      | EmptyString => None
      end
  end.

Inductive chunk_result :=
| ChunkErr                      (* ("", false, ErrBadPattern) *)
| ChunkFail                     (* ("", false, nil) *)
| ChunkOk (rest : string).      (* (rest, true, nil) *)

(** [matchChunk]'s loop; [failed] is the flag of the source: once set,
    the chunk is still checked for syntax but the name is no longer read.
    A bracket expression and [?] take one rune from the name, a literal
    takes one byte. *)
Fixpoint matchChunkLoop (fuel : nat) (chunk s : string) (failed : bool)
    : chunk_result :=
  match fuel with
  | O => ChunkErr
  | S fuel' =>
      match chunk with
      | EmptyString => if failed then ChunkFail else ChunkOk s
      | String c chunk' =>
          let failed := failed || is_empty s in
          if Ascii.eqb c "["%char then
            let r := if failed then 0%N else fst (DecodeRuneInString s) in
            let s1 := if failed then s
                      else skipBytes (snd (DecodeRuneInString s)) s in
            let negated :=
              match chunk' with
              | String n _ => Ascii.eqb n "^"%char
              | EmptyString => false
              end in
            let chunk1 :=
              if negated
              then match chunk' with String _ t => t | _ => chunk' end
              else chunk' in
            match classRanges (S (String.length chunk1)) chunk1 r false false with
            | None => ChunkErr
            | Some (matched, chunk2) =>
                matchChunkLoop fuel' chunk2 s1
                  (failed || Bool.eqb matched negated)
            end
          else if Ascii.eqb c "?"%char then
            match s with
            | String x _ =>
                if failed then matchChunkLoop fuel' chunk' s failed
                else
                  matchChunkLoop fuel' chunk'
                    (skipBytes (snd (DecodeRuneInString s)) s)
                    (Ascii.eqb x slash)
            | EmptyString => matchChunkLoop fuel' chunk' s failed
            end
          else
            (* a literal, possibly escaped *)
            let lit :=
              if Ascii.eqb c backslash
              then match chunk' with
                   | EmptyString => None
                   | String l rest => Some (l, rest)
                   end
              else Some (c, chunk') in
            match lit with
            | None => ChunkErr
            | Some (l, rest) =>
                match s with
                | String x t =>
                    if failed then matchChunkLoop fuel' rest s failed
                    else matchChunkLoop fuel' rest t (negb (Ascii.eqb l x))
                | EmptyString => matchChunkLoop fuel' rest s failed
                end
            end
      end
  end.

Definition matchChunk (chunk s : string) : chunk_result :=
  matchChunkLoop (S (String.length chunk)) chunk s false.

Inductive star_result :=
| StarErr
| StarNone
| StarFound (rest : string).

(** The loop that lets a star swallow [i+1] bytes of the name, never a
    slash; [last] says that no pattern is left after this chunk. *)
Fixpoint starLoop (chunk : string) (last : bool) (name : string)
    : star_result :=
  match name with
  | EmptyString => StarNone
  | String c name' =>
      if Ascii.eqb c slash then StarNone
      else
        match matchChunk chunk name' with
        | ChunkOk t =>
            if last && negb (is_empty t) then starLoop chunk last name'
            else StarFound t
        | ChunkErr => StarErr
        | ChunkFail => starLoop chunk last name'
        end
  end.

(** After a failed match the rest of the pattern is still checked for
    syntax. *)
Fixpoint checkRest (fuel : nat) (pattern : string) : option error :=
  match fuel with
  | O => None
  | S fuel' =>
      if is_empty pattern then None
      else
        let '(_, chunk, rest) := scanChunk pattern in
        match matchChunk chunk EmptyString with
        | ChunkErr => Some ErrBadPattern
        | _ => checkRest fuel' rest
        end
  end.

Fixpoint matchLoop (fuel : nat) (pattern name : string)
    : bool * option error :=
  match fuel with
  | O => (false, Some ErrBadPattern)
  | S fuel' =>
      if is_empty pattern then (is_empty name, None)
      else
        let '(star, chunk, rest) := scanChunk pattern in
        if star && is_empty chunk then (negb (contains name slash), None)
        else
          let fallthrough (_ : unit) :=
            let try_star :=
              if star then starLoop chunk (is_empty rest) name
              else StarNone in
            match try_star with
            | StarFound t => matchLoop fuel' rest t
            | StarErr => (false, Some ErrBadPattern)
            | StarNone =>
                (false, checkRest (S (String.length rest)) rest)
            end in
          match matchChunk chunk name with
          | ChunkOk t =>
              if is_empty t || negb (is_empty rest)
              then matchLoop fuel' rest t
              else fallthrough tt
          | ChunkErr => (false, Some ErrBadPattern)
          | ChunkFail => fallthrough tt
          end
  end.

(** [path.Match(pattern, name) = (matched, err)]. *)
Definition Match (pattern name : string) : bool * option error :=
  matchLoop (S (String.length pattern)) pattern name.

(** [path.Clean]: the elements of the path are processed from left to
    right; [out] is the stack of elements written so far, last one
    first. Empty elements and [.] are dropped, [..] removes the last
    real element, or is kept at the front of a path that is not rooted. *)
Definition is_rooted (p : string) : bool :=
  match p with
  | String c _ => Ascii.eqb c slash
  | EmptyString => false
  end.

Fixpoint cleanElems (rooted : bool) (elems out : list string)
    : list string :=
  match elems with
  | [] => rev out
  | e :: es =>
      if is_empty e || String.eqb e "." then cleanElems rooted es out
      else if String.eqb e ".." then
        match out with
        | top :: out' =>
            if String.eqb top ".."
            then cleanElems rooted es (".." :: out)
            else cleanElems rooted es out'
        | [] =>
            if rooted then cleanElems rooted es out
            else cleanElems rooted es [".."]
        end
      else cleanElems rooted es (e :: out)
  end.

Definition Clean (p : string) : string :=
  if is_empty p then "."
  else
    let rooted := is_rooted p in
    let out := cleanElems rooted (Split p slash) [] in
    if rooted then "/" +:+ GoStrings.Join out "/"
    else match out with
         | [] => "."
         | _ => GoStrings.Join out "/"
         end.

(** [path.Join] of two elements (also [filepath.Join] on Unix). *)
Definition Join (a b : string) : string :=
  if is_empty a && is_empty b then EmptyString
  else if is_empty a then Clean b
  else Clean (a +:+ "/" +:+ b).

(** The first component of [path.Split]: everything up to and
    including the final slash. *)
Fixpoint splitDir (p : string) : string :=
  match p with
  | EmptyString => EmptyString
  | String c p' => if contains p slash then String c (splitDir p') else EmptyString
  end.

(** [path.Dir]. *)
Definition Dir (p : string) : string := Clean (splitDir p).

(** [path.Ext]: the suffix starting at the last dot of the last element. *)
Fixpoint Ext (p : string) : string :=
  match p with
  | EmptyString => EmptyString
  | String c p' =>
      let e := Ext p' in
      if negb (is_empty e) then e
      else if Ascii.eqb c "."%char && negb (contains p' slash) then p
      else EmptyString
  end.

(** The elements that the loop of [filepath.Rel] sees in a cleaned path. *)
Definition relElems (p : string) : list string :=
  if is_empty p then []
  else if String.eqb p "/" then [EmptyString]
  else Split p slash.

(** The common-prefix loop of [filepath.Rel]; the flag says that the
    loop stopped at two differing elements. *)
Fixpoint relLoop (base targ : list string)
    : bool * list string * list string :=
  match base, targ with
  | b :: bs, t :: ts =>
      if String.eqb t b then relLoop bs ts else (true, base, targ)
  | _, _ => (false, base, targ)
  end.

(** [filepath.Rel(basepath, targpath)] on Unix. *)
Definition Rel (basepath targpath : string) : string * option error :=
  let base := Clean basepath in
  let targ := Clean targpath in
  if String.eqb targ base then (".", None)
  else
    let base := if String.eqb base "." then EmptyString else base in
    if negb (Bool.eqb (is_rooted base) (is_rooted targ)) then
      (EmptyString,
       Some ("Rel: can't make " +:+ targpath +:+ " relative to " +:+ basepath))
    else
      let '(differ, brest, trest) := relLoop (relElems base) (relElems targ) in
      let dotdot :=
        match brest with
        | b :: _ => differ && String.eqb b ".."
        | [] => false
        end in
      if dotdot then
        (EmptyString,
         Some ("Rel: can't make " +:+ targpath +:+ " relative to " +:+ basepath))
      else
        match brest with
        | [] => (GoStrings.Join trest "/", None)
        | _ =>
            (GoStrings.Join (map (fun _ => "..") brest ++ trest) "/", None)
        end.

End GoPath.

Import GoStrings.

(** ** Data model *)

(** [FileInfo]: one record of the remote inventory. *)
Record FileInfo := mkFileInfo {
  Path : string;
  Size : Z;
  LastModified : Z;
  ETag : string
}.

(** One element of [resp.Contents] of a [ListObjectsV2] page. *)
Record s3_Object := mkObject {
  obj_Key : string;
  obj_Size : Z;
  obj_LastModified : Z;
  obj_ETag : string
}.

(** What the storage service answers to the successive [ListObjectsV2]
    calls of one listing: a page with [IsTruncated] false, a truncated
    page with its continuation and the answers that follow, or an error. *)
Inductive listing :=
| LastPage (contents : list s3_Object)
| MorePages (contents : list s3_Object) (token : string) (next : listing)
| ListFail (e : error).

(** What [os.FileInfo] tells the walk callback. *)
Record os_FileInfo := mkInfo {
  IsDir : bool;
  fi_Size : Z
}.

#[local] Set Warnings "-register-all".

(** The local tree as [filepath.Walk] sees it: [Lstat] of an entry gives
    a non-directory of some size, a directory (whose names
    [readDirNames] returns sorted, or fails to read), or an error. *)
Inductive node :=
| File (size : Z)
| Dir (entries : list (string * node))
| DirUnreadable (e : error)
| NoStat (e : error).

(** A file opened by [os.Open]: what reading it to the end gives, and
    what [Stat] gives. *)
Record OpenFile := mkOpenFile {
  f_data : error + string;
  f_stat : error + Z
}.

(** A parsed target ([net/url]). *)
Record URL := mkURL {
  Scheme : string;
  Host : string;
  url_Path : string
}.

(** The collaborators outside the repository: the file contents behind a
    path, the MD5 digest in hexadecimal, the MIME tables, the storage
    service, the URL parser and the SDK configuration loader. *)
Record World := mkWorld {
  os_Open : string -> error + OpenFile;
  md5hex : string -> string;
  mime_TypeByExtension : string -> string;
  fikamime_TypeByExtension : string -> string;
  s3_ListObjectsV2 : string -> string -> listing;
  s3_PutObject : string -> string -> option error;
  s3_DeleteObject : string -> string -> option error;
  url_Parse : string -> error + URL;
  config_LoadDefaultConfig : option error
}.

(** The work a goroutine is started for. *)
Inductive task :=
| UploadTask (localPath remoteKey : string)
| DeleteTask (key : string).

(** Log lines, by format string. Transfer speed and formatted sizes are
    left out of the upload line. The last two are what the [flag]
    package prints: the error of a command line it rejects, and the list
    of the flags with their defaults. *)
Inductive logmsg :=
| LogGettingRemote (remotePath : string)
| LogFilesUploaded (n : Z)
| LogStartingDeletion
| LogFilesDeleted (n : Z)
| LogSyncCompleted
| LogUploading (localPath fullKey : string)
| LogUploadFailed (fullKey : string) (e : error)
| LogDryrunUpload (localPath remote : string)
| LogUpload (localPath remote : string) (size : Z)
| LogDeleting (fullKey : string)
| LogDeleteFailed (fullKey : string) (e : error)
| LogDryrunDelete (remote : string)
| LogDelete (remote : string)
| LogFatal (e : error)
| LogInvalidTarget (e : error)
| LogUsage
| LogFlagError (msg : string)
| LogFlagDefaults.

(** What a goroutine does that the outside can observe, in order. *)
Inductive event :=
| EvLog (m : logmsg)
| EvLoadConfig
| EvListObjectsV2 (bucket pfx : string)
| EvMakeChan (capacity : Z)
| EvOpen (path : string)
| EvGo (t : task)
| EvWait
| EvPutObject (bucket key : string) (len : Z) (ctype : string)
| EvDeleteObject (bucket key : string).

(** ** A monad for one goroutine

    A computation runs on a state [S], emits events, and either returns,
    panics, or blocks for ever. *)

Inductive outcome (A : Type) :=
| Returned (a : A)
| Panicked (msg : string)
| Blocked.
Arguments Returned {A} a.
Arguments Panicked {A} msg.
Arguments Blocked {A}.

Definition M (S A : Type) : Type := S -> S * list event * outcome A.

Definition ret {S A} (a : A) : M S A := fun st => (st, [], Returned a).

Definition bind {S A B} (m : M S A) (k : A -> M S B) : M S B :=
  fun st =>
    match m st with
    | (st1, ev1, Returned a) =>
        match k a st1 with
        | (st2, ev2, o) => (st2, ev1 ++ ev2, o)
        end
    | (st1, ev1, Panicked msg) => (st1, ev1, Panicked msg)
    | (st1, ev1, Blocked) => (st1, ev1, Blocked)
    end.

Definition emit {S} (e : event) : M S unit := fun st => (st, [e], Returned tt).
Definition get {S} : M S S := fun st => (st, [], Returned st).
Definition modify {S} (f : S -> S) : M S unit := fun st => (f st, [], Returned tt).
Definition panic {S A} (msg : string) : M S A := fun st => (st, [], Panicked msg).
Definition block {S A} : M S A := fun st => (st, [], Blocked).

Declare Scope go_scope.
Delimit Scope go_scope with go.
Notation "x <- m ;; k" := (bind m (fun x => k))
  (at level 100, m at next level, right associativity) : go_scope.
Notation "m ;;; k" := (bind m (fun _ => k))
  (at level 100, right associativity) : go_scope.
Local Open Scope go_scope.

Definition log {S} (m : logmsg) : M S unit := emit (EvLog m).

(** ** [filepath.Walk] *)

(** What a [WalkFunc] returns: [nil], [SkipDir], or another error. *)
Inductive WalkResult :=
| WNil
| WSkipDir
| WErr (e : error).

Section Walk.
Context {S : Type}.
Variable fn : string -> option os_FileInfo -> option error -> M S WalkResult.

(** The loop of [walk] over the sorted names of a directory, each with
    what [lstat] finds under it. A [SkipDir] from a directory or from
    an entry that could not be examined moves on to the next name; from
    a file it ends the loop and is handed to the caller. *)
Definition walkNames (walk : string -> node -> M S WalkResult)
    (path : string) : list (string * node) -> M S WalkResult :=
  fix loop (names : list (string * node)) : M S WalkResult :=
    match names with
    | [] => ret WNil
    | (name, child) :: rest =>
        let filename := GoPath.Join path name in
        err <- walk filename child ;;
        match err with
        | WNil => loop rest
        | WSkipDir =>
            match child with
            | File _ => ret WSkipDir
            | _ => loop rest
            end
        | WErr e => ret (WErr e)
        end
    end.

(** [walk(path, info, walkFn)], with the [lstat] of each child folded
    in: [n] is what is found at [path]. *)
Fixpoint walk (path : string) (n : node) {struct n} : M S WalkResult :=
  match n with
  | File size => fn path (Some (mkInfo false size)) None
  | NoStat e => fn path None (Some e)
  | DirUnreadable e => fn path (Some (mkInfo true 0)) (Some e)
  | Dir entries =>
      err1 <- fn path (Some (mkInfo true 0)) None ;;
      match err1 with
      | WNil => walkNames walk path entries
      | _ => ret err1
      end
  end.

(** [filepath.Walk(root, fn)]. *)
Definition Walk (root : string) (n : node) : M S (option error) :=
  err <- walk root n ;;
  match err with
  | WErr e => ret (Some e)
  | _ => ret None
  end.
End Walk.

(** ** The synchroniser *)

Record R2Client := mkClient {
  bucket : string;
  scheme : string
}.

Definition RemotePath (r : R2Client) (path : string) : string :=
  scheme r +:+ "://" +:+ bucket r +:+ "/" +:+ path.

Definition normalizePath (path : string) : string :=
  ReplaceAll path GoPath.backslash GoPath.slash.

(** [err == nil && matched] on the result of [path.Match]. *)
Definition matches (pattern name : string) : bool :=
  let '(matched, err) := GoPath.Match pattern name in
  match err with
  | None => matched
  | Some _ => false
  end.

Fixpoint shouldExclude (fullpath : string) (excludePatterns : list string)
    : bool :=
  match excludePatterns with
  | [] => false
  | pattern :: rest =>
      if matches pattern fullpath then true
      else
        let parts := Split fullpath GoPath.slash in
        if existsb (fun part => matches pattern part) parts then true
        else shouldExclude fullpath rest
  end.

Definition dquote : string := String "034"%char EmptyString.

(** What [calcETag] returns for the file behind [path]: the error of
    [os.Open] or of the read, or the quoted digest. *)
Definition fingerprint (w : World) (path : string) : error + string :=
  match os_Open w path with
  | inl err => inl err
  | inr file =>
      match f_data file with
      | inl err => inl err
      | inr data => inr (dquote +:+ md5hex w data +:+ dquote)
      end
  end.

(** [calcETag]: opens the file, feeds it to MD5, and quotes the digest. *)
Definition calcETag {S} (w : World) (path : string) : M S (error + string) :=
  emit (EvOpen path) ;;;
  ret (fingerprint w path).

(** Lines 75-82: [result[*obj.Key] = FileInfo{...}]. *)
Definition addObject (result : gmap string FileInfo) (obj : s3_Object)
    : gmap string FileInfo :=
  <[obj_Key obj := mkFileInfo (obj_Key obj) (obj_Size obj)
                     (obj_LastModified obj) (obj_ETag obj)]> result.

(** [ListObjects]: follows the continuation tokens and collects every
    page into one map. *)
Fixpoint listPages {S} (r : R2Client) (pfx : string) (pages : listing)
    (result : gmap string FileInfo) : M S (error + gmap string FileInfo) :=
  emit (EvListObjectsV2 (bucket r) pfx) ;;;
  match pages with
  | ListFail err => ret (inl err)
  | LastPage contents => ret (inr (foldl addObject result contents))
  | MorePages contents _ next =>
      listPages r pfx next (foldl addObject result contents)
  end.

Definition ListObjects {S} (w : World) (r : R2Client) (pfx : string)
    : M S (error + gmap string FileInfo) :=
  listPages r pfx (s3_ListObjectsV2 w (bucket r) pfx) ∅.

(** Go's [int] is 64 bits wide. *)
Definition int_wrap (z : Z) : Z :=
  ((z + 2 ^ 63) mod 2 ^ 64 - 2 ^ 63)%Z.

(** The variables of [Sync] that its closures change. *)
Record SyncVars := mkVars {
  remoteFiles : gmap string FileInfo;
  uploadCount : Z;
  deleteCount : Z
}.

Definition zeroVars : SyncVars := mkVars ∅ 0 0.

Definition set_remoteFiles (m : gmap string FileInfo) (v : SyncVars) :=
  mkVars m (uploadCount v) (deleteCount v).
Definition incr_uploadCount (v : SyncVars) :=
  mkVars (remoteFiles v) (int_wrap (uploadCount v + 1)) (deleteCount v).
Definition incr_deleteCount (v : SyncVars) :=
  mkVars (remoteFiles v) (uploadCount v) (int_wrap (deleteCount v + 1)).
Definition delete_remoteFile (key : string) (v : SyncVars) :=
  mkVars (delete key (remoteFiles v)) (uploadCount v) (deleteCount v).

(** [make(chan struct{}, concurrency)]: a negative size panics. *)
Definition makeChan {S} (concurrency : Z) : M S unit :=
  if (concurrency <? 0)%Z then panic "makechan: size out of range"
  else emit (EvMakeChan concurrency).

(** [semaphore <- struct{}{}] followed by [go func]: with an unbuffered
    channel the send waits for a receiver, and the only receivers are the
    goroutines started after a send, so it waits for ever; with a buffer
    of at least one slot it goes through once a slot is free, which the
    deferred receive of every running goroutine provides. *)
Definition spawn {S} (concurrency : Z) (t : task) : M S unit :=
  if (concurrency =? 0)%Z then block else emit (EvGo t).

Fixpoint forEach {S A} (l : list A) (body : A -> M S unit) : M S unit :=
  match l with
  | [] => ret tt
  | x :: rest => body x ;;; forEach rest body
  end.

Section Sync.
Variable w : World.
Variable r : R2Client.
Variables localPath remotePath : string.
Variables deleteSync dryRun recursive : bool.
Variable concurrency : Z.
Variable sizeOnly : bool.
Variable excludePatterns : list string.

(** Lines 255-257: the remote key of the file at [fullpath]; the error
    of [filepath.Rel] is dropped, as in the source. *)
Definition remoteKeyOf (fullpath : string) : string :=
  let relPath := fst (GoPath.Rel localPath fullpath) in
  let relPath := normalizePath relPath in
  GoPath.Join remotePath relPath.

(** Lines 259-272: does the file at [fullpath] need an upload? The
    left result is the error of [calcETag]. *)
Definition needUpload (fullpath : string) (info : os_FileInfo)
    (remoteKey : string) : M SyncVars (error + bool) :=
  vars <- get ;;
  match remoteFiles vars !! remoteKey with
  | None => ret (inr true)
  | Some remoteInfo =>
      if sizeOnly then
        ret (inr (negb (fi_Size info =? Size remoteInfo)%Z))
      else
        etag <- calcETag w fullpath ;;
        match etag with
        | inl err => ret (inl err)
        | inr etag =>
            ret (inr (negb (fi_Size info =? Size remoteInfo)%Z
                      || negb (String.eqb etag (ETag remoteInfo))))
        end
  end.

(** Lines 255-292: the diff step for a file that passed the filters. *)
Definition syncFile (fullpath : string) (info : os_FileInfo)
    : M SyncVars WalkResult :=
  let remoteKey := remoteKeyOf fullpath in
  need <- needUpload fullpath info remoteKey ;;
  match need with
  | inl err => ret (WErr err)
  | inr need =>
      (if need then
         modify incr_uploadCount ;;;
         spawn concurrency (UploadTask fullpath remoteKey)
       else ret tt) ;;;
      modify (delete_remoteFile remoteKey) ;;;
      ret WNil
  end.

(** The closure passed to [filepath.Walk]. Every path through it reads
    [info.IsDir()] before it has any effect, which is where a nil
    [info] would panic. *)
Definition walkFn (fullpath : string) (info : option os_FileInfo)
    (err : option error) : M SyncVars WalkResult :=
  match err with
  | Some err => ret (WErr err)
  | None =>
      let fullpath := normalizePath fullpath in
      match info with
      | None => panic "invalid memory address or nil pointer dereference"
      | Some info =>
          if shouldExclude fullpath excludePatterns then
            if IsDir info then ret WSkipDir else ret WNil
          else if negb recursive
                  && negb (String.eqb (GoPath.Dir fullpath) localPath) then
            if IsDir info then ret WSkipDir else ret WNil
          else if IsDir info then ret WNil
          else syncFile fullpath info
      end
  end.

(** Lines 302-324: the delete phase. Go ranges over the map in an
    unspecified order; the model takes the order of [map_to_list]. *)
Definition deletePhase : M SyncVars unit :=
  vars <- get ;;
  if deleteSync && (0 <? size (remoteFiles vars))%nat then
    log LogStartingDeletion ;;;
    forEach (map_to_list (remoteFiles vars)).*1
      (fun remoteKey =>
         modify incr_deleteCount ;;;
         spawn concurrency (DeleteTask remoteKey)) ;;;
    emit EvWait ;;;
    vars <- get ;;
    log (LogFilesDeleted (deleteCount vars))
  else ret tt.

(** [Sync] as the goroutine of [main] runs it, from [zeroVars]. The
    [dryRun] flag is only read inside the goroutines it starts. *)
Definition Sync (tree : node) : M SyncVars (option error) :=
  log (LogGettingRemote remotePath) ;;;
  listed <- ListObjects w r remotePath ;;
  match listed with
  | inl err => ret (Some ("failed to get remote file list: " +:+ err))
  | inr listed =>
      modify (set_remoteFiles listed) ;;;
      makeChan concurrency ;;;
      err <- Walk walkFn localPath tree ;;
      match err with
      | Some err => ret (Some ("upload failed: " +:+ err))
      | None =>
          emit EvWait ;;;
          vars <- get ;;
          log (LogFilesUploaded (uploadCount vars)) ;;;
          deletePhase ;;;
          log LogSyncCompleted ;;;
          ret None
      end
  end.
End Sync.

(** ** The goroutines *)

Record StoredObject := mkStored {
  so_body : string;
  so_contentType : string
}.

(** [client.PutObject]: the service either fails, or the body is read to
    the end and stored under the key. *)
Definition PutObject (w : World) (r : R2Client) (key : string)
    (file : OpenFile) (len : Z) (ctype : string)
    : M (gmap string StoredObject) (option error) :=
  emit (EvPutObject (bucket r) key len ctype) ;;;
  match s3_PutObject w (bucket r) key with
  | Some err => ret (Some err)
  | None =>
      match f_data file with
      | inl err => ret (Some err)
      | inr data =>
          modify (fun objs => <[key := mkStored data ctype]> objs) ;;;
          ret None
      end
  end.

Definition UploadFile (w : World) (r : R2Client)
    (localPath remotePath : string) (dryRun : bool)
    : M (gmap string StoredObject) (option error) :=
  if dryRun then
    log (LogDryrunUpload localPath (RemotePath r remotePath)) ;;;
    ret None
  else
    emit (EvOpen localPath) ;;;
    match os_Open w localPath with
    | inl err => ret (Some err)
    | inr file =>
        match f_stat file with
        | inl err => ret (Some err)
        | inr size =>
            let ext := GoPath.Ext localPath in
            let contentType := mime_TypeByExtension w ext in
            let contentType :=
              if is_empty contentType then
                let contentType := fikamime_TypeByExtension w ext in
                if is_empty contentType then "application/octet-stream"
                else contentType
              else contentType in
            err <- PutObject w r remotePath file size contentType ;;
            match err with
            | Some err => ret (Some err)
            | None =>
                log (LogUpload localPath (RemotePath r remotePath) size) ;;;
                ret None
            end
        end
    end.

Definition DeleteObject (w : World) (r : R2Client) (remotePath : string)
    (dryRun : bool) : M (gmap string StoredObject) (option error) :=
  if dryRun then
    log (LogDryrunDelete (RemotePath r remotePath)) ;;;
    ret None
  else
    emit (EvDeleteObject (bucket r) remotePath) ;;;
    match s3_DeleteObject w (bucket r) remotePath with
    | Some err => ret (Some err)
    | None =>
        modify (fun objs => delete remotePath objs) ;;;
        log (LogDelete (RemotePath r remotePath)) ;;;
        ret None
    end.

(** The body of the goroutine started for a task, between its admission
    and the deferred release of its slot. *)
Definition goroutine (w : World) (r : R2Client) (dryRun : bool) (t : task)
    : M (gmap string StoredObject) unit :=
  match t with
  | UploadTask localPath remoteKey =>
      let fullKey := RemotePath r remoteKey in
      log (LogUploading localPath fullKey) ;;;
      err <- UploadFile w r localPath remoteKey dryRun ;;
      match err with
      | Some err => log (LogUploadFailed fullKey err)
      | None => ret tt
      end
  | DeleteTask key =>
      let fullKey := RemotePath r key in
      log (LogDeleting fullKey) ;;;
      err <- DeleteObject w r key dryRun ;;
      match err with
      | Some err => log (LogDeleteFailed fullKey err)
      | None => ret tt
      end
  end.

(** The tasks a goroutine trace has started, in order. *)
Definition spawned (tr : list event) : list task :=
  omap (fun e => match e with EvGo t => Some t | _ => None end) tr.

Definition uploads (tr : list event) : list (string * string) :=
  omap (fun e => match e with
                 | EvGo (UploadTask l k) => Some (l, k)
                 | _ => None
                 end) tr.

Definition deletes (tr : list event) : list string :=
  omap (fun e => match e with
                 | EvGo (DeleteTask k) => Some k
                 | _ => None
                 end) tr.

(** ** [main] *)

Record Flags := mkFlags {
  flag_dryrun : bool;
  flag_delete : bool;
  flag_recursive : bool;
  flag_concurrency : Z;
  flag_size_only : bool;
  flag_exclude : list string
}.

(** How the process ends: [os.Exit] or a return from [main] (status 0),
    a runtime panic, or never. *)
Inductive exit :=
| Exit (code : Z)
| Crash (msg : string)
| Hang.

(** [NewR2Client]: the error of [config.LoadDefaultConfig] is fatal in
    the source; here it is handed to [main]. *)
Definition NewR2Client (w : World) (bucket scheme : string)
    : error + R2Client :=
  match config_LoadDefaultConfig w with
  | Some err => inl err
  | None => inr (mkClient bucket scheme)
  end.

(** [main] after [flag.Parse] has returned (from line 375 on), with the
    flags and arguments it has left; [tree] is what the local file system
    has at the source path. The whole function is [r2sync] below. *)
Definition main (w : World) (flags : Flags) (args : list string)
    (tree : node) : list event * exit :=
  match args with
  | [arg0; arg1] =>
      let sourcePath := normalizePath arg0 in
      match url_Parse w (normalizePath arg1) with
      | inl err => ([EvLog (LogInvalidTarget err); EvLog LogUsage], Exit 1)
      | inr u =>
          let targetPath := TrimPrefix1 (url_Path u) GoPath.slash in
          let excludePatterns := map normalizePath (flag_exclude flags) in
          match NewR2Client w (Host u) (Scheme u) with
          | inl err => ([EvLoadConfig; EvLog (LogFatal err)], Exit 1)
          | inr client =>
              match Sync w client sourcePath targetPath (flag_delete flags)
                      (flag_recursive flags) (flag_concurrency flags)
                      (flag_size_only flags) excludePatterns tree zeroVars with
              | (_, tr, Returned None) => (EvLoadConfig :: tr, Exit 0)
              | (_, tr, Returned (Some err)) =>
                  (EvLoadConfig :: tr ++ [EvLog (LogFatal err)], Exit 1)
              | (_, tr, Panicked msg) => (EvLoadConfig :: tr, Crash msg)
              | (_, tr, Blocked) => (EvLoadConfig :: tr, Hang)
              end
          end
      end
  | _ => ([EvLog LogUsage], Exit 1)
  end.

(** ** Reading a run *)

Definition state_of {S A} (x : S * list event * outcome A) : S := x.1.1.
Definition trace_of {S A} (x : S * list event * outcome A) : list event := x.1.2.
Definition out_of {S A} (x : S * list event * outcome A) : outcome A := x.2.

(** A run of [Sync] followed by the goroutines it started, here one after
    the other in the order they were started, on the bucket [objs]. The
    result is the run of the main goroutine, the bucket afterwards and
    what the started goroutines did. *)
Definition SyncRun (w : World) (r : R2Client) (localPath remotePath : string)
    (deleteSync dryRun recursive : bool) (concurrency : Z) (sizeOnly : bool)
    (excludePatterns : list string) (tree : node)
    (objs : gmap string StoredObject)
    : (SyncVars * list event * outcome (option error))
      * gmap string StoredObject * list event :=
  let main_run :=
    Sync w r localPath remotePath deleteSync recursive concurrency sizeOnly
      excludePatterns tree zeroVars in
  let tasks_run :=
    forEach (spawned (trace_of main_run)) (goroutine w r dryRun) objs in
  (main_run, state_of tasks_run, trace_of tasks_run).

Definition is_mutation (e : event) : bool :=
  match e with
  | EvPutObject _ _ _ _ | EvDeleteObject _ _ => true
  | _ => false
  end.

(** ** Places in the local tree *)

(** The entry reached from [n] by taking the [i]-th name of each
    directory on the way, with the path the walk gives it. *)
Fixpoint locate (path : string) (n : node) (pos : list nat)
    : option (string * node) :=
  match pos with
  | [] => Some (path, n)
  | i :: pos' =>
      match n with
      | Dir entries =>
          match entries !! i with
          | Some (name, child) => locate (GoPath.Join path name) child pos'
          | None => None
          end
      | _ => None
      end
  end.

(** The tree with the entry at [pos] replaced by [new]. *)
Fixpoint replace_at (n : node) (pos : list nat) (new : node) : node :=
  match pos with
  | [] => new
  | i :: pos' =>
      match n with
      | Dir entries =>
          match entries !! i with
          | Some (name, child) =>
              Dir (<[i := (name, replace_at child pos' new)]> entries)
          | None => n
          end
      | _ => n
      end
  end.

(** ** The local walker of the specification

    What the walk hands to the diff step, in order: the files that are
    not excluded, not below an excluded or pruned directory, and allowed
    by the recursion rule, each with its normalised path and its size;
    and the errors of entries that could not be examined or read. *)
Section Candidates.
Variable localPath : string.
Variable recursive : bool.
Variable excludePatterns : list string.

Definition passes (path : string) : bool :=
  negb (shouldExclude (normalizePath path) excludePatterns)
  && (recursive || String.eqb (GoPath.Dir (normalizePath path)) localPath).

Fixpoint visits (path : string) (n : node) : list (error + string * Z) :=
  match n with
  | File size =>
      if passes path then [inr (normalizePath path, size)] else []
  | Dir entries =>
      if passes path then
        flat_map (fun e => visits (GoPath.Join path e.1) e.2) entries
      else []
  | DirUnreadable err | NoStat err => [inl err]
  end.

End Candidates.

Definition candidates (localPath : string) (recursive : bool)
    (excludePatterns : list string) (path : string) (n : node)
    : list (string * Z) :=
  omap (fun v => match v with inr c => Some c | inl _ => None end)
    (visits localPath recursive excludePatterns path n).

(** The diff step over a sequence of visits: it stops at the first error. *)
Fixpoint diffAll (w : World) (localPath remotePath : string)
    (concurrency : Z) (sizeOnly : bool) (vs : list (error + string * Z))
    : M SyncVars WalkResult :=
  match vs with
  | [] => ret WNil
  | inl err :: _ => ret (WErr err)
  | inr (fullpath, size) :: rest =>
      res <- syncFile w localPath remotePath concurrency sizeOnly
               fullpath (mkInfo false size) ;;
      match res with
      | WNil => diffAll w localPath remotePath concurrency sizeOnly rest
      | _ => ret res
      end
  end.

(** A pattern glob-matches a name when [path.Match] says so without error. *)
Definition glob (pattern name : string) : Prop :=
  GoPath.Match pattern name = (true, None).

(** One pattern excludes a path when it matches the path or one of its
    segments. *)
Definition excludes (fullpath pattern : string) : bool :=
  matches pattern fullpath
  || existsb (fun part => matches pattern part) (Split fullpath GoPath.slash).

(** [SkipDir] is not an error for the caller of the walk. *)
Definition skipToNil (res : WalkResult) : WalkResult :=
  match res with
  | WSkipDir => WNil
  | _ => res
  end.

Definition toError (res : WalkResult) : option error :=
  match res with
  | WErr e => Some e
  | _ => None
  end.

(** What [needUpload] answers on an inventory, and the file it opens
    for that. *)
Definition needs (w : World) (sizeOnly : bool) (inventory : gmap string FileInfo)
    (fullpath : string) (size : Z) (key : string) : error + bool :=
  match inventory !! key with
  | None => inr true
  | Some remoteInfo =>
      if sizeOnly then inr (negb (size =? Size remoteInfo)%Z)
      else
        match fingerprint w fullpath with
        | inl err => inl err
        | inr etag =>
            inr (negb (size =? Size remoteInfo)%Z
                 || negb (String.eqb etag (ETag remoteInfo)))
        end
  end.

Definition hashed (sizeOnly : bool) (inventory : gmap string FileInfo)
    (fullpath key : string) : list event :=
  match inventory !! key with
  | None => []
  | Some _ => if sizeOnly then [] else [EvOpen fullpath]
  end.

(** A world with other file contents and another digest. *)
Definition withContents (w : World) (open : string -> error + OpenFile)
    (digest : string -> string) : World :=
  mkWorld open digest (mime_TypeByExtension w) (fikamime_TypeByExtension w)
    (s3_ListObjectsV2 w) (s3_PutObject w) (s3_DeleteObject w)
    (url_Parse w) (config_LoadDefaultConfig w).

(** ** Scenarios

    Concrete worlds for the examples: the storage lists the given
    objects in one page and accepts every put and delete; the local files
    are the ones of a table, and a path that is not in the table cannot be
    opened; the digest is MD5 on the few contents that occur. *)
Module Scenario.

Definition client : R2Client := mkClient "bucket" "r2".

Definition digest (data : string) : string :=
  if String.eqb data "x" then "9dd4e461268c8034f5c8564e155c67a6"
  else if String.eqb data "a" then "0cc175b9c0f1b6a831c399e269772661"
  else if String.eqb data "abc" then "900150983cd24fb0d6963f7d28e17f72"
  else "d41d8cd98f00b204e9800998ecf8427e".

Fixpoint lookupFile (files : list (string * OpenFile)) (path : string)
    : error + OpenFile :=
  match files with
  | [] => inl ("open " +:+ path +:+ ": permission denied")
  | (p, f) :: rest => if String.eqb p path then inr f else lookupFile rest path
  end.

Definition readable (data : string) : OpenFile :=
  mkOpenFile (inr data) (inr (Z.of_nat (String.length data))).

(** Targets of the form [scheme://host/path]. *)
Definition parseTarget (s : string) : error + URL :=
  match Split s ":"%char with
  | [sch; rest] =>
      match Split rest GoPath.slash with
      | "" :: "" :: host :: elems =>
          inr (mkURL sch host ("/" +:+ GoStrings.Join elems "/"))
      | _ => inl ("parse " +:+ s +:+ ": invalid URI")
      end
  | _ => inl ("parse " +:+ s +:+ ": invalid URI")
  end.

Definition world (objs : list s3_Object) (files : list (string * OpenFile))
    : World :=
  mkWorld (lookupFile files) digest (fun _ => "") (fun _ => "")
    (fun _ _ => LastPage objs) (fun _ _ => None) (fun _ _ => None)
    parseTarget None.

Definition inventory (objs : list s3_Object) : SyncVars :=
  mkVars (list_to_map
            (map (fun o => (obj_Key o,
                            mkFileInfo (obj_Key o) (obj_Size o)
                              (obj_LastModified o) (obj_ETag o))) objs)) 0 0.

(** Quoted digests, as the service reports them. *)
Definition etag_x : string := dquote +:+ digest "x" +:+ dquote.

(** One file of seven bytes that cannot be opened; the bucket has an
    object of one byte under its key. *)
Definition unreadable_objs : list s3_Object :=
  [mkObject "p/a.txt" 1 0 etag_x].
Definition unreadable_world : World := world unreadable_objs [].

(** A directory with a file [a.txt] that cannot be opened and a
    readable file [b.txt] that the bucket does not have; the bucket has
    [a.txt] with the same size and an object [old.txt] that has no
    local counterpart. Delete mode is on, full comparison. *)
Definition failing_tree : node :=
  Dir [("a.txt", File 7); ("b.txt", File 1)].
Definition failing_objs : list s3_Object :=
  [mkObject "p/a.txt" 7 0 etag_x; mkObject "p/old.txt" 3 0 etag_x].
Definition failing_world : World :=
  world failing_objs [("/d/b.txt", readable "x")].
Definition failing_run : SyncVars * list event * outcome (option error) :=
  Sync failing_world client "/d" "p" true true 5 false [] failing_tree
    zeroVars.

(** Scenario C of the specification: the bucket has [p/old.txt] and
    [p/a.txt]; locally there is only [a.txt], of the same size. Delete
    mode is on, sizes only. *)
Definition stale_tree : node := Dir [("a.txt", File 1)].
Definition stale_objs : list s3_Object :=
  [mkObject "p/a.txt" 1 0 etag_x; mkObject "p/old.txt" 3 0 etag_x].
Definition stale_world : World := world stale_objs [("/d/a.txt", readable "x")].
Definition stale_run : SyncVars * list event * outcome (option error) :=
  Sync stale_world client "/d" "p" true true 5 true [] stale_tree zeroVars.

(** A directory [logs] excluded by its full path, with a file in it
    that no pattern matches by itself; the bucket has that file and
    [a.txt]. Delete mode is on, sizes only. *)
Definition excluded_tree : node :=
  Dir [("a.txt", File 1); ("logs", Dir [("x.txt", File 3)])].
Definition excluded_patterns : list string := ["/d/logs"].
Definition excluded_objs : list s3_Object :=
  [mkObject "p/a.txt" 1 0 etag_x; mkObject "p/logs/x.txt" 3 0 etag_x].
Definition excluded_world : World :=
  world excluded_objs
    [("/d/a.txt", readable "x"); ("/d/logs/x.txt", readable "abc")].
Definition excluded_run : SyncVars * list event * outcome (option error) :=
  Sync excluded_world client "/d" "p" true true 5 true excluded_patterns
    excluded_tree zeroVars.

(** Scenario A of the specification: [a.txt] at the top and [b.txt] in
    a subdirectory, an empty bucket, no recursion. *)
Definition flat_tree : node :=
  Dir [("a.txt", File 1); ("sub", Dir [("b.txt", File 1)])].
Definition flat_world : World :=
  world [] [("/d/a.txt", readable "x"); ("/d/sub/b.txt", readable "a")].
Definition flat_run : SyncVars * list event * outcome (option error) :=
  Sync flat_world client "/d" "p" false false 5 false [] flat_tree zeroVars.

(** An empty directory and an empty bucket, with [--concurrency 0]. *)
Definition idle_flags : Flags := mkFlags false false false 0 false [].
Definition idle_args : list string := ["/d"; "r2://bucket/p"].

(** A new file [a.txt] followed by a file [b.txt] that the bucket has
    and that cannot be opened. *)
Definition early_tree : node :=
  Dir [("a.txt", File 1); ("b.txt", File 7)].
Definition early_objs : list s3_Object := [mkObject "p/b.txt" 7 0 etag_x].
Definition early_world : World :=
  world early_objs [("/d/a.txt", readable "x")].
Definition early_run : SyncVars * list event * outcome (option error) :=
  Sync early_world client "/d" "p" true true 5 false [] early_tree zeroVars.

End Scenario.

(** The inventory that the pages of a listing add up to, and the number
    of calls it takes. *)
Fixpoint listResult (pages : listing) (result : gmap string FileInfo)
    : error + gmap string FileInfo :=
  match pages with
  | ListFail err => inl err
  | LastPage contents => inr (foldl addObject result contents)
  | MorePages contents _ next => listResult next (foldl addObject result contents)
  end.

Fixpoint listCalls (pages : listing) : nat :=
  match pages with
  | MorePages _ _ next => Datatypes.S (listCalls next)
  | _ => 1
  end.

(** The remote keys that a sequence of candidates claims. *)
Definition claimed (localPath remotePath : string) (cs : list (string * Z))
    : list string :=
  map (fun c => remoteKeyOf localPath remotePath c.1) cs.

Definition filesOf (vs : list (error + string * Z)) : list (string * Z) :=
  omap (fun v => match v with inr c => Some c | inl _ => None end) vs.

(** What [Sync] does before it makes the gate. *)
Definition syncPrefix (r : R2Client) (remotePath : string) (pages : listing)
    : list event :=
  EvLog (LogGettingRemote remotePath)
    :: replicate (listCalls pages) (EvListObjectsV2 (bucket r) remotePath).

(** The events of the walk: a file opened for its fingerprint, or an
    upload started. *)
Definition is_walk_event (e : event) : bool :=
  match e with
  | EvOpen _ | EvGo (UploadTask _ _) => true
  | _ => false
  end.

Definition is_open (e : event) : bool :=
  match e with
  | EvOpen _ => true
  | _ => false
  end.

(** What the goroutine of a task logs in a dry run. *)
Definition dryRunLog (r : R2Client) (t : task) : list event :=
  match t with
  | UploadTask localPath remoteKey =>
      [EvLog (LogUploading localPath (RemotePath r remoteKey));
       EvLog (LogDryrunUpload localPath (RemotePath r remoteKey))]
  | DeleteTask key =>
      [EvLog (LogDeleting (RemotePath r key));
       EvLog (LogDryrunDelete (RemotePath r key))]
  end.

(** ** The admission gate and the wait group

    The goroutines of one phase of [Sync] as a transition system, one
    step per statement. The main goroutine submits the tasks of the phase
    one by one ([wg.Add(1)], the send on [semaphore], [go func]) and then
    either reaches [wg.Wait()] (lines 299 and 322) or, when the walk has
    returned an error, leaves [Sync] on line 296. A started goroutine
    runs its upload or delete and logs a failure, then its deferred calls
    run: the receive from [semaphore], then [wg.Done()]. The channel has
    a buffer of [N] slots: a send goes through only while fewer than [N]
    values are in it. *)
Module Gate.

(** Where a started goroutine stands: in its body, past its body with the
    outcome logged, or past the receive from the gate. *)
Inductive stage :=
| Body
| Logged
| Freed.

(** How the submission loop of the phase ends. *)
Inductive ending :=
| ThenWait
| ThenReturn.

(** Where the main goroutine stands. *)
Inductive pc :=
| Loop (todo : list task)
| Added (t : task) (todo : list task)
| Sent (t : task) (todo : list task)
| Passed
| LeftEarly.

Record state := mkState {
  main : pc;
  sem : nat;
  wg : nat;
  gs : list (task * stage);
  ended : list task
}.

Definition init (tasks : list task) : state :=
  mkState (Loop tasks) 0 0 [] [].

Inductive step (N : nat) (e : ending) : state -> state -> Prop :=
| step_add t todo sem wg gs ended :
    step N e (mkState (Loop (t :: todo)) sem wg gs ended)
             (mkState (Added t todo) sem (S wg) gs ended)
| step_send t todo sem wg gs ended :
    sem < N ->
    step N e (mkState (Added t todo) sem wg gs ended)
             (mkState (Sent t todo) (S sem) wg gs ended)
| step_go t todo sem wg gs ended :
    step N e (mkState (Sent t todo) sem wg gs ended)
             (mkState (Loop todo) sem wg ((t, Body) :: gs) ended)
| step_wait sem gs ended :
    e = ThenWait ->
    step N e (mkState (Loop []) sem 0 gs ended)
             (mkState Passed sem 0 gs ended)
| step_return sem wg gs ended :
    e = ThenReturn ->
    step N e (mkState (Loop []) sem wg gs ended)
             (mkState LeftEarly sem wg gs ended)
| step_body m t sem wg l1 l2 ended :
    step N e (mkState m sem wg (l1 ++ (t, Body) :: l2) ended)
             (mkState m sem wg (l1 ++ (t, Logged) :: l2) ended)
| step_free m t sem wg l1 l2 ended :
    step N e (mkState m (S sem) wg (l1 ++ (t, Logged) :: l2) ended)
             (mkState m sem wg (l1 ++ (t, Freed) :: l2) ended)
| step_done m t sem wg l1 l2 ended :
    step N e (mkState m sem (S wg) (l1 ++ (t, Freed) :: l2) ended)
             (mkState m sem wg (l1 ++ l2) (t :: ended)).

(** A goroutine holds a slot of the gate from its start to its receive. *)
Definition holds (g : task * stage) : bool :=
  match g.2 with
  | Freed => false
  | _ => true
  end.

Definition in_body (g : task * stage) : bool :=
  match g.2 with
  | Body => true
  | _ => false
  end.

Fixpoint count (f : task * stage -> bool) (l : list (task * stage)) : nat :=
  match l with
  | [] => 0
  | g :: rest => (if f g then 1 else 0) + count f rest
  end.

(** The tasks whose outcome has been recorded. *)
Definition recorded (s : state) : list task :=
  ended s ++ map fst (List.filter (fun g => negb (in_body g)) (gs s)).

(** The tasks the main goroutine has not started yet, the value it has
    put into the gate for a goroutine it has not started yet, and the
    unit it has added to the wait group for it. *)
Definition pending (m : pc) : list task :=
  match m with
  | Loop todo => todo
  | Added t todo | Sent t todo => t :: todo
  | Passed | LeftEarly => []
  end.

Definition token (m : pc) : nat :=
  match m with
  | Sent _ _ => 1
  | _ => 0
  end.

Definition unit_added (m : pc) : nat :=
  match m with
  | Added _ _ | Sent _ _ => 1
  | _ => 0
  end.

Definition inv (N : nat) (e : ending) (tasks : list task) (s : state) : Prop :=
  sem s = count holds (gs s) + token (main s)
  /\ wg s = length (gs s) + unit_added (main s)
  /\ sem s <= N
  /\ Permutation tasks (pending (main s) ++ map fst (gs s) ++ ended s)
  /\ (main s = Passed -> gs s = [] /\ e = ThenWait)
  /\ (main s = LeftEarly -> e = ThenReturn).

End Gate.

(** The upload phase of a run of [Sync] as the gate sees it: the uploads
    it started, and whether it went on to [wg.Wait()] or returned with an
    error. *)
Definition uploadPhase (run : SyncVars * list event * outcome (option error))
    : list task * Gate.ending :=
  (map (fun u => UploadTask u.1 u.2) (uploads (trace_of run)),
   match out_of run with
   | Returned (Some _) => Gate.ThenReturn
   | _ => Gate.ThenWait
   end).

(** ** More of the program *)

(** The record that [ListObjects] stores for a listed object. *)
Definition recordOf (obj : s3_Object) : FileInfo :=
  mkFileInfo (obj_Key obj) (obj_Size obj) (obj_LastModified obj) (obj_ETag obj).

(** The objects of the pages of a listing, in the order they are listed. *)
Fixpoint pageObjects (pages : listing) : list s3_Object :=
  match pages with
  | LastPage contents => contents
  | MorePages contents _ next => contents ++ pageObjects next
  | ListFail _ => []
  end.

(** The flags of [main] with the patterns as [main] rewrites them
    (lines 391-393). *)
Definition normalizedFlags (flags : Flags) : Flags :=
  mkFlags (flag_dryrun flags) (flag_delete flags) (flag_recursive flags)
    (flag_concurrency flags) (flag_size_only flags)
    (map normalizePath (flag_exclude flags)).


(** Further concrete worlds for the examples. *)
Module Cases.

(** A listing of two pages in which [p/a.txt] is listed twice. *)
Definition paged : listing :=
  MorePages [mkObject "p/a.txt" 1 0 "e1"; mkObject "p/b.txt" 2 0 "e2"] "t1"
    (LastPage [mkObject "p/a.txt" 5 0 "e3"]).

(** A world with the given listing, an upload service that refuses the
    keys of [refused], and the files of a table. *)
Definition world (pages : listing) (refused : list string)
    (files : list (string * OpenFile)) : World :=
  mkWorld (Scenario.lookupFile files) Scenario.digest
    (fun ext => if String.eqb ext ".txt" then "text/plain; charset=utf-8" else "")
    (fun ext => if String.eqb ext ".wasm" then "application/wasm" else "")
    (fun _ _ => pages)
    (fun _ key => if existsb (String.eqb key) refused
                  then Some "put: connection reset" else None)
    (fun _ key => if existsb (String.eqb key) refused
                  then Some "delete: connection reset" else None)
    Scenario.parseTarget None.

(** A listing whose second page fails. *)
Definition broken : listing :=
  MorePages [mkObject "p/a.txt" 1 0 "e1"] "t1" (ListFail "503 Slow Down").

Definition tree : node :=
  Dir [("a.txt", File 1); ("sub", Dir [("b.txt", File 1)])].

Definition files : list (string * OpenFile) :=
  [("/d/a.txt", Scenario.readable "x"); ("/d/sub/b.txt", Scenario.readable "a")].

End Cases.

(** The inventory of a listing that does not fail. *)
Definition listResult_value (pages : listing) : gmap string FileInfo :=
  match listResult pages ∅ with
  | inr m => m
  | inl _ => ∅
  end.


(** ** The goroutines in a real run *)

(** The key a task works on. *)
Definition keyOfTask (t : task) : string :=
  match t with
  | UploadTask _ remoteKey => remoteKey
  | DeleteTask key => key
  end.

(** The line a goroutine logs first (lines 283 and 315). *)
Definition startLine (r : R2Client) (t : task) : event :=
  match t with
  | UploadTask localPath remoteKey =>
      EvLog (LogUploading localPath (RemotePath r remoteKey))
  | DeleteTask key => EvLog (LogDeleting (RemotePath r key))
  end.

Definition is_startLine (e : event) : bool :=
  match e with
  | EvLog (LogUploading _ _) | EvLog (LogDeleting _) => true
  | _ => false
  end.

(** The requests of a trace that change the bucket, with their keys. *)
Definition mutatedKeys (tr : list event) : list string :=
  omap (fun e => match e with
                 | EvPutObject _ key _ _ | EvDeleteObject _ key => Some key
                 | _ => None
                 end) tr.

(** The goroutines of a list of tasks, one after the other. *)
Definition runTasks (w : World) (r : R2Client) (dryRun : bool)
    (tasks : list task) : M (gmap string StoredObject) unit :=
  forEach tasks (goroutine w r dryRun).


(** A bucket for the examples. *)
Definition Cases_bucket : gmap string StoredObject :=
  list_to_map [("p/a.txt", mkStored "old" "text/plain");
               ("p/b.txt", mkStored "b" "text/plain");
               ("p/old.txt", mkStored "o" "text/plain")].


(** ** Reading the tasks of a run *)

(** The task of an upload of a trace. *)
Definition uploadTask (u : string * string) : task := UploadTask u.1 u.2.

(** What [Sync] logs once the delete phase is over. *)
Definition closing (o : outcome unit) : list event :=
  match o with
  | Returned _ => [EvLog LogSyncCompleted]
  | _ => []
  end.

(** What [Sync] returns once the walk has ended without error. *)
Definition finish (o : outcome unit) : outcome (option error) :=
  match o with
  | Returned _ => Returned None
  | Panicked msg => Panicked msg
  | Blocked => Blocked
  end.

(** The outcome of a walk that does not let [Sync] go on to its
    [wg.Wait()]. *)
Definition stopped (o : outcome WalkResult) : Prop :=
  match o with
  | Returned (WErr _) | Panicked _ | Blocked => True
  | Returned _ => False
  end.



(** A directory [sub] with a file [b.txt], and beside it a file whose
    name is [sub\b.txt]: both have the remote key [p/sub/b.txt]. The
    bucket has that key with the size of the first. *)
Definition Cases_repeated_tree : node :=
  Dir [("sub", Dir [("b.txt", File 1)]);
       ("sub" +:+ String GoPath.backslash "b.txt", File 7)].
Definition Cases_repeated_pages : listing :=
  LastPage [mkObject "p/sub/b.txt" 1 0 "e1"].
Definition Cases_repeated_world : World :=
  Cases.world Cases_repeated_pages [] Cases.files.
Definition Cases_repeated_run : SyncVars * list event * outcome (option error) :=
  Sync Cases_repeated_world Scenario.client "/d" "p" false true 5 true []
    Cases_repeated_tree zeroVars.


(** The lines a goroutine logs when its transfer failed. *)
Definition is_failure (e : event) : bool :=
  match e with
  | EvLog (LogUploadFailed _ _) | EvLog (LogDeleteFailed _ _) => true
  | _ => false
  end.

(** A tree whose two files the bucket already has, with their sizes and
    fingerprints. *)
Definition Cases_same_pages : listing :=
  LastPage [mkObject "p/a.txt" 1 0 Scenario.etag_x;
            mkObject "p/sub/b.txt" 1 0
              (dquote +:+ Scenario.digest "a" +:+ dquote)].
Definition Cases_same_world : World :=
  Cases.world Cases_same_pages [] Cases.files.

(** The bucket behind the listing of the stale scenario. *)
Definition Cases_stale_bucket : gmap string StoredObject :=
  list_to_map [("p/a.txt", mkStored "x" "text/plain");
               ("p/old.txt", mkStored "old" "text/plain")].



(** ** The steps a phase has left *)

Module GateRun.
Import Gate.

(** The steps a started goroutine still has to make. *)
Definition stageLeft (g : task * stage) : nat :=
  match g.2 with
  | Body => 3
  | Logged => 2
  | Freed => 1
  end.

(** The steps the main goroutine still has to make or to start: three of
    its own and three of the goroutine for every task, and the last one
    that takes it out of the phase. *)
Definition mainLeft (m : pc) : nat :=
  match m with
  | Loop todo => 6 * length todo + 1
  | Added _ todo => 6 * length todo + 6
  | Sent _ todo => 6 * length todo + 5
  | Passed | LeftEarly => 0
  end.

Definition stepsLeft (s : state) : nat :=
  mainLeft (main s) + list_sum (map stageLeft (gs s)).

(** The main goroutine is out of the phase. *)
Definition left (s : state) : Prop :=
  main s = Passed \/ main s = LeftEarly.

End GateRun.


(** ** The [--exclude] flag *)

(** [stringSliceFlag.String] (lines 332-334). *)
Definition stringSliceFlag_String (s : list string) : string :=
  GoStrings.Join s ",".

(** [stringSliceFlag.Set] (lines 336-339): the new value of the flag and
    the error, which is always nil. *)
Definition stringSliceFlag_Set (s : list string) (value : string)
    : list string * option error :=
  (s ++ [value], None).

(** [flag.Parse] on the occurrences of [--exclude], in order: one call of
    [Set] for each, stopping at the first error. *)
Fixpoint parseExclude (s : list string) (values : list string)
    : list string * option error :=
  match values with
  | [] => (s, None)
  | value :: rest =>
      match stringSliceFlag_Set s value with
      | (s', None) => parseExclude s' rest
      | (s', Some err) => (s', Some err)
      end
  end.




(** A run that uploads one file and deletes one key: [a.txt] is listed
    with its size, [sub/b.txt] is not listed, and [p/old.txt] has no
    local counterpart. *)
Definition Cases_mixed_world : World :=
  Cases.world (LastPage Scenario.stale_objs) [] Cases.files.
Definition Cases_mixed_run : SyncVars * list event * outcome (option error) :=
  Sync Cases_mixed_world Scenario.client "/d" "p" true true 5 true []
    Cases.tree zeroVars.

(** ** The whole of [main] *)

(** What [flag.Parse] (line 373) makes of the command line. The flags
    are registered on the default flag set (lines 366-372), which handles
    errors by leaving the process: a command line it accepts gives the
    values of the flags and the arguments after them; [-h] or [-help],
    which the program does not define, makes it print the defaults and
    end the process with status 0; any other command line it rejects
    makes it print the error and the defaults and end the process with
    status 2. *)
Inductive parse :=
| Parsed (flags : Flags) (args : list string)
| HelpAsked
| Rejected (msg : string).

(** [main] from its first line: [flag.Parse], then the rest. *)
Definition r2sync (w : World) (cmd : parse) (tree : node)
    : list event * exit :=
  match cmd with
  | Parsed flags args => main w flags args tree
  | HelpAsked => ([EvLog LogFlagDefaults], Exit 0)
  | Rejected msg => ([EvLog (LogFlagError msg); EvLog LogFlagDefaults], Exit 2)
  end.

(** The status the process ends with, when it ends: the one given to
    [os.Exit], 0 after a return from [main], and 2 after a panic, which
    is how the Go runtime ends a process whose goroutine panics. *)
Definition exitStatus (ex : exit) : option Z :=
  match ex with
  | Exit code => Some code
  | Crash _ => Some 2%Z
  | Hang => None
  end.

(** The tree of the excluded scenario with one more entry beside the
    directory [logs]: a file whose name is [logs\x.txt]. *)
Definition Cases_alias_tree : node :=
  Dir [("a.txt", File 1); ("logs", Dir [("x.txt", File 3)]);
       ("logs" +:+ String GoPath.backslash "x.txt", File 5)].
Definition Cases_alias_run : SyncVars * list event * outcome (option error) :=
  Sync Scenario.excluded_world Scenario.client "/d" "p" true true 5 true
    Scenario.excluded_patterns Cases_alias_tree zeroVars.

(** Names outside ASCII, by their bytes: [e] with an acute accent in
    UTF-8, and the byte [0xFF], which starts no encoding. *)
Definition Cases_e_acute : string :=
  String (ascii_of_nat 195) (String (ascii_of_nat 169) EmptyString).
Definition Cases_byte_ff : string := String (ascii_of_nat 255) EmptyString.

(** * Properties *)

(** ** The library models on the examples of the Go documentation *)

Example Clean_examples :
  map GoPath.Clean
    ["a/c"; "a//c"; "a/c/."; "a/c/b/.."; "/../a/c"; "/../a/b/../././/c"; ""]
  = ["a/c"; "a/c"; "a/c"; "a/c"; "/a/c"; "/a/c"; "."].
Proof. reflexivity. Qed.

Example Dir_examples :
  map GoPath.Dir ["/a/b/c"; "a/b/c"; "/a/"; "a/"; "/"; ""; "/d"; "."; "a.txt"]
  = ["/a/b"; "a/b"; "/a"; "a"; "/"; "."; "/"; "."; "."].
Proof. reflexivity. Qed.

Example Ext_examples :
  map GoPath.Ext ["index"; "index.js"; "main.test.js"; "a.b/c"]
  = [""; ".js"; ".js"; ""].
Proof. reflexivity. Qed.

Example Join_examples :
  (GoPath.Join "a" "b/c", GoPath.Join "a/b" "../../../xyz",
   GoPath.Join "" "", GoPath.Join "a" "", GoPath.Join "" "a")
  = ("a/b/c", "../xyz", "", "a", "a").
Proof. reflexivity. Qed.

Example Rel_examples :
  (GoPath.Rel "/a" "/a/b/c", GoPath.Rel "/a" "/b/c", GoPath.Rel "/a" "./b/c",
   GoPath.Rel "/d" "/d/sub/b.txt")
  = (("b/c", None), ("../b/c", None),
     ("", Some "Rel: can't make ./b/c relative to /a"),
     ("sub/b.txt", None)).
Proof. reflexivity. Qed.

Example Match_examples :
  map (fun pn => matches pn.1 pn.2)
    [("abc", "abc"); ("a*", "abc"); ("a*/b", "a/c/b"); ("*.tmp", "x.tmp");
     ("*.tmp", "d/x.tmp"); ("[a-c]?", "bz"); ("[^a-c]?", "bz");
     ("backup/*", "backup/f"); ("a[", "a")]
  = [true; true; false; true; false; true; false; true; false].
Proof. reflexivity. Qed.

(** [?] and a bracket expression take a whole rune from the name, a
    byte that starts no encoding counts as one rune, and such a byte in a
    bracket expression is a syntax error. *)
Example Match_rune_examples :
  GoPath.Match "?.txt" (Cases_e_acute +:+ ".txt") = (true, None)
  /\ GoPath.Match "??.txt" (Cases_e_acute +:+ ".txt") = (false, None)
  /\ GoPath.Match ("[" +:+ Cases_e_acute +:+ "]") Cases_e_acute = (true, None)
  /\ GoPath.Match "[^a-z]" Cases_e_acute = (true, None)
  /\ GoPath.Match "?" Cases_byte_ff = (true, None)
  /\ GoPath.Match ("[" +:+ Cases_byte_ff +:+ "]") Cases_byte_ff
     = (false, Some ErrBadPattern)
  /\ GoPath.DecodeRuneInString Cases_e_acute = (233%N, 2)
  /\ GoPath.DecodeRuneInString Cases_byte_ff = (GoPath.RuneError, 1).
Proof. repeat split; vm_compute; reflexivity. Qed.

Example Split_examples :
  map (fun p => Split p GoPath.slash) [""; "a"; "/d/logs/x.txt"; "a/"]
  = [[""]; ["a"]; [""; "d"; "logs"; "x.txt"]; ["a"; ""]].
Proof. reflexivity. Qed.

(** ** The exclusion matcher *)

Lemma matches_glob pattern name : matches pattern name = true <-> glob pattern name.
Proof.
  unfold matches, glob.
  destruct (GoPath.Match pattern name) as [matched [err|]]; split;
    intros H; try discriminate; congruence.
Qed.

Lemma matches_error pattern name :
  (GoPath.Match pattern name).2 <> None -> matches pattern name = false.
Proof.
  unfold matches.
  destruct (GoPath.Match pattern name) as [matched [err|]]; simpl; congruence.
Qed.

Lemma shouldExclude_existsb fullpath pats :
  shouldExclude fullpath pats = existsb (excludes fullpath) pats.
Proof.
  induction pats as [|p pats IH]; simpl; [reflexivity|].
  unfold excludes at 1.
  destruct (matches p fullpath); simpl; [reflexivity|].
  destruct (existsb _ (Split fullpath GoPath.slash)); simpl; auto.
Qed.

Lemma excludes_glob fullpath p :
  excludes fullpath p = true <->
  glob p fullpath \/
  exists part, part ∈ Split fullpath GoPath.slash /\ glob p part.
Proof.
  unfold excludes. rewrite orb_true_iff, existsb_exists, matches_glob.
  split; (intros [H|(part & Hin & Hm)]; [left; exact H|right]);
    exists part; split.
  - apply list_elem_of_In; exact Hin.
  - apply matches_glob; exact Hm.
  - apply list_elem_of_In; exact Hin.
  - apply matches_glob; exact Hm.
Qed.

Lemma existsb_Permutation {A} (f : A -> bool) (l l' : list A) :
  Permutation l l' -> existsb f l = existsb f l'.
Proof.
  induction 1; simpl; try congruence.
  - destruct (f x), (f y); reflexivity.
Qed.

(** C7. [shouldExclude] answers true exactly when some pattern of the
    list glob-matches the full path or one of the segments between its
    slashes; a pattern on which [path.Match] reports an error counts as
    not matching, so a pattern that is always in error can be dropped
    from the list; and the answer does not depend on the order of the
    patterns. *)
Theorem shouldExclude_spec (fullpath : string) (pats : list string) :
  (shouldExclude fullpath pats = true <->
   exists p, p ∈ pats /\
     (glob p fullpath \/
      exists part, part ∈ Split fullpath GoPath.slash /\ glob p part))
  /\ (forall p l1 l2,
        (forall name, (GoPath.Match p name).2 <> None) ->
        shouldExclude fullpath (l1 ++ p :: l2) = shouldExclude fullpath (l1 ++ l2))
  /\ (forall pats', Permutation pats pats' ->
        shouldExclude fullpath pats' = shouldExclude fullpath pats).
Proof.
  split; [|split].
  - rewrite shouldExclude_existsb, existsb_exists. split.
    + intros (p & Hin & Hex). exists p. split.
      * apply list_elem_of_In; exact Hin.
      * apply excludes_glob; exact Hex.
    + intros (p & Hin & Hex). exists p. split.
      * apply list_elem_of_In; exact Hin.
      * apply excludes_glob; exact Hex.
  - intros p l1 l2 Hbad.
    rewrite !shouldExclude_existsb, !existsb_app. simpl.
    assert (excludes fullpath p = false) as ->; [|reflexivity].
    unfold excludes. rewrite matches_error by apply Hbad. simpl.
    induction (Split fullpath GoPath.slash) as [|part parts IH]; simpl.
    + reflexivity.
    + rewrite matches_error by apply Hbad. exact IH.
  - intros pats' Hperm. rewrite !shouldExclude_existsb.
    symmetry. apply existsb_Permutation; exact Hperm.
Qed.

(** A pattern that [path.Match] always rejects: an unclosed bracket. *)
Lemma Match_unclosed_bracket name : (GoPath.Match "[" name).2 <> None.
Proof. destruct name as [|c name]; cbv; discriminate. Qed.

Lemma shouldExclude_spec_witness :
  shouldExclude "/d/logs/x.txt" ["["; "logs"] = true
  /\ shouldExclude "/d/logs/x.txt" ["logs"; "["]
     = shouldExclude "/d/logs/x.txt" ["["; "logs"]
  /\ shouldExclude ("/d/" +:+ Cases_e_acute +:+ ".txt") ["?.txt"] = true.
Proof.
  destruct (shouldExclude_spec "/d/logs/x.txt" ["["; "logs"])
    as (Hiff & Hbad & Hperm).
  split; [|split].
  - apply Hiff. exists "logs". split.
    + apply elem_of_cons. right. apply elem_of_cons. by left.
    + right. exists "logs". split; [|vm_compute; reflexivity].
      apply list_elem_of_In. vm_compute. tauto.
  - apply Hperm. apply perm_swap.
  - apply (proj1 (shouldExclude_spec ("/d/" +:+ Cases_e_acute +:+ ".txt")
                    ["?.txt"])).
    exists "?.txt". split; [apply elem_of_cons; by left|].
    right. exists (Cases_e_acute +:+ ".txt"). split; [|vm_compute; reflexivity].
    apply list_elem_of_In. vm_compute. tauto.
Defined.


(** ** The monad *)

Section MonadLaws.
Context {S : Type}.

Lemma bind_ret_l {A B} (a : A) (k : A -> M S B) st :
  bind (ret a) k st = k a st.
Proof. unfold bind, ret. destruct (k a st) as [[st' ev] o]. reflexivity. Qed.

Lemma bind_ret_r {A} (m : M S A) st : bind m ret st = m st.
Proof.
  unfold bind, ret. destruct (m st) as [[st' ev] [a|msg|]];
    rewrite ?app_nil_r; reflexivity.
Qed.

Lemma bind_assoc {A B C} (m : M S A) (k : A -> M S B) (h : B -> M S C) st :
  bind (bind m k) h st = bind m (fun a => bind (k a) h) st.
Proof.
  unfold bind. destruct (m st) as [[st1 ev1] [a|msg|]]; try reflexivity.
  destruct (k a st1) as [[st2 ev2] [b|msg|]]; try reflexivity.
  destruct (h b st2) as [[st3 ev3] o]. rewrite app_assoc. reflexivity.
Qed.

Lemma bind_ext {A B} (m m' : M S A) (k k' : A -> M S B) st :
  m st = m' st ->
  (forall a st1, k a st1 = k' a st1) ->
  bind m k st = bind m' k' st.
Proof.
  intros Hm Hk. unfold bind. rewrite Hm.
  destruct (m' st) as [[st1 ev1] [a|msg|]]; try reflexivity.
  rewrite Hk. reflexivity.
Qed.

Lemma bind_run {A B} (m : M S A) (k : A -> M S B) st st1 ev1 a :
  m st = (st1, ev1, Returned a) ->
  bind m k st = (state_of (k a st1), ev1 ++ trace_of (k a st1), out_of (k a st1)).
Proof.
  intros Hm. unfold bind. rewrite Hm.
  destruct (k a st1) as [[st2 ev2] o]. reflexivity.
Qed.

Lemma bind_panicked {A B} (m : M S A) (k : A -> M S B) st st1 ev1 msg :
  m st = (st1, ev1, Panicked msg) -> bind m k st = (st1, ev1, Panicked msg).
Proof. intros Hm. unfold bind. rewrite Hm. reflexivity. Qed.

Lemma bind_blocked {A B} (m : M S A) (k : A -> M S B) st st1 ev1 :
  m st = (st1, ev1, Blocked) -> bind m k st = (st1, ev1, Blocked).
Proof. intros Hm. unfold bind. rewrite Hm. reflexivity. Qed.
End MonadLaws.

(** ** Induction on the local tree *)

Lemma node_nested_ind (P : node -> Prop) :
  (forall size, P (File size)) ->
  (forall entries, Forall (fun e => P e.2) entries -> P (Dir entries)) ->
  (forall e, P (DirUnreadable e)) ->
  (forall e, P (NoStat e)) ->
  forall n, P n.
Proof.
  intros HFile HDir HUnreadable HNoStat.
  fix IH 1. intros [size|entries|e|e].
  - apply HFile.
  - apply HDir.
    induction entries as [|[name child] rest IHrest]; constructor.
    + simpl. apply IH.
    + exact IHrest.
  - apply HUnreadable.
  - apply HNoStat.
Qed.

(** ** The walk hands the visits to the diff step *)

Section WalkVisits.
Variable w : World.
Variables localPath remotePath : string.
Variable recursive : bool.
Variable concurrency : Z.
Variable sizeOnly : bool.
Variable excludePatterns : list string.

Local Abbreviation fn :=
  (walkFn w localPath remotePath recursive concurrency sizeOnly excludePatterns).
Local Abbreviation file_step :=
  (syncFile w localPath remotePath concurrency sizeOnly).
Local Abbreviation diff := (diffAll w localPath remotePath concurrency sizeOnly).
Local Abbreviation visit := (visits localPath recursive excludePatterns).

Lemma needUpload_run fullpath info key st :
  exists ev need,
    needUpload w sizeOnly fullpath info key st = (st, ev, Returned need).
Proof.
  unfold needUpload, bind, get. simpl.
  destruct (remoteFiles st !! key) as [remoteInfo|]; [|by eexists _, _].
  destruct sizeOnly; [by eexists _, _|].
  unfold calcETag, bind, emit, ret. simpl.
  destruct (fingerprint w fullpath); by eexists _, _.
Qed.

(** The diff step of one file ends with [nil] or an error, or blocks;
    it never asks to skip a directory. *)
Lemma syncFile_not_SkipDir fullpath info st :
  out_of (file_step fullpath info st) <> Returned WSkipDir.
Proof.
  unfold syncFile.
  destruct (needUpload_run fullpath info (remoteKeyOf localPath remotePath fullpath) st)
    as (ev & need & Hneed).
  unfold bind at 1. rewrite Hneed.
  destruct need as [err|[|]]; simpl.
  - discriminate.
  - unfold spawn. destruct (concurrency =? 0)%Z; simpl; discriminate.
  - discriminate.
Qed.

Lemma walkFn_dir path size st :
  fn path (Some (mkInfo true size)) None st =
  (st, [], Returned (if passes localPath recursive excludePatterns path
                     then WNil else WSkipDir)).
Proof.
  unfold walkFn, passes. simpl.
  destruct (shouldExclude _ _); simpl; [reflexivity|].
  destruct recursive; simpl; [reflexivity|].
  destruct (String.eqb _ _); reflexivity.
Qed.

Lemma walkFn_file path size st :
  fn path (Some (mkInfo false size)) None st =
  if passes localPath recursive excludePatterns path
  then file_step (normalizePath path) (mkInfo false size) st
  else (st, [], Returned WNil).
Proof.
  unfold walkFn, passes. simpl.
  destruct (shouldExclude _ _); simpl; [reflexivity|].
  destruct recursive; simpl; [reflexivity|].
  destruct (String.eqb _ _); reflexivity.
Qed.

Lemma walk_File_not_SkipDir path size st :
  out_of (walk fn path (File size) st) <> Returned WSkipDir.
Proof.
  cbn [walk]. rewrite walkFn_file.
  destruct (passes _ _ _ _); [apply syncFile_not_SkipDir|discriminate].
Qed.

Lemma diffAll_app vs1 vs2 st :
  diff (vs1 ++ vs2) st =
  bind (diff vs1)
    (fun res => match res with WNil => diff vs2 | _ => ret res end) st.
Proof.
  revert st. induction vs1 as [|[err|[fullpath size]] vs1 IH]; intros st.
  - simpl. rewrite bind_ret_l. reflexivity.
  - simpl. rewrite bind_ret_l. reflexivity.
  - simpl. rewrite bind_assoc. apply bind_ext; [reflexivity|].
    intros [| |e] st1.
    + apply IH.
    + rewrite bind_ret_l. reflexivity.
    + rewrite bind_ret_l. reflexivity.
Qed.

(** The walk of a tree is the diff step run over its visits. *)
Lemma walk_visits n : forall path st,
  bind (walk fn path n) (fun res => ret (skipToNil res)) st =
  diff (visit path n) st.
Proof.
  induction n as [size|entries IH|e|e] using node_nested_ind; intros path st.
  - cbn [walk visits]. unfold bind at 1. rewrite walkFn_file.
    pose proof (syncFile_not_SkipDir (normalizePath path) (mkInfo false size) st) as Hns.
    destruct (passes _ _ _ _); [|reflexivity].
    cbn [diffAll]. unfold bind.
    destruct (file_step _ _ st) as [[st1 ev1] [[| |err]|msg|]];
      simpl in *; try reflexivity; congruence.
  - cbn [walk visits]. rewrite bind_assoc. unfold bind at 1.
    rewrite walkFn_dir.
    destruct (passes _ _ _ _); [|reflexivity].
    assert (forall st,
      bind (walkNames (walk fn) path entries)
        (fun res => ret (skipToNil res)) st =
      diff (flat_map (fun e => visit (GoPath.Join path e.1) e.2) entries) st)
      as Hloop.
    { clear st. induction entries as [|[name child] rest IHrest]; intros st.
      - reflexivity.
      - apply Forall_cons in IH as [IHchild IHtail].
        specialize (IHrest IHtail). simpl in IHchild.
        cbn [flat_map fst snd]. rewrite diffAll_app.
        rewrite <- (bind_ext _ _ _ _ st (IHchild (GoPath.Join path name) st)
                      (fun a st1 => eq_refl)).
        cbn [walkNames]. rewrite !bind_assoc.
        pose proof (walk_File_not_SkipDir (GoPath.Join path name)) as Hfile.
        unfold bind at 1 3.
        destruct (walk fn (GoPath.Join path name) child st)
          as [[st1 ev1] [[| |err]|msg|]] eqn:Hchild; try reflexivity.
        + rewrite bind_ret_l. simpl.
          specialize (IHrest st1). fold (walkNames (walk fn) path) in *.
          rewrite IHrest. destruct (diff _ st1) as [[st2 ev2] o]. reflexivity.
        + rewrite bind_ret_l. simpl.
          destruct child as [size| | |].
          * specialize (Hfile size st). rewrite Hchild in Hfile.
            exfalso. apply Hfile. reflexivity.
          * specialize (IHrest st1). fold (walkNames (walk fn) path) in *.
            rewrite IHrest. destruct (diff _ st1) as [[st2 ev2] o]. reflexivity.
          * specialize (IHrest st1). fold (walkNames (walk fn) path) in *.
            rewrite IHrest. destruct (diff _ st1) as [[st2 ev2] o]. reflexivity.
          * specialize (IHrest st1). fold (walkNames (walk fn) path) in *.
            rewrite IHrest. destruct (diff _ st1) as [[st2 ev2] o]. reflexivity. }
    rewrite Hloop. destruct (diff _ st) as [[st2 ev2] o]. reflexivity.
  - cbn [walk visits diffAll]. unfold bind, walkFn, ret. reflexivity.
  - cbn [walk visits diffAll]. unfold bind, walkFn, ret. reflexivity.
Qed.

(** [filepath.Walk] with the closure of [Sync] is the diff step over
    the visits of the tree, and only an error other than [SkipDir] is
    reported. *)
Lemma Walk_visits root tree st :
  Walk fn root tree st =
  bind (diff (visit root tree)) (fun res => ret (toError res)) st.
Proof.
  unfold Walk.
  rewrite <- (bind_ext _ _ _ _ st (walk_visits tree root st) (fun a st1 => eq_refl)).
  rewrite bind_assoc. apply bind_ext; [reflexivity|].
  intros [| |e] st1; rewrite bind_ret_l; reflexivity.
Qed.
End WalkVisits.

(** ** The diff step of one file *)

Section DiffStep.
Variable w : World.
Variables localPath remotePath : string.
Variable concurrency : Z.
Variable sizeOnly : bool.

Lemma needUpload_eq fullpath info key st :
  needUpload w sizeOnly fullpath info key st =
  (st, hashed sizeOnly (remoteFiles st) fullpath key,
   Returned (needs w sizeOnly (remoteFiles st) fullpath (fi_Size info) key)).
Proof.
  unfold needUpload, needs, hashed, bind, get. simpl.
  destruct (remoteFiles st !! key) as [remoteInfo|]; [|reflexivity].
  destruct sizeOnly; [reflexivity|].
  unfold calcETag, bind, emit, ret. simpl.
  destruct (fingerprint w fullpath); reflexivity.
Qed.

Lemma syncFile_eq fullpath info st :
  let key := remoteKeyOf localPath remotePath fullpath in
  let opened := hashed sizeOnly (remoteFiles st) fullpath key in
  syncFile w localPath remotePath concurrency sizeOnly fullpath info st =
  match needs w sizeOnly (remoteFiles st) fullpath (fi_Size info) key with
  | inl err => (st, opened, Returned (WErr err))
  | inr true =>
      if (concurrency =? 0)%Z then (incr_uploadCount st, opened, Blocked)
      else (delete_remoteFile key (incr_uploadCount st),
            opened ++ [EvGo (UploadTask fullpath key)], Returned WNil)
  | inr false => (delete_remoteFile key st, opened, Returned WNil)
  end.
Proof.
  intros key opened. unfold syncFile. fold key.
  unfold bind at 1. rewrite needUpload_eq. fold opened.
  destruct (needs _ _ _ _ _ _) as [err|[|]]; simpl.
  - rewrite app_nil_r. reflexivity.
  - unfold spawn. destruct (concurrency =? 0)%Z; simpl.
    + rewrite app_nil_r. reflexivity.
    + reflexivity.
  - rewrite app_nil_r. reflexivity.
Qed.
End DiffStep.

(** ** The diff classification *)

Lemma uploads_app tr1 tr2 : uploads (tr1 ++ tr2) = uploads tr1 ++ uploads tr2.
Proof. unfold uploads. apply omap_app. Qed.

Lemma uploads_hashed sizeOnly inventory fullpath key :
  uploads (hashed sizeOnly inventory fullpath key) = [].
Proof.
  unfold hashed. destruct (inventory !! key); [|reflexivity].
  destruct sizeOnly; reflexivity.
Qed.

(** C5, as the code has it. For a file that passed the filters, with
    [key] its remote key: when the key is not in the inventory the file is
    uploaded; when it is and size-only mode is on, the file is uploaded
    exactly when the sizes differ; in full mode the fingerprint of the
    local file is computed first, whatever the sizes: if that fails the
    file gets no decision and the callback returns the error with the
    inventory untouched, otherwise the file is uploaded exactly when the
    sizes or the fingerprints differ. Whenever the callback returns nil
    the file was either uploaded or skipped. *)
Theorem diff_classification
    (w : World) (localPath remotePath : string) (recursive : bool)
    (concurrency : Z) (sizeOnly : bool) (excludePatterns : list string)
    (path : string) (size : Z) (st : SyncVars)
    (fullpath key : string) (res : SyncVars * list event * outcome WalkResult) :
  passes localPath recursive excludePatterns path = true ->
  (0 < concurrency)%Z ->
  fullpath = normalizePath path ->
  key = remoteKeyOf localPath remotePath fullpath ->
  res = walkFn w localPath remotePath recursive concurrency sizeOnly
          excludePatterns path (Some (mkInfo false size)) None st ->
  (remoteFiles st !! key = None ->
     uploads (trace_of res) = [(fullpath, key)])
  /\ (forall remoteInfo,
        remoteFiles st !! key = Some remoteInfo -> sizeOnly = true ->
        (uploads (trace_of res) = [(fullpath, key)] <-> size <> Size remoteInfo))
  /\ (forall remoteInfo etag,
        remoteFiles st !! key = Some remoteInfo -> sizeOnly = false ->
        fingerprint w fullpath = inr etag ->
        (uploads (trace_of res) = [(fullpath, key)] <->
         size <> Size remoteInfo \/ etag <> ETag remoteInfo))
  /\ (forall remoteInfo err,
        remoteFiles st !! key = Some remoteInfo -> sizeOnly = false ->
        fingerprint w fullpath = inl err ->
        uploads (trace_of res) = [] /\ out_of res = Returned (WErr err)
        /\ state_of res = st)
  /\ (out_of res = Returned WNil ->
        uploads (trace_of res) = [(fullpath, key)] \/ uploads (trace_of res) = []).
Proof.
  intros Hpass Hconc -> -> ->.
  rewrite walkFn_file, Hpass, syncFile_eq.
  assert ((concurrency =? 0)%Z = false) as Hc by (apply Z.eqb_neq; lia).
  set (fullpath := normalizePath path).
  set (key := remoteKeyOf localPath remotePath fullpath).
  pose proof (uploads_hashed sizeOnly (remoteFiles st) fullpath key) as Hopened.
  set (opened := hashed sizeOnly (remoteFiles st) fullpath key) in *.
  clearbody opened.
  unfold needs. rewrite Hc. cbn [fi_Size].
  destruct (remoteFiles st !! key) as [remoteInfo|] eqn:Hlook.
  - destruct sizeOnly.
    + destruct (size =? Size remoteInfo)%Z eqn:Hsize;
        cbn [negb]; unfold trace_of, out_of; cbn [fst snd];
        rewrite ?uploads_app, Hopened;
        (apply Z.eqb_eq in Hsize || apply Z.eqb_neq in Hsize);
        (split; [discriminate|]); (split; [|split; [discriminate|]]).
      * intros remoteInfo' ? _; simplify_eq. split; [discriminate|congruence].
      * split; [intros; discriminate|auto].
      * intros remoteInfo' ? _; simplify_eq. split; [auto|reflexivity].
      * split; [intros; discriminate|auto].
    + destruct (fingerprint w fullpath) as [err|etag] eqn:Hfp.
      * unfold trace_of, out_of, state_of; cbn [fst snd]. rewrite Hopened.
        split; [discriminate|]. split; [discriminate|].
        split; [discriminate|]. split; [|discriminate].
        intros remoteInfo' err' ? _ ?; simplify_eq. auto.
      * destruct (size =? Size remoteInfo)%Z eqn:Hsize;
          destruct (String.eqb etag (ETag remoteInfo)) eqn:Hetag;
          cbn [negb orb]; unfold trace_of, out_of; cbn [fst snd];
          rewrite ?uploads_app, Hopened; simpl;
          (apply Z.eqb_eq in Hsize || apply Z.eqb_neq in Hsize);
          (apply String.eqb_eq in Hetag || apply String.eqb_neq in Hetag);
          (split; [discriminate|]); (split; [discriminate|]);
          (split; [|split; [discriminate|auto]]);
          intros remoteInfo' etag' ? _ ?; simplify_eq;
          (split;
           [intros Hu;
            first [discriminate Hu | left; congruence | right; congruence]
           |intros Hd; first [reflexivity | destruct Hd; congruence]]).
  - unfold trace_of, out_of; cbn [fst snd]. rewrite uploads_app, Hopened.
    split; [reflexivity|]. split; [discriminate|]. split; [discriminate|].
    split; [discriminate|]. auto.
Qed.

Lemma diff_classification_witness :
  passes "/d" true [] "/d/a.txt" = true /\ (0 < 5)%Z /\
  uploads (trace_of
    (walkFn (Scenario.world [] []) "/d" "p" true 5 false []
       "/d/a.txt" (Some (mkInfo false 7)) None zeroVars))
  = [("/d/a.txt", "p/a.txt")].
Proof.
  split; [vm_compute; reflexivity|]. split; [lia|].
  refine (proj1 (diff_classification (Scenario.world [] []) "/d" "p" true 5
                   false [] "/d/a.txt" 7 zeroVars "/d/a.txt" "p/a.txt" _
                   _ _ _ _ eq_refl) _).
  - vm_compute; reflexivity.
  - lia.
  - vm_compute; reflexivity.
  - vm_compute; reflexivity.
  - reflexivity.
Defined.

(** C5 as stated fails where the local file cannot be read: the key is in
    the inventory, full mode is on and the sizes differ (7 against 1), so
    the claim asks for an upload; the callback returns the error of
    [calcETag] and starts no upload. *)
Lemma diff_classification_unreadable :
  remoteFiles (Scenario.inventory Scenario.unreadable_objs) !! "p/a.txt"
    = Some (mkFileInfo "p/a.txt" 1 0 Scenario.etag_x)
  /\ 7%Z <> 1%Z
  /\ uploads (trace_of
       (walkFn Scenario.unreadable_world "/d" "p" true 5 false []
          "/d/a.txt" (Some (mkInfo false 7)) None
          (Scenario.inventory Scenario.unreadable_objs))) = []
  /\ out_of
       (walkFn Scenario.unreadable_world "/d" "p" true 5 false []
          "/d/a.txt" (Some (mkInfo false 7)) None
          (Scenario.inventory Scenario.unreadable_objs))
     = Returned (WErr "open /d/a.txt: permission denied").
Proof.
  split; [vm_compute; reflexivity|]. split; [lia|].
  split; vm_compute; reflexivity.
Qed.

(** ** The shape of a run of [Sync] *)

Lemma listPages_eq {S} r pfx pages result (st : S) :
  listPages r pfx pages result st =
  (st, replicate (listCalls pages) (EvListObjectsV2 (bucket r) pfx),
   Returned (listResult pages result)).
Proof.
  revert result. induction pages as [contents|contents token next IH|err];
    intros result; cbn [listPages listResult listCalls replicate].
  - reflexivity.
  - unfold bind at 1. unfold emit at 1. rewrite IH. reflexivity.
  - reflexivity.
Qed.

Lemma forEach_spawn_delete concurrency keys st :
  (concurrency =? 0)%Z = false ->
  forEach keys (fun remoteKey =>
    modify incr_deleteCount ;;; spawn concurrency (DeleteTask remoteKey)) st =
  (Nat.iter (length keys) incr_deleteCount st,
   map (fun k => EvGo (DeleteTask k)) keys, Returned tt).
Proof.
  intros Hc. revert st. induction keys as [|k keys IH]; intros st.
  - reflexivity.
  - cbn [forEach]. unfold bind at 1. unfold bind at 1.
    unfold modify at 1. unfold spawn at 1. rewrite Hc. unfold emit at 1.
    rewrite IH. cbn [length map app]. rewrite Nat.iter_succ_r. reflexivity.
Qed.

Lemma forEach_spawn_blocked keys st :
  keys <> [] ->
  forEach keys (fun remoteKey =>
    modify incr_deleteCount ;;; spawn 0 (DeleteTask remoteKey)) st =
  (incr_deleteCount st, [], Blocked).
Proof. destruct keys as [|k keys]; [congruence|reflexivity]. Qed.

Lemma map_to_list_nonempty (m : gmap string FileInfo) :
  (0 <? size m)%nat = true -> (map_to_list m).*1 <> [].
Proof.
  intros Hsize Hnil. apply Nat.ltb_lt in Hsize.
  unfold size, map_size in Hsize.
  apply fmap_nil_inv in Hnil. apply map_to_list_empty_iff in Hnil.
  subst m. rewrite map_fold_empty in Hsize. lia.
Qed.

Lemma deletePhase_eq deleteSync concurrency st :
  deletePhase deleteSync concurrency st =
  if deleteSync && (0 <? size (remoteFiles st))%nat then
    let keys := (map_to_list (remoteFiles st)).*1 in
    if (concurrency =? 0)%Z then
      (incr_deleteCount st, [EvLog LogStartingDeletion], Blocked)
    else
      let st' := Nat.iter (length keys) incr_deleteCount st in
      (st',
       EvLog LogStartingDeletion :: map (fun k => EvGo (DeleteTask k)) keys
         ++ [EvWait; EvLog (LogFilesDeleted (deleteCount st'))],
       Returned tt)
  else (st, [], Returned tt).
Proof.
  unfold deletePhase. unfold bind at 1. unfold get at 1.
  destruct (deleteSync && (0 <? size (remoteFiles st))%nat) eqn:Hdel;
    [|reflexivity].
  apply andb_true_iff in Hdel as [_ Hsize].
  destruct (concurrency =? 0)%Z eqn:Hc.
  - apply Z.eqb_eq in Hc. subst concurrency.
    unfold bind at 1. unfold log at 1, emit at 1.
    unfold bind at 1.
    rewrite forEach_spawn_blocked by (apply map_to_list_nonempty; exact Hsize).
    reflexivity.
  - unfold bind at 1. unfold log at 1, emit at 1.
    unfold bind at 1. rewrite forEach_spawn_delete by exact Hc.
    reflexivity.
Qed.

Lemma Sync_eq w r localPath remotePath deleteSync recursive concurrency
    sizeOnly excludePatterns tree st :
  let pages := s3_ListObjectsV2 w (bucket r) remotePath in
  let ev0 := syncPrefix r remotePath pages in
  Sync w r localPath remotePath deleteSync recursive concurrency sizeOnly
    excludePatterns tree st =
  match listResult pages ∅ with
  | inl err =>
      (st, ev0, Returned (Some ("failed to get remote file list: " +:+ err)))
  | inr listed =>
      let st1 := set_remoteFiles listed st in
      if (concurrency <? 0)%Z then
        (st1, ev0, Panicked "makechan: size out of range")
      else
        match diffAll w localPath remotePath concurrency sizeOnly
                (visits localPath recursive excludePatterns localPath tree) st1 with
        | (st2, evW, Returned (WErr err)) =>
            (st2, ev0 ++ EvMakeChan concurrency :: evW,
             Returned (Some ("upload failed: " +:+ err)))
        | (st2, evW, Returned _) =>
            let evU := [EvWait; EvLog (LogFilesUploaded (uploadCount st2))] in
            match deletePhase deleteSync concurrency st2 with
            | (st3, evD, Returned _) =>
                (st3,
                 ev0 ++ EvMakeChan concurrency :: evW ++ evU ++ evD
                   ++ [EvLog LogSyncCompleted],
                 Returned None)
            | (st3, evD, Panicked msg) =>
                (st3, ev0 ++ EvMakeChan concurrency :: evW ++ evU ++ evD,
                 Panicked msg)
            | (st3, evD, Blocked) =>
                (st3, ev0 ++ EvMakeChan concurrency :: evW ++ evU ++ evD,
                 Blocked)
            end
        | (st2, evW, Panicked msg) =>
            (st2, ev0 ++ EvMakeChan concurrency :: evW, Panicked msg)
        | (st2, evW, Blocked) =>
            (st2, ev0 ++ EvMakeChan concurrency :: evW, Blocked)
        end
  end.
Proof.
  intros pages ev0. unfold Sync, ListObjects, makeChan.
  unfold bind, log, emit, modify, get, panic, ret.
  rewrite listPages_eq. fold pages.
  destruct (listResult pages ∅) as [err|listed].
  { unfold ev0, syncPrefix. cbn [app]. rewrite app_nil_r. reflexivity. }
  destruct (concurrency <? 0)%Z.
  { unfold ev0, syncPrefix. cbn [app]. rewrite app_nil_r. reflexivity. }
  rewrite Walk_visits. unfold bind, ret.
  destruct (diffAll _ _ _ _ _ _ _) as [[st2 evW] [[| |err]|msg|]];
    cbn [toError];
    try destruct (deletePhase deleteSync concurrency st2)
      as [[st3 evD] [[]|msg|]];
    unfold ev0, syncPrefix; cbn [app];
    rewrite ?app_nil_r, <- ?app_assoc; reflexivity.
Qed.

(** ** The diff step over the visits *)

Section DiffAll.
Variable w : World.
Variables localPath remotePath : string.
Variable concurrency : Z.
Variable sizeOnly : bool.

Local Abbreviation diff := (diffAll w localPath remotePath concurrency sizeOnly).
Local Abbreviation keyOf := (remoteKeyOf localPath remotePath).

Lemma diffAll_cons fullpath size rest st :
  diff (inr (fullpath, size) :: rest) st =
  let key := keyOf fullpath in
  let opened := hashed sizeOnly (remoteFiles st) fullpath key in
  match needs w sizeOnly (remoteFiles st) fullpath size key with
  | inl err => (st, opened, Returned (WErr err))
  | inr true =>
      if (concurrency =? 0)%Z then (incr_uploadCount st, opened, Blocked)
      else
        let next := diff rest (delete_remoteFile key (incr_uploadCount st)) in
        (state_of next,
         (opened ++ [EvGo (UploadTask fullpath key)]) ++ trace_of next,
         out_of next)
  | inr false =>
      let next := diff rest (delete_remoteFile key st) in
      (state_of next, opened ++ trace_of next, out_of next)
  end.
Proof.
  cbn [diffAll]. unfold bind. rewrite syncFile_eq. cbn [fi_Size].
  destruct (needs _ _ _ _ _ _) as [err|[|]].
  - unfold ret. rewrite app_nil_r. reflexivity.
  - destruct (concurrency =? 0)%Z; [reflexivity|].
    destruct (diff rest _) as [[st2 ev2] o]. reflexivity.
  - destruct (diff rest _) as [[st2 ev2] o]. reflexivity.
Qed.

Lemma hashed_walk_events inventory fullpath key :
  forallb is_walk_event (hashed sizeOnly inventory fullpath key) = true.
Proof.
  unfold hashed. destruct (inventory !! key); [|reflexivity].
  destruct sizeOnly; reflexivity.
Qed.

(** The walk only opens files and starts uploads. *)
Lemma diffAll_walk_events vs : forall st,
  forallb is_walk_event (trace_of (diff vs st)) = true.
Proof.
  induction vs as [|[err|[fullpath size]] vs IH]; intros st.
  - reflexivity.
  - reflexivity.
  - rewrite diffAll_cons. cbv zeta.
    pose proof (hashed_walk_events (remoteFiles st) fullpath (keyOf fullpath)) as Hh.
    destruct (needs _ _ _ _ _ _) as [err|[|]]; unfold trace_of; cbn [fst snd].
    + exact Hh.
    + destruct (concurrency =? 0)%Z; cbn [fst snd]; [exact Hh|].
      rewrite !forallb_app, Hh. cbn [forallb is_walk_event andb]. apply IH.
    + rewrite forallb_app, Hh. apply IH.
Qed.

Lemma hashed_failure inventory fullpath key size p err :
  EvOpen p ∈ hashed sizeOnly inventory fullpath key ->
  fingerprint w p = inl err ->
  hashed sizeOnly inventory fullpath key = [EvOpen p]
  /\ needs w sizeOnly inventory fullpath size key = inl err.
Proof.
  unfold hashed, needs. intros Hin Hfp.
  destruct (inventory !! key); [|by apply elem_of_nil in Hin].
  destruct sizeOnly; [by apply elem_of_nil in Hin|].
  apply list_elem_of_singleton in Hin. injection Hin as ->.
  rewrite Hfp. auto.
Qed.

Lemma last_app_nonempty {A} (l1 l2 : list A) x :
  last l2 = Some x -> last (l1 ++ l2) = Some x.
Proof.
  intros Hlast. destruct l2 as [|y l2]; [discriminate|].
  rewrite last_app. rewrite Hlast. reflexivity.
Qed.

(** A fingerprint that fails is the last thing the walk does, and its
    error is what the walk returns. *)
Lemma diffAll_failure vs : forall st p err,
  EvOpen p ∈ trace_of (diff vs st) ->
  fingerprint w p = inl err ->
  out_of (diff vs st) = Returned (WErr err)
  /\ last (trace_of (diff vs st)) = Some (EvOpen p).
Proof.
  induction vs as [|[e|[fullpath size]] vs IH]; intros st p err Hin Hfp.
  - by apply elem_of_nil in Hin.
  - by apply elem_of_nil in Hin.
  - rewrite diffAll_cons in *. cbv zeta in *.
    pose proof (hashed_failure (remoteFiles st) fullpath (keyOf fullpath)
                  size p err) as Hh.
    destruct (needs _ _ _ _ _ _) as [e|[|]] eqn:Hneeds;
      unfold trace_of, out_of in *; cbn [fst snd] in *.
    + destruct (Hh Hin Hfp) as [-> Herr]. split; [congruence|reflexivity].
    + destruct (concurrency =? 0)%Z; cbn [fst snd] in *.
      * destruct (Hh Hin Hfp) as [_ Herr]. congruence.
      * rewrite !elem_of_app in Hin. destruct Hin as [[Hin|Hin]|Hin].
        -- destruct (Hh Hin Hfp) as [_ Herr]. congruence.
        -- apply list_elem_of_singleton in Hin. discriminate.
        -- destruct (IH _ _ _ Hin Hfp) as [Hout Hlast].
           split; [exact Hout|]. apply last_app_nonempty. exact Hlast.
    + rewrite elem_of_app in Hin. destruct Hin as [Hin|Hin].
      * destruct (Hh Hin Hfp) as [_ Herr]. congruence.
      * destruct (IH _ _ _ Hin Hfp) as [Hout Hlast].
        split; [exact Hout|]. apply last_app_nonempty. exact Hlast.
Qed.

(** When the walk ends without error, every file it visited has been
    claimed from the inventory. *)
Lemma diffAll_claims vs : forall st res,
  out_of (diff vs st) = Returned res ->
  (forall err, res <> WErr err) ->
  remoteFiles (state_of (diff vs st)) =
  foldl (fun m k => delete k m) (remoteFiles st)
    (claimed localPath remotePath (filesOf vs)).
Proof.
  induction vs as [|[e|[fullpath size]] vs IH]; intros st res Hout Herr.
  - reflexivity.
  - cbn in Hout. injection Hout as <-. by destruct (Herr e).
  - rewrite diffAll_cons in *. cbv zeta in *.
    cbn [filesOf omap claimed map foldl fst] in *.
    destruct (needs _ _ _ _ _ _) as [e|[|]];
      unfold state_of, out_of in *; cbn [fst snd] in *.
    + injection Hout as <-. by destruct (Herr e).
    + destruct (concurrency =? 0)%Z; cbn [fst snd] in *; [discriminate|].
      rewrite (IH _ _ Hout Herr). reflexivity.
    + rewrite (IH _ _ Hout Herr). reflexivity.
Qed.

(** Every upload the walk starts is for one of the files it visited. *)
Lemma diffAll_uploads vs : forall st l k,
  (l, k) ∈ uploads (trace_of (diff vs st)) ->
  k = keyOf l /\ exists size, inr (l, size) ∈ vs.
Proof.
  induction vs as [|[e|[fullpath size]] vs IH]; intros st l k Hin.
  - by apply elem_of_nil in Hin.
  - by apply elem_of_nil in Hin.
  - rewrite diffAll_cons in Hin. cbv zeta in Hin.
    assert (forall st', (l, k) ∈ uploads (trace_of (diff vs st')) ->
              k = keyOf l /\ exists size', inr (l, size') ∈ inr (fullpath, size) :: vs)
      as Hrest.
    { intros st' Hin'. destruct (IH _ _ _ Hin') as (Hk & size' & Hvs).
      split; [exact Hk|]. exists size'. apply elem_of_cons. by right. }
    destruct (needs _ _ _ _ _ _) as [e|[|]];
      unfold trace_of in *; cbn [fst snd] in *.
    + rewrite uploads_hashed in Hin. by apply elem_of_nil in Hin.
    + destruct (concurrency =? 0)%Z; cbn [fst snd] in *.
      * rewrite uploads_hashed in Hin. by apply elem_of_nil in Hin.
      * rewrite !uploads_app, uploads_hashed in Hin. cbn in Hin.
        apply elem_of_cons in Hin as [Heq|Hin]; [|by eapply Hrest].
        injection Heq as -> ->. split; [reflexivity|].
        exists size. apply elem_of_cons. by left.
    + rewrite uploads_app, uploads_hashed in Hin. by eapply Hrest.
Qed.
End DiffAll.

(** In size-only mode the diff step does not look at the world. *)
Lemma diffAll_size_only w1 w2 localPath remotePath concurrency vs : forall st,
  diffAll w1 localPath remotePath concurrency true vs st =
  diffAll w2 localPath remotePath concurrency true vs st.
Proof.
  induction vs as [|[e|[fullpath size]] vs IH]; intros st.
  - reflexivity.
  - reflexivity.
  - rewrite !diffAll_cons. cbv zeta.
    assert (forall inventory key,
      needs w1 true inventory fullpath size key =
      needs w2 true inventory fullpath size key) as ->.
    { intros inventory key. unfold needs.
      destruct (inventory !! key); reflexivity. }
    destruct (needs _ _ _ _ _ _) as [e|[|]]; rewrite ?IH; reflexivity.
Qed.

Lemma diffAll_size_only_no_open w localPath remotePath concurrency vs : forall st,
  forallb (fun e => negb (is_open e))
    (trace_of (diffAll w localPath remotePath concurrency true vs st)) = true.
Proof.
  induction vs as [|[e|[fullpath size]] vs IH]; intros st.
  - reflexivity.
  - reflexivity.
  - rewrite diffAll_cons. cbv zeta.
    assert (hashed true (remoteFiles st) fullpath
              (remoteKeyOf localPath remotePath fullpath) = []) as ->.
    { unfold hashed. destruct (_ !! _); reflexivity. }
    destruct (needs _ _ _ _ _ _) as [e|[|]]; unfold trace_of; cbn [fst snd].
    + reflexivity.
    + destruct (concurrency =? 0)%Z; cbn [fst snd]; [reflexivity|].
      cbn [app forallb is_open negb andb]. apply IH.
    + apply IH.
Qed.

(** ** Traces *)

Lemma forallb_elem {A} (f : A -> bool) (l : list A) x :
  forallb f l = true -> x ∈ l -> f x = true.
Proof.
  intros Hall Hin. rewrite forallb_forall in Hall.
  apply Hall, list_elem_of_In, Hin.
Qed.

Lemma deletes_app tr1 tr2 : deletes (tr1 ++ tr2) = deletes tr1 ++ deletes tr2.
Proof. unfold deletes. apply omap_app. Qed.

Lemma deletes_walk_events tr :
  forallb is_walk_event tr = true -> deletes tr = [].
Proof.
  induction tr as [|e tr IH]; [reflexivity|].
  cbn [forallb]. intros [He Htr]%andb_true_iff.
  destruct e as [| | | | |[]| | |]; try discriminate; cbn; auto.
Qed.

Lemma deletes_prefix r remotePath pages : deletes (syncPrefix r remotePath pages) = [].
Proof.
  unfold syncPrefix. cbn. induction (listCalls pages); [reflexivity|].
  cbn. assumption.
Qed.

Lemma uploads_prefix r remotePath pages : uploads (syncPrefix r remotePath pages) = [].
Proof.
  unfold syncPrefix. cbn. induction (listCalls pages); [reflexivity|].
  cbn. assumption.
Qed.

Lemma prefix_events r remotePath pages e :
  e ∈ syncPrefix r remotePath pages ->
  e = EvLog (LogGettingRemote remotePath)
  \/ e = EvListObjectsV2 (bucket r) remotePath.
Proof.
  unfold syncPrefix. intros [->|Hin]%elem_of_cons; [by left|right].
  by apply elem_of_replicate in Hin as [-> _].
Qed.

Lemma deletes_spawned keys :
  deletes (map (fun k => EvGo (DeleteTask k)) keys) = keys.
Proof.
  induction keys as [|k keys IH]; [reflexivity|].
  unfold deletes in *. cbn. f_equal. exact IH.
Qed.

Lemma uploads_spawned_deletes keys :
  uploads (map (fun k => EvGo (DeleteTask k)) keys) = [].
Proof.
  induction keys as [|k keys IH]; [reflexivity|].
  unfold uploads in *. cbn. exact IH.
Qed.

Lemma iter_incr_deleteCount n st :
  remoteFiles (Nat.iter n incr_deleteCount st) = remoteFiles st.
Proof. induction n as [|n IH]; [reflexivity|]. cbn. exact IH. Qed.

(** The delete phase opens no file, and starts a delete for every key of
    the inventory it finds when it is enabled and returns. *)
Lemma deletePhase_no_open deleteSync concurrency st p :
  EvOpen p ∉ trace_of (deletePhase deleteSync concurrency st).
Proof.
  rewrite deletePhase_eq.
  destruct (deleteSync && _); [|by intros ?%elem_of_nil].
  cbv zeta. destruct (concurrency =? 0)%Z; unfold trace_of; cbn [fst snd].
  - intros [?|?%elem_of_nil]%elem_of_cons; [discriminate|done].
  - intros [?|[Hin|Hin]%elem_of_app]%elem_of_cons; [discriminate| |].
    + apply list_elem_of_fmap in Hin as (k & ? & _). discriminate.
    + apply elem_of_cons in Hin as [?|[?|?%elem_of_nil]%elem_of_cons];
        [discriminate|discriminate|done].
Qed.

Lemma deletePhase_returned deleteSync concurrency st u :
  out_of (deletePhase deleteSync concurrency st) = Returned u ->
  remoteFiles (state_of (deletePhase deleteSync concurrency st)) = remoteFiles st
  /\ deletes (trace_of (deletePhase deleteSync concurrency st)) =
     (if deleteSync then (map_to_list (remoteFiles st)).*1 else []).
Proof.
  rewrite deletePhase_eq.
  destruct deleteSync; cbn [andb]; [|auto].
  destruct (0 <? size (remoteFiles st))%nat eqn:Hsize.
  - cbv zeta. destruct (concurrency =? 0)%Z;
      unfold out_of, state_of, trace_of; cbn [fst snd]; [discriminate|].
    intros _. split; [apply iter_incr_deleteCount|].
    change (deletes (EvLog LogStartingDeletion :: ?tr)) with (deletes tr).
    rewrite deletes_app, deletes_spawned. apply app_nil_r.
  - intros _. split; [reflexivity|].
    apply Nat.ltb_ge in Hsize. unfold trace_of; cbn [fst snd].
    assert (remoteFiles st = ∅) as ->.
    { apply map_size_empty_iff. lia. }
    rewrite map_to_list_empty. reflexivity.
Qed.

(** ** C1: a fingerprint failure *)

(** C1, as the code has it. A fingerprint computation that fails during
    the walk ends the run: the error comes back from [Sync] wrapped as
    [upload failed: ...], the failed open is the last thing the run does
    (no later file is examined), the uploads already started are not
    waited for, and no delete is started. *)
Theorem fingerprint_failure_stops_sync
    (w : World) (r : R2Client) (localPath remotePath : string)
    (deleteSync recursive : bool) (concurrency : Z) (sizeOnly : bool)
    (excludePatterns : list string) (tree : node) (p : string) (err : error)
    (run : SyncVars * list event * outcome (option error)) :
  run = Sync w r localPath remotePath deleteSync recursive concurrency
          sizeOnly excludePatterns tree zeroVars ->
  EvOpen p ∈ trace_of run ->
  fingerprint w p = inl err ->
  out_of run = Returned (Some ("upload failed: " +:+ err))
  /\ last (trace_of run) = Some (EvOpen p)
  /\ (EvWait ∉ trace_of run)
  /\ deletes (trace_of run) = [].
Proof.
  intros -> Hin Hfp. rewrite Sync_eq in *. cbv zeta in *.
  set (pages := s3_ListObjectsV2 w (bucket r) remotePath) in *.
  destruct (listResult pages ∅) as [e|listed].
  { apply prefix_events in Hin as [?|?]; discriminate. }
  destruct (concurrency <? 0)%Z.
  { apply prefix_events in Hin as [?|?]; discriminate. }
  pose proof (diffAll_failure w localPath remotePath concurrency sizeOnly
                (visits localPath recursive excludePatterns localPath tree)
                (set_remoteFiles listed zeroVars) p err) as Hfail.
  pose proof (diffAll_walk_events w localPath remotePath concurrency sizeOnly
                (visits localPath recursive excludePatterns localPath tree)
                (set_remoteFiles listed zeroVars)) as Hwalk.
  destruct (diffAll _ _ _ _ _ _ _) as [[st2 evW] oW].
  unfold trace_of, out_of in Hfail, Hwalk; cbn [fst snd] in Hfail, Hwalk.
  assert (EvOpen p ∈ evW) as HinW.
  { destruct oW as [[| |e]|msg|];
      try pose proof (deletePhase_no_open deleteSync concurrency st2 p) as Hno;
      try destruct (deletePhase deleteSync concurrency st2)
        as [[st3 evD] [[]|msg|]];
      unfold trace_of in *; cbn [fst snd] in *;
      rewrite ?elem_of_app, ?elem_of_cons, ?elem_of_app in Hin;
      repeat match goal with
      | H : _ \/ _ |- _ => destruct H as [H|H]
      | H : _ ∈ syncPrefix _ _ _ |- _ => apply prefix_events in H
      | H : _ ∈ [] |- _ => by apply elem_of_nil in H
      | H : _ ∈ _ :: _ |- _ => rewrite elem_of_cons in H
      end; try discriminate; try done. }
  destruct (Hfail HinW Hfp) as [-> Hlast].
  unfold trace_of, out_of; cbn [fst snd].
  split; [reflexivity|]. split; [|split].
  - change (EvMakeChan concurrency :: evW) with ([EvMakeChan concurrency] ++ evW).
    rewrite app_assoc. apply last_app_nonempty. exact Hlast.
  - intros [[?|?]%prefix_events|[?|Hw]%elem_of_cons]%elem_of_app;
      try discriminate.
    apply (forallb_elem _ _ _ Hwalk) in Hw. discriminate.
  - rewrite deletes_app, deletes_prefix. cbn.
    apply deletes_walk_events. exact Hwalk.
Qed.

Lemma fingerprint_failure_stops_sync_witness :
  EvOpen "/d/a.txt" ∈ trace_of Scenario.failing_run
  /\ fingerprint Scenario.failing_world "/d/a.txt"
     = inl "open /d/a.txt: permission denied"
  /\ out_of Scenario.failing_run
     = Returned (Some "upload failed: open /d/a.txt: permission denied").
Proof.
  assert (EvOpen "/d/a.txt" ∈ trace_of Scenario.failing_run) as Hin.
  { apply list_elem_of_In. vm_compute. tauto. }
  assert (fingerprint Scenario.failing_world "/d/a.txt"
          = inl "open /d/a.txt: permission denied") as Hfp.
  { vm_compute. reflexivity. }
  split; [exact Hin|]. split; [exact Hfp|].
  exact (proj1 (fingerprint_failure_stops_sync Scenario.failing_world
                  Scenario.client "/d" "p" true true 5 false []
                  Scenario.failing_tree "/d/a.txt"
                  "open /d/a.txt: permission denied" Scenario.failing_run
                  eq_refl Hin Hfp)).
Defined.

(** C1 as stated fails: the fingerprint of [a.txt] cannot be computed,
    and instead of skipping that file [Sync] returns an error; the later
    candidate [b.txt], which the bucket does not have, is not uploaded,
    and the stale object [old.txt] is not deleted although delete mode
    is on. *)
Lemma fingerprint_failure_aborts :
  fingerprint Scenario.failing_world "/d/a.txt"
    = inl "open /d/a.txt: permission denied"
  /\ candidates "/d" true [] "/d" Scenario.failing_tree
     = [("/d/a.txt", 7%Z); ("/d/b.txt", 1%Z)]
  /\ listResult (s3_ListObjectsV2 Scenario.failing_world "bucket" "p") ∅
     = inr (remoteFiles (Scenario.inventory Scenario.failing_objs))
  /\ remoteFiles (Scenario.inventory Scenario.failing_objs) !! "p/b.txt" = None
  /\ remoteFiles (Scenario.inventory Scenario.failing_objs) !! "p/old.txt"
     = Some (mkFileInfo "p/old.txt" 3 0 Scenario.etag_x)
  /\ out_of Scenario.failing_run
     = Returned (Some "upload failed: open /d/a.txt: permission denied")
  /\ uploads (trace_of Scenario.failing_run) = []
  /\ deletes (trace_of Scenario.failing_run) = [].
Proof.
  repeat split; vm_compute; reflexivity.
Qed.

(** ** C10: size-only mode *)

(** C10. In size-only mode the whole run of [Sync] (the tasks it starts,
    its counters, what is left of the inventory, its result) is the same
    whatever the contents of the local files are and whether or not they
    can be read, and the run never opens a local file: the fingerprint
    calculator is not invoked. *)
Theorem size_only_ignores_contents
    (w : World) (r : R2Client) (localPath remotePath : string)
    (deleteSync recursive : bool) (concurrency : Z)
    (excludePatterns : list string) (tree : node)
    (open : string -> error + OpenFile) (digest : string -> string) :
  Sync (withContents w open digest) r localPath remotePath deleteSync
    recursive concurrency true excludePatterns tree zeroVars
  = Sync w r localPath remotePath deleteSync recursive concurrency true
      excludePatterns tree zeroVars
  /\ forall p,
       EvOpen p ∉ trace_of
         (Sync w r localPath remotePath deleteSync recursive concurrency true
            excludePatterns tree zeroVars).
Proof.
  split.
  - rewrite !Sync_eq. cbv zeta. cbn [withContents s3_ListObjectsV2].
    destruct (listResult _ ∅) as [e|listed]; [reflexivity|].
    destruct (concurrency <? 0)%Z; [reflexivity|].
    rewrite (diffAll_size_only (withContents w open digest) w). reflexivity.
  - intros p Hin. rewrite Sync_eq in Hin. cbv zeta in Hin.
    destruct (listResult _ ∅) as [e|listed].
    { apply prefix_events in Hin as [?|?]; discriminate. }
    destruct (concurrency <? 0)%Z.
    { apply prefix_events in Hin as [?|?]; discriminate. }
    pose proof (diffAll_size_only_no_open w localPath remotePath concurrency
                  (visits localPath recursive excludePatterns localPath tree)
                  (set_remoteFiles listed zeroVars)) as Hno.
    destruct (diffAll _ _ _ _ _ _ _) as [[st2 evW] oW].
    unfold trace_of in Hno; cbn [fst snd] in Hno.
    assert (EvOpen p ∈ evW) as HinW.
    { destruct oW as [[| |e]|msg|];
        try pose proof (deletePhase_no_open deleteSync concurrency st2 p) as Hnd;
        try destruct (deletePhase deleteSync concurrency st2)
          as [[st3 evD] [[]|msg|]];
        unfold trace_of in *; cbn [fst snd] in *;
        rewrite ?elem_of_app, ?elem_of_cons, ?elem_of_app in Hin;
        repeat match goal with
        | H : _ \/ _ |- _ => destruct H as [H|H]
        | H : _ ∈ syncPrefix _ _ _ |- _ => apply prefix_events in H
        | H : _ ∈ [] |- _ => by apply elem_of_nil in H
        | H : _ ∈ _ :: _ |- _ => rewrite elem_of_cons in H
        end; try discriminate; try done. }
    apply (forallb_elem _ _ _ Hno) in HinW. discriminate.
Qed.

(** ** C6: deletes by subtraction *)

Lemma foldl_delete_lookup (ks : list string) : forall (m : gmap string FileInfo) k,
  foldl (fun m k => delete k m) m ks !! k =
  if decide (k ∈ ks) then None else m !! k.
Proof.
  induction ks as [|k' ks IH]; intros m k; cbn [foldl].
  - rewrite decide_False by apply not_elem_of_nil. reflexivity.
  - rewrite IH. destruct (decide (k ∈ ks)) as [Hin|Hnin].
    + rewrite decide_True by (apply elem_of_cons; by right). reflexivity.
    + destruct (decide (k = k')) as [->|Hne].
      * rewrite lookup_delete_eq.
        rewrite decide_True by (apply elem_of_cons; by left). reflexivity.
      * rewrite lookup_delete_ne by congruence.
        rewrite decide_False; [reflexivity|].
        intros [?|?]%elem_of_cons; congruence.
Qed.

Lemma syncFile_claims w localPath remotePath concurrency sizeOnly fullpath info st :
  out_of (syncFile w localPath remotePath concurrency sizeOnly fullpath info st)
    = Returned WNil ->
  remoteFiles
    (state_of (syncFile w localPath remotePath concurrency sizeOnly fullpath info st))
  = delete (remoteKeyOf localPath remotePath fullpath) (remoteFiles st).
Proof.
  rewrite syncFile_eq. cbv zeta.
  destruct (needs _ _ _ _ _ _) as [e|[|]];
    unfold out_of, state_of; cbn [fst snd]; [discriminate| |reflexivity].
  destruct (concurrency =? 0)%Z; cbn [fst snd]; [discriminate|reflexivity].
Qed.

(** What a run of [Sync] that returns nil went through. *)
Lemma Sync_returns_nil w r localPath remotePath deleteSync recursive concurrency
    sizeOnly excludePatterns tree listed :
  listResult (s3_ListObjectsV2 w (bucket r) remotePath) ∅ = inr listed ->
  out_of (Sync w r localPath remotePath deleteSync recursive concurrency
            sizeOnly excludePatterns tree zeroVars) = Returned None ->
  exists st2 evW res,
    diffAll w localPath remotePath concurrency sizeOnly
      (visits localPath recursive excludePatterns localPath tree)
      (set_remoteFiles listed zeroVars) = (st2, evW, Returned res)
    /\ (forall e, res <> WErr e)
    /\ out_of (deletePhase deleteSync concurrency st2) = Returned tt
    /\ Sync w r localPath remotePath deleteSync recursive concurrency
         sizeOnly excludePatterns tree zeroVars
       = (state_of (deletePhase deleteSync concurrency st2),
          syncPrefix r remotePath (s3_ListObjectsV2 w (bucket r) remotePath)
            ++ EvMakeChan concurrency :: evW
            ++ [EvWait; EvLog (LogFilesUploaded (uploadCount st2))]
            ++ trace_of (deletePhase deleteSync concurrency st2)
            ++ [EvLog LogSyncCompleted],
          Returned None).
Proof.
  intros Hlisted. rewrite Sync_eq. cbv zeta. rewrite Hlisted.
  destruct (concurrency <? 0)%Z; [discriminate|].
  destruct (diffAll _ _ _ _ _ _ _) as [[st2 evW] [res|msg|]];
    [|discriminate|discriminate].
  destruct res as [| |e].
  - destruct (deletePhase deleteSync concurrency st2)
      as [[st3 evD] [[]|msg|]] eqn:Hdp; [|discriminate|discriminate].
    intros _. exists st2, evW, WNil. rewrite Hdp.
    repeat split; try reflexivity; discriminate.
  - destruct (deletePhase deleteSync concurrency st2)
      as [[st3 evD] [[]|msg|]] eqn:Hdp; [|discriminate|discriminate].
    intros _. exists st2, evW, WSkipDir. rewrite Hdp.
    repeat split; try reflexivity; discriminate.
  - unfold out_of; cbn [snd]. intros Hout. injection Hout as Hout.
    discriminate.
Qed.

(** When nothing fails the diff step goes through every visit. *)
Lemma diffAll_completes w localPath remotePath concurrency sizeOnly vs :
  (1 <= concurrency)%Z ->
  (forall v, v ∈ vs ->
     exists l size, v = inr (l, size)
       /\ (sizeOnly = true \/ exists etag, fingerprint w l = inr etag)) ->
  forall st,
    out_of (diffAll w localPath remotePath concurrency sizeOnly vs st)
    = Returned WNil.
Proof.
  intros Hc. assert ((concurrency =? 0)%Z = false) as Hz
    by (apply Z.eqb_neq; lia).
  induction vs as [|v vs IH]; intros Hok st; [reflexivity|].
  destruct (Hok v) as (l & size & -> & Hfp); [apply elem_of_cons; by left|].
  assert (forall v, v ∈ vs ->
            exists l size, v = inr (l, size)
              /\ (sizeOnly = true \/ exists etag, fingerprint w l = inr etag))
    as Hrest.
  { intros v' Hin. apply Hok. apply elem_of_cons. by right. }
  rewrite diffAll_cons. cbv zeta. rewrite Hz.
  assert (forall e, needs w sizeOnly (remoteFiles st) l size
                      (remoteKeyOf localPath remotePath l) <> inl e) as Hneeds.
  { intros e. unfold needs. destruct (_ !! _); [|discriminate].
    destruct Hfp as [->|[etag Hetag]]; [discriminate|].
    destruct sizeOnly; [discriminate|]. rewrite Hetag. discriminate. }
  destruct (needs _ _ _ _ _ _) as [e|[|]].
  - by destruct (Hneeds e).
  - change (out_of (?a, ?b, ?c)) with c. apply IH. exact Hrest.
  - change (out_of (?a, ?b, ?c)) with c. apply IH. exact Hrest.
Qed.

(** [Sync] returns nil when the listing succeeds, the gate has a slot,
    every entry of the tree can be examined and every file that has to be
    hashed can be read. *)
Lemma Sync_completes w r localPath remotePath deleteSync recursive concurrency
    sizeOnly excludePatterns tree listed :
  (1 <= concurrency)%Z ->
  listResult (s3_ListObjectsV2 w (bucket r) remotePath) ∅ = inr listed ->
  (forall v, v ∈ visits localPath recursive excludePatterns localPath tree ->
     exists l size, v = inr (l, size)
       /\ (sizeOnly = true \/ exists etag, fingerprint w l = inr etag)) ->
  out_of (Sync w r localPath remotePath deleteSync recursive concurrency
            sizeOnly excludePatterns tree zeroVars) = Returned None.
Proof.
  intros Hc Hlisted Hok. rewrite Sync_eq. cbv zeta. rewrite Hlisted.
  assert ((concurrency <? 0)%Z = false) as -> by (apply Z.ltb_ge; lia).
  pose proof (diffAll_completes w localPath remotePath concurrency sizeOnly
                _ Hc Hok (set_remoteFiles listed zeroVars)) as Hdiff.
  destruct (diffAll _ _ _ _ _ _ _) as [[st2 evW] oW].
  change (out_of (st2, evW, oW)) with oW in Hdiff. subst oW.
  rewrite deletePhase_eq.
  assert ((concurrency =? 0)%Z = false) as -> by (apply Z.eqb_neq; lia).
  destruct (deleteSync && _); reflexivity.
Qed.


(** C6. Every file that the diff step processes removes its key from the
    inventory, whether it is uploaded or skipped. When delete mode is off
    no delete is started, whatever happens. When the listing gives
    [listed] and [Sync] returns nil, the inventory that is left is
    [listed] without the keys of the candidates of the whole walk, and a
    delete is started, once, for exactly the keys of [listed] that no
    candidate claimed, provided delete mode is on. *)
Theorem delete_by_subtraction
    (w : World) (r : R2Client) (localPath remotePath : string)
    (deleteSync recursive : bool) (concurrency : Z) (sizeOnly : bool)
    (excludePatterns : list string) (tree : node)
    (run : SyncVars * list event * outcome (option error)) :
  run = Sync w r localPath remotePath deleteSync recursive concurrency
          sizeOnly excludePatterns tree zeroVars ->
  (forall fullpath info st,
     out_of (syncFile w localPath remotePath concurrency sizeOnly fullpath info st)
       = Returned WNil ->
     remoteFiles
       (state_of (syncFile w localPath remotePath concurrency sizeOnly fullpath info st))
     = delete (remoteKeyOf localPath remotePath fullpath) (remoteFiles st))
  /\ (deleteSync = false -> deletes (trace_of run) = [])
  /\ (forall listed,
        listResult (s3_ListObjectsV2 w (bucket r) remotePath) ∅ = inr listed ->
        out_of run = Returned None ->
        let claims :=
          claimed localPath remotePath
            (candidates localPath recursive excludePatterns localPath tree) in
        remoteFiles (state_of run) = foldl (fun m k => delete k m) listed claims
        /\ NoDup (deletes (trace_of run))
        /\ forall k,
             k ∈ deletes (trace_of run) <->
             deleteSync = true /\ k ∈ dom listed /\ k ∉ claims).
Proof.
  intros ->. split; [|split].
  - intros fullpath info st. apply syncFile_claims.
  - intros ->. rewrite Sync_eq. cbv zeta.
    destruct (listResult _ ∅) as [e|listed]; [apply deletes_prefix|].
    destruct (concurrency <? 0)%Z; [apply deletes_prefix|].
    pose proof (diffAll_walk_events w localPath remotePath concurrency sizeOnly
                  (visits localPath recursive excludePatterns localPath tree)
                  (set_remoteFiles listed zeroVars)) as Hwalk.
    destruct (diffAll _ _ _ _ _ _ _) as [[st2 evW] oW].
    unfold trace_of in Hwalk; cbn [fst snd] in Hwalk.
    apply deletes_walk_events in Hwalk.
    assert (deletePhase false concurrency st2 = (st2, [], Returned tt)) as Hdel.
    { rewrite deletePhase_eq. reflexivity. }
    destruct oW as [[| |e]|msg|]; rewrite ?Hdel; unfold trace_of; cbn [fst snd];
      rewrite ?deletes_app, ?deletes_prefix;
      change (deletes (EvMakeChan concurrency :: ?tr)) with (deletes tr);
      rewrite ?deletes_app, ?Hwalk; reflexivity.
  - intros listed Hlisted Hout claims.
    destruct (Sync_returns_nil _ _ _ _ _ _ _ _ _ _ _ Hlisted Hout)
      as (st2 & evW & res & Hdiff & Hres & Hdel & ->).
    pose proof (diffAll_walk_events w localPath remotePath concurrency sizeOnly
                  (visits localPath recursive excludePatterns localPath tree)
                  (set_remoteFiles listed zeroVars)) as Hwalk.
    pose proof (diffAll_claims w localPath remotePath concurrency sizeOnly
                  (visits localPath recursive excludePatterns localPath tree)
                  (set_remoteFiles listed zeroVars) res) as Hclaims.
    rewrite Hdiff in Hwalk, Hclaims.
    unfold trace_of, out_of, state_of in Hwalk, Hclaims;
      cbn [fst snd] in Hwalk, Hclaims.
    apply deletes_walk_events in Hwalk.
    specialize (Hclaims eq_refl Hres). cbn [set_remoteFiles remoteFiles] in Hclaims.
    destruct (deletePhase_returned _ _ _ _ Hdel) as [Hfinal Hdeletes].
    assert (deletes
              (syncPrefix r remotePath (s3_ListObjectsV2 w (bucket r) remotePath)
                 ++ EvMakeChan concurrency :: evW
                 ++ [EvWait; EvLog (LogFilesUploaded (uploadCount st2))]
                 ++ trace_of (deletePhase deleteSync concurrency st2)
                 ++ [EvLog LogSyncCompleted])
            = if deleteSync then (map_to_list (remoteFiles st2)).*1 else [])
      as Hdel_all.
    { rewrite deletes_app, deletes_prefix.
      change (deletes (EvMakeChan concurrency :: ?tr)) with (deletes tr).
      rewrite deletes_app, Hwalk.
      change (deletes ([EvWait; EvLog ?m] ++ ?tr)) with (deletes tr).
      rewrite deletes_app, Hdeletes. apply app_nil_r. }
    change (trace_of (?a, ?b, ?c)) with b.
    change (state_of (?a, ?b, ?c)) with a.
    rewrite Hdel_all, Hfinal, Hclaims.
    fold (candidates localPath recursive excludePatterns localPath tree).
    fold claims.
    split; [reflexivity|]. split.
    + destruct deleteSync; [apply NoDup_fst_map_to_list|apply NoDup_nil_2].
    + intros k. destruct deleteSync.
      * rewrite list_elem_of_fmap. split.
        -- intros ([k' info] & -> & Hin). apply elem_of_map_to_list in Hin.
           rewrite foldl_delete_lookup in Hin. cbn [fst].
           case_decide; [discriminate|].
           split; [reflexivity|]. split; [|assumption].
           apply elem_of_dom. eauto.
        -- intros (_ & [info Hinfo]%elem_of_dom & Hnin).
           exists (k, info). split; [reflexivity|].
           apply elem_of_map_to_list. rewrite foldl_delete_lookup.
           rewrite decide_False by assumption. exact Hinfo.
      * split; [by intros ?%elem_of_nil|by intros [? _]].
Qed.

Lemma delete_by_subtraction_witness :
  listResult (s3_ListObjectsV2 Scenario.stale_world "bucket" "p") ∅
    = inr (remoteFiles (Scenario.inventory Scenario.stale_objs))
  /\ out_of Scenario.stale_run = Returned None
  /\ "p/old.txt" ∈ deletes (trace_of Scenario.stale_run).
Proof.
  assert (listResult (s3_ListObjectsV2 Scenario.stale_world "bucket" "p") ∅
          = inr (remoteFiles (Scenario.inventory Scenario.stale_objs))) as Hlisted.
  { vm_compute. reflexivity. }
  assert (out_of Scenario.stale_run = Returned None) as Hout.
  { vm_compute. reflexivity. }
  split; [exact Hlisted|]. split; [exact Hout|].
  pose proof (delete_by_subtraction Scenario.stale_world Scenario.client
                "/d" "p" true true 5 true [] Scenario.stale_tree
                Scenario.stale_run eq_refl) as (_ & _ & Hsub).
  destruct (Hsub _ Hlisted Hout) as (_ & _ & Hdeletes).
  apply Hdeletes. split; [reflexivity|]. split.
  - apply elem_of_dom. vm_compute. eauto.
  - refine (bool_decide_unpack _ _). vm_compute. exact I.
Defined.

(** ** C2: excluded directories *)

Lemma flat_map_insert {A B} (f : A -> list B) (l : list A) i x y :
  l !! i = Some x -> f y = f x -> flat_map f (<[i := y]> l) = flat_map f l.
Proof.
  revert i. induction l as [|a l IH]; intros [|i] Hx Hf; try discriminate.
  - cbn in Hx. injection Hx as ->. simpl. rewrite Hf. reflexivity.
  - simpl. f_equal. exact (IH i Hx Hf).
Qed.

(** What is below an excluded directory does not reach the diff step. *)
Lemma visits_replace_at localPath recursive excludePatterns pos :
  forall path n dir entries entries',
    locate path n pos = Some (dir, Dir entries) ->
    shouldExclude (normalizePath dir) excludePatterns = true ->
    visits localPath recursive excludePatterns path
      (replace_at n pos (Dir entries'))
    = visits localPath recursive excludePatterns path n.
Proof.
  induction pos as [|i pos IH]; intros path n dir entries entries' Hloc Hexcl.
  - cbn in Hloc. injection Hloc as -> ->. cbn [replace_at visits].
    unfold passes. rewrite Hexcl. reflexivity.
  - cbn [locate] in Hloc. destruct n as [size|es|e|e]; try discriminate.
    cbn [replace_at].
    destruct (es !! i) as [[name child]|] eqn:Hi; [|discriminate].
    cbn [visits]. destruct (passes _ _ _ _); [|reflexivity].
    apply (flat_map_insert _ _ _ _ _ Hi). cbn [fst snd].
    eapply IH; eassumption.
Qed.

Lemma visits_not_excluded localPath recursive excludePatterns n :
  forall path l size,
    inr (l, size) ∈ visits localPath recursive excludePatterns path n ->
    shouldExclude l excludePatterns = false.
Proof.
  induction n as [sz|entries IH|e|e] using node_nested_ind;
    intros path l size Hin; cbn [visits] in Hin.
  - destruct (passes _ _ _ _) eqn:Hpass; [|by apply elem_of_nil in Hin].
    apply list_elem_of_singleton in Hin. injection Hin as -> ->.
    unfold passes in Hpass. apply andb_true_iff in Hpass as [Hex _].
    by apply negb_true_iff in Hex.
  - destruct (passes _ _ _ _); [|by apply elem_of_nil in Hin].
    apply list_elem_of_In, in_flat_map in Hin as ([name child] & Hentry & Hin).
    rewrite Forall_forall in IH.
    eapply (IH (name, child)); apply list_elem_of_In; eassumption.
  - apply list_elem_of_singleton in Hin. discriminate.
  - apply list_elem_of_singleton in Hin. discriminate.
Qed.

Lemma deletePhase_no_uploads deleteSync concurrency st :
  uploads (trace_of (deletePhase deleteSync concurrency st)) = [].
Proof.
  rewrite deletePhase_eq. destruct (deleteSync && _); [|reflexivity].
  cbv zeta. destruct (concurrency =? 0)%Z; [reflexivity|].
  change (trace_of (?a, ?b, ?c)) with b.
  change (uploads (EvLog LogStartingDeletion :: ?tr)) with (uploads tr).
  rewrite uploads_app, uploads_spawned_deletes. reflexivity.
Qed.

(** The uploads of a run of [Sync] are the uploads of its walk. *)
Lemma Sync_uploads w r localPath remotePath deleteSync recursive concurrency
    sizeOnly excludePatterns tree l k :
  (l, k) ∈ uploads (trace_of
    (Sync w r localPath remotePath deleteSync recursive concurrency sizeOnly
       excludePatterns tree zeroVars)) ->
  exists st,
    (l, k) ∈ uploads (trace_of
      (diffAll w localPath remotePath concurrency sizeOnly
         (visits localPath recursive excludePatterns localPath tree) st)).
Proof.
  rewrite Sync_eq. cbv zeta.
  destruct (listResult _ ∅) as [e|listed].
  { change (trace_of (?a, ?b, ?c)) with b. rewrite uploads_prefix.
    by intros ?%elem_of_nil. }
  destruct (concurrency <? 0)%Z.
  { change (trace_of (?a, ?b, ?c)) with b. rewrite uploads_prefix.
    by intros ?%elem_of_nil. }
  intros Hin. exists (set_remoteFiles listed zeroVars).
  destruct (diffAll _ _ _ _ _ _ _) as [[st2 evW] oW].
  change (trace_of (st2, evW, oW)) with evW.
  destruct oW as [[| |e]|msg|];
    try pose proof (deletePhase_no_uploads deleteSync concurrency st2) as Hnd;
    try destruct (deletePhase deleteSync concurrency st2)
      as [[st3 evD] [[]|msg|]];
    change (trace_of (?a, ?b, ?c)) with b in *;
    rewrite uploads_app, uploads_prefix in Hin;
    change (uploads (EvMakeChan concurrency :: ?tr)) with (uploads tr) in Hin;
    rewrite ?uploads_app in Hin;
    change (uploads [EvWait; EvLog ?m]) with (@nil (string * string)) in Hin;
    rewrite ?Hnd in Hin; cbn [app] in Hin; rewrite ?app_nil_r in Hin;
    exact Hin.
Qed.

(** C2 fails on the code. The directory [/d/logs] is excluded and the
    walk is pruned there; the file [x.txt] in it exists, matches no
    pattern by itself and is not uploaded, but its remote key
    [p/logs/x.txt], which the bucket has, is never claimed, and with
    delete mode on a delete is started for it although the file is there
    in the source. And when the directory has a sibling entry named
    [logs\x.txt], line 237 turns the path of that entry into
    [/d/logs/x.txt], which no pattern excludes: the run then starts an
    upload from the path of the file below the excluded directory. *)
Theorem excluded_directory_remote_deleted :
  (locate "/d" Scenario.excluded_tree [1%nat]
     = Some ("/d/logs", Dir [("x.txt", File 3)])
   /\ shouldExclude "/d/logs" Scenario.excluded_patterns = true
   /\ locate "/d" Scenario.excluded_tree [1%nat; 0%nat]
      = Some ("/d/logs/x.txt", File 3)
   /\ os_Open Scenario.excluded_world "/d/logs/x.txt"
      = inr (Scenario.readable "abc")
   /\ shouldExclude "/d/logs/x.txt" Scenario.excluded_patterns = false
   /\ remoteKeyOf "/d" "p" "/d/logs/x.txt" = "p/logs/x.txt"
   /\ out_of Scenario.excluded_run = Returned None
   /\ uploads (trace_of Scenario.excluded_run) = []
   /\ deletes (trace_of Scenario.excluded_run) = ["p/logs/x.txt"])
  /\ (locate "/d" Cases_alias_tree [2%nat]
      = Some ("/d/logs" +:+ String GoPath.backslash "x.txt", File 5)
     /\ normalizePath ("/d/logs" +:+ String GoPath.backslash "x.txt")
        = "/d/logs/x.txt"
     /\ out_of Cases_alias_run = Returned None
     /\ uploads (trace_of Cases_alias_run) = [("/d/logs/x.txt", "p/logs/x.txt")]
     /\ deletes (trace_of Cases_alias_run) = []).
Proof.
  split; repeat split; vm_compute; reflexivity.
Qed.

(** ** C8: dry run *)

Lemma goroutine_dry_run w r t objs :
  goroutine w r true t objs = (objs, dryRunLog r t, Returned tt).
Proof. destruct t; reflexivity. Qed.

Lemma forEach_dry_run w r tasks objs :
  forEach tasks (goroutine w r true) objs
  = (objs, flat_map (dryRunLog r) tasks, Returned tt).
Proof.
  induction tasks as [|t tasks IH]; [reflexivity|].
  cbn [forEach flat_map]. unfold bind.
  rewrite goroutine_dry_run, IH. reflexivity.
Qed.

Lemma dryRunLog_no_mutation r tasks :
  forallb (fun e => negb (is_mutation e)) (flat_map (dryRunLog r) tasks) = true.
Proof.
  induction tasks as [|[l k|k] tasks IH]; [reflexivity| |]; cbn; exact IH.
Qed.


(** ** C3: the concurrency value *)

Lemma diffAll_zero_no_spawn w localPath remotePath sizeOnly vs : forall st,
  spawned (trace_of (diffAll w localPath remotePath 0 sizeOnly vs st)) = [].
Proof.
  assert (forall inventory fullpath key,
            spawned (hashed sizeOnly inventory fullpath key) = []) as Hh.
  { intros inventory fullpath key. unfold hashed.
    destruct (inventory !! key); [|reflexivity]. destruct sizeOnly; reflexivity. }
  induction vs as [|[e|[fullpath size]] vs IH]; intros st.
  - reflexivity.
  - reflexivity.
  - rewrite diffAll_cons. cbv zeta. cbn [Z.eqb].
    destruct (needs _ _ _ _ _ _) as [e|[|]];
      change (trace_of (?a, ?b, ?c)) with b; rewrite ?Hh; try reflexivity.
    unfold spawned. rewrite omap_app. fold (spawned (hashed sizeOnly (remoteFiles st) fullpath
      (remoteKeyOf localPath remotePath fullpath))). rewrite Hh. apply IH.
Qed.

Lemma spawned_prefix r remotePath pages : spawned (syncPrefix r remotePath pages) = [].
Proof.
  unfold syncPrefix. cbn. induction (listCalls pages); [reflexivity|].
  cbn. assumption.
Qed.

Lemma spawned_app tr1 tr2 : spawned (tr1 ++ tr2) = spawned tr1 ++ spawned tr2.
Proof. unfold spawned. apply omap_app. Qed.

(** With a concurrency of zero or less [Sync] starts no task. *)
Lemma Sync_nonpositive_no_spawn w r localPath remotePath deleteSync recursive
    concurrency sizeOnly excludePatterns tree :
  (concurrency <= 0)%Z ->
  spawned (trace_of
    (Sync w r localPath remotePath deleteSync recursive concurrency sizeOnly
       excludePatterns tree zeroVars)) = [].
Proof.
  intros Hc. rewrite Sync_eq. cbv zeta.
  destruct (listResult _ ∅) as [e|listed]; [apply spawned_prefix|].
  destruct (concurrency <? 0)%Z eqn:Hneg; [apply spawned_prefix|].
  assert (concurrency = 0%Z) as -> by (apply Z.ltb_ge in Hneg; lia).
  pose proof (diffAll_zero_no_spawn w localPath remotePath sizeOnly
                (visits localPath recursive excludePatterns localPath tree)
                (set_remoteFiles listed zeroVars)) as Hwalk.
  destruct (diffAll _ _ _ _ _ _ _) as [[st2 evW] oW].
  change (trace_of (st2, evW, oW)) with evW in Hwalk.
  assert (spawned (trace_of (deletePhase deleteSync 0 st2)) = []) as Hdel.
  { rewrite deletePhase_eq. destruct (deleteSync && _); reflexivity. }
  destruct oW as [[| |e]|msg|];
    try destruct (deletePhase deleteSync 0 st2) as [[st3 evD] [[]|msg|]];
    change (trace_of (?a, ?b, ?c)) with b in *;
    rewrite spawned_app, spawned_prefix;
    change (spawned (EvMakeChan 0 :: ?tr)) with (spawned tr);
    rewrite ?spawned_app, Hwalk;
    change (spawned [EvWait; EvLog ?m]) with (@nil task);
    rewrite ?Hdel; reflexivity.
Qed.

Lemma Sync_trace_prefix w r localPath remotePath deleteSync recursive
    concurrency sizeOnly excludePatterns tree :
  exists rest,
    trace_of (Sync w r localPath remotePath deleteSync recursive concurrency
                sizeOnly excludePatterns tree zeroVars)
    = syncPrefix r remotePath (s3_ListObjectsV2 w (bucket r) remotePath) ++ rest.
Proof.
  rewrite Sync_eq. cbv zeta.
  destruct (listResult _ ∅) as [e|listed].
  { exists []. by rewrite app_nil_r. }
  destruct (concurrency <? 0)%Z.
  { exists []. by rewrite app_nil_r. }
  destruct (diffAll _ _ _ _ _ _ _) as [[st2 evW] [[| |e]|msg|]];
    try destruct (deletePhase _ _ st2) as [[st3 evD] [[]|msg|]];
    eexists; reflexivity.
Qed.

Lemma Sync_zero_makes_chan w r localPath remotePath deleteSync recursive
    sizeOnly excludePatterns tree listed :
  listResult (s3_ListObjectsV2 w (bucket r) remotePath) ∅ = inr listed ->
  EvMakeChan 0 ∈
    trace_of (Sync w r localPath remotePath deleteSync recursive 0
                sizeOnly excludePatterns tree zeroVars).
Proof.
  intros Hlisted. rewrite Sync_eq. cbv zeta. rewrite Hlisted. cbn [Z.ltb Z.compare].
  destruct (diffAll _ _ _ _ _ _ _) as [[st2 evW] [[| |e]|msg|]];
    try destruct (deletePhase _ _ st2) as [[st3 evD] [[]|msg|]];
    change (trace_of (?a, ?b, ?c)) with b;
    apply elem_of_app; right; apply elem_of_cons; by left.
Qed.

Lemma Sync_negative_panics w r localPath remotePath deleteSync recursive
    concurrency sizeOnly excludePatterns tree listed :
  listResult (s3_ListObjectsV2 w (bucket r) remotePath) ∅ = inr listed ->
  (concurrency < 0)%Z ->
  Sync w r localPath remotePath deleteSync recursive concurrency
    sizeOnly excludePatterns tree zeroVars
  = (set_remoteFiles listed zeroVars,
     syncPrefix r remotePath (s3_ListObjectsV2 w (bucket r) remotePath),
     Panicked "makechan: size out of range").
Proof.
  intros Hlisted Hneg. rewrite Sync_eq. cbv zeta. rewrite Hlisted.
  apply Z.ltb_lt in Hneg. rewrite Hneg. reflexivity.
Qed.

(** C3, as the code has it. No check of the concurrency value exists.
    With two arguments, a target that parses and a configuration that
    loads, [main] goes on to list the remote objects whatever the value
    is. No task is ever started with a value of zero or less. When the
    listing succeeds, a negative value makes the construction of the gate
    panic, after the network call; the value zero constructs the gate
    with no buffer. *)
Theorem nonpositive_concurrency_not_rejected
    (w : World) (flags : Flags) (arg0 arg1 : string) (tree : node) (u : URL)
    (tr : list event) (ex : exit) :
  (flag_concurrency flags <= 0)%Z ->
  url_Parse w (normalizePath arg1) = inr u ->
  config_LoadDefaultConfig w = None ->
  main w flags [arg0; arg1] tree = (tr, ex) ->
  (exists rest,
     tr = EvLoadConfig
            :: EvLog (LogGettingRemote (TrimPrefix1 (url_Path u) GoPath.slash))
            :: EvListObjectsV2 (Host u) (TrimPrefix1 (url_Path u) GoPath.slash)
            :: rest)
  /\ spawned tr = []
  /\ (forall listed,
        listResult
          (s3_ListObjectsV2 w (Host u) (TrimPrefix1 (url_Path u) GoPath.slash)) ∅
          = inr listed ->
        ((flag_concurrency flags < 0)%Z ->
           ex = Crash "makechan: size out of range"
           /\ forall n, EvMakeChan n ∉ tr)
        /\ (flag_concurrency flags = 0%Z -> EvMakeChan 0 ∈ tr)).
Proof.
  intros Hc Hurl Hcfg Hmain. unfold main, NewR2Client in Hmain.
  rewrite Hurl, Hcfg in Hmain.
  set (target := TrimPrefix1 (url_Path u) GoPath.slash) in *.
  set (pats := map normalizePath (flag_exclude flags)) in *.
  set (client := mkClient (Host u) (Scheme u)) in *.
  change (Host u) with (bucket client).
  pose proof (Sync_nonpositive_no_spawn w client (normalizePath arg0) target
                (flag_delete flags) (flag_recursive flags)
                (flag_concurrency flags) (flag_size_only flags) pats tree Hc)
    as Hspawn.
  pose proof (Sync_trace_prefix w client (normalizePath arg0) target
                (flag_delete flags) (flag_recursive flags)
                (flag_concurrency flags) (flag_size_only flags) pats tree)
    as [rest0 Hprefix].
  pose proof (Sync_zero_makes_chan w client (normalizePath arg0) target
                (flag_delete flags) (flag_recursive flags)
                (flag_size_only flags) pats tree) as Hzero.
  pose proof (Sync_negative_panics w client (normalizePath arg0) target
                (flag_delete flags) (flag_recursive flags)
                (flag_concurrency flags) (flag_size_only flags) pats tree)
    as Hneg.
  destruct (flag_concurrency flags) as [|c|c] eqn:Hflag; [| lia |].
  - (* zero *)
    destruct (Sync _ _ _ _ _ _ _ _ _ _ _) as [[st tr0] o].
    change (trace_of (st, tr0, o)) with tr0 in *.
    assert (tr = EvLoadConfig :: tr0
            \/ exists e, tr = EvLoadConfig :: tr0 ++ [EvLog (LogFatal e)]) as Htr.
    { destruct o as [[e|]|msg|]; injection Hmain as <- <-; eauto. }
    clear Hmain. split; [|split].
    + unfold syncPrefix in Hprefix. cbn [app] in Hprefix.
      destruct (s3_ListObjectsV2 w (bucket client) target)
        as [contents|contents token next|e];
        cbn [listCalls replicate app] in Hprefix;
        destruct Htr as [->|[e' ->]]; rewrite Hprefix; cbn [app]; eauto.
    + destruct Htr as [->|[e' ->]].
      * exact Hspawn.
      * change (spawned (EvLoadConfig :: ?t)) with (spawned t).
        rewrite spawned_app, Hspawn. reflexivity.
    + intros listed Hlisted. split; [lia|]. intros _.
      specialize (Hzero _ Hlisted).
      destruct Htr as [->|[e' ->]]; apply elem_of_cons; right;
        [|apply elem_of_app; left]; exact Hzero.
  - (* negative *)
    split; [|split].
    + destruct (Sync _ _ _ _ _ _ _ _ _ _ _) as [[st tr0] o].
      change (trace_of (st, tr0, o)) with tr0 in *.
      assert (tr = EvLoadConfig :: tr0
              \/ exists e, tr = EvLoadConfig :: tr0 ++ [EvLog (LogFatal e)]) as Htr.
      { destruct o as [[e|]|msg|]; injection Hmain as <- <-; eauto. }
      unfold syncPrefix in Hprefix. cbn [app] in Hprefix.
      destruct (s3_ListObjectsV2 w (bucket client) target)
        as [contents|contents token next|e];
        cbn [listCalls replicate app] in Hprefix;
        destruct Htr as [->|[e' ->]]; rewrite Hprefix; cbn [app]; eauto.
    + destruct (Sync _ _ _ _ _ _ _ _ _ _ _) as [[st tr0] o].
      change (trace_of (st, tr0, o)) with tr0 in *.
      destruct o as [[e|]|msg|]; injection Hmain as <- <-;
        change (spawned (EvLoadConfig :: ?t)) with (spawned t);
        rewrite ?spawned_app, Hspawn; reflexivity.
    + intros listed Hlisted. split; [|lia]. intros _.
      rewrite (Hneg _ Hlisted) in Hmain by lia.
      injection Hmain as <- <-. split; [reflexivity|].
      intros n [?|[?|?]%prefix_events]%elem_of_cons; discriminate.
Qed.


Lemma nonpositive_concurrency_not_rejected_witness :
  (flag_concurrency Scenario.idle_flags <= 0)%Z
  /\ url_Parse (Scenario.world [] []) (normalizePath "r2://bucket/p")
     = inr (mkURL "r2" "bucket" "/p")
  /\ spawned (main (Scenario.world [] []) Scenario.idle_flags
                Scenario.idle_args (Dir [])).1 = [].
Proof.
  assert (flag_concurrency Scenario.idle_flags <= 0)%Z as Hc.
  { vm_compute. discriminate. }
  assert (url_Parse (Scenario.world [] []) (normalizePath "r2://bucket/p")
          = inr (mkURL "r2" "bucket" "/p")) as Hurl.
  { vm_compute. reflexivity. }
  split; [exact Hc|]. split; [exact Hurl|].
  exact (proj1 (proj2
    (nonpositive_concurrency_not_rejected (Scenario.world [] [])
       Scenario.idle_flags "/d" "r2://bucket/p" (Dir []) _ _ _
       Hc Hurl eq_refl (surjective_pairing _)))).
Defined.

(** C3 as stated fails: with [--concurrency 0], an empty directory and an
    empty bucket, no configuration error is reported; the remote objects
    are listed, the gate is made with capacity 0, and the process ends
    with status 0. With [--concurrency -1] the process lists the remote
    objects and then dies in a panic. *)
Lemma zero_concurrency_accepted :
  main (Scenario.world [] []) Scenario.idle_flags Scenario.idle_args (Dir [])
  = ([EvLoadConfig; EvLog (LogGettingRemote "p");
      EvListObjectsV2 "bucket" "p"; EvMakeChan 0; EvWait;
      EvLog (LogFilesUploaded 0); EvLog LogSyncCompleted],
     Exit 0)
  /\ main (Scenario.world [] []) (mkFlags false false false (-1) false [])
       Scenario.idle_args (Dir [])
     = ([EvLoadConfig; EvLog (LogGettingRemote "p");
         EvListObjectsV2 "bucket" "p"],
        Crash "makechan: size out of range").
Proof.
  split; vm_compute; reflexivity.
Qed.

(** ** C4: without recursion *)

(** C4 on scenario A of the specification, with the source directory
    [/d]: [a.txt] lies directly in the root and is not excluded, but the
    callback prunes the root itself, because [path.Dir] of the root is
    not the root; the walk visits nothing and no upload is started. The
    same tree walked from [.] gives the upload of [a.txt] and nothing for
    [sub/b.txt]. *)
Theorem nonrecursive_root_pruned :
  locate "/d" Scenario.flat_tree [0%nat] = Some ("/d/a.txt", File 1)
  /\ GoPath.Dir "/d/a.txt" = "/d"
  /\ shouldExclude "/d/a.txt" [] = false
  /\ GoPath.Dir "/d" = "/"
  /\ walkFn Scenario.flat_world "/d" "p" false 5 false [] "/d"
       (Some (mkInfo true 0)) None zeroVars
     = (zeroVars, [], Returned WSkipDir)
  /\ candidates "/d" false [] "/d" Scenario.flat_tree = []
  /\ out_of Scenario.flat_run = Returned None
  /\ uploads (trace_of Scenario.flat_run) = []
  /\ uploads (trace_of
       (Sync Scenario.flat_world Scenario.client "." "p" false false 5 false []
          Scenario.flat_tree zeroVars))
     = [("a.txt", "p/a.txt")].
Proof.
  repeat split; vm_compute; reflexivity.
Qed.

(** The same for every source directory that is not its own [path.Dir]
    (every path but [.] and [/], among the clean ones): without
    recursion the walk of a directory hands nothing to the diff step. *)
Lemma nonrecursive_root_no_candidates localPath excludePatterns entries :
  String.eqb (GoPath.Dir (normalizePath localPath)) localPath = false ->
  visits localPath false excludePatterns localPath (Dir entries) = [].
Proof.
  intros Hdir. cbn [visits]. unfold passes. rewrite Hdir.
  destruct (shouldExclude _ _); reflexivity.
Qed.

(** ** C9: the admission gate *)

Module GateFacts.
Import Gate.

Lemma count_app f l1 l2 : count f (l1 ++ l2) = count f l1 + count f l2.
Proof. induction l1 as [|g l1 IH]; cbn; [reflexivity|]. rewrite IH. lia. Qed.

Lemma count_le_length f l : count f l <= length l.
Proof. induction l as [|g l IH]; cbn; [lia|]. destruct (f g); lia. Qed.

Lemma count_body_le_holds l : count in_body l <= count holds l.
Proof.
  induction l as [|[t []] l IH]; cbn; lia.
Qed.

Lemma inv_init N e tasks : inv N e tasks (init tasks).
Proof.
  unfold inv, init; cbn. repeat split; try lia; try discriminate.
  rewrite app_nil_r. reflexivity.
Qed.

(** A goroutine that still has a step to make rules out that the main
    goroutine is past [wg.Wait()]. *)
Ltac passed_absurd :=
  match goal with
  | Hpassed : ?m = Passed -> _ /\ _, H : ?m = Passed |- _ =>
      let Hnil := fresh "Hnil" in
      destruct (Hpassed H) as [Hnil ?]; try assumption;
      exfalso; eapply app_cons_not_nil; symmetry; exact Hnil
  end.

Lemma inv_step N e tasks s s' : inv N e tasks s -> step N e s s' -> inv N e tasks s'.
Proof.
  intros (Hsem & Hwg & Hcap & Hperm & Hpassed & Hleft) Hstep.
  destruct Hstep; unfold inv in *; cbn [main sem wg gs ended pending token
    unit_added] in *.
  - (* wg.Add(1) *)
    repeat split; try lia; try discriminate. exact Hperm.
  - (* the send *)
    repeat split; try lia; try discriminate. exact Hperm.
  - (* go func *)
    repeat split; cbn; try lia; try discriminate.
    rewrite Hperm. cbn. apply Permutation_middle.
  - (* wg.Wait() *)
    repeat split; try lia; try assumption; try discriminate.
    destruct gs0; [reflexivity|cbn in Hwg; lia].
  - (* return err *)
    repeat split; try lia; try discriminate; try assumption.
    intros _. assumption.
  - (* the body ends *)
    rewrite !count_app, !length_app, !map_app in *. cbn in *.
    repeat split; try lia; try assumption; passed_absurd.
  - (* the receive from the gate *)
    rewrite !count_app, !length_app, !map_app in *. cbn in *.
    repeat split; try lia; try assumption; passed_absurd.
  - (* wg.Done() *)
    rewrite !count_app, !length_app, !map_app in *. cbn in *.
    repeat split; try lia; try assumption; try passed_absurd.
    rewrite Hperm. apply Permutation_app_head.
    rewrite <- !app_assoc. apply Permutation_app_head.
    cbn. apply Permutation_middle.
Qed.

Lemma inv_reachable N e tasks s :
  rtc (step N e) (init tasks) s -> inv N e tasks s.
Proof.
  revert s. apply rtc_ind_r.
  - apply inv_init.
  - intros y z _ Hstep IH. eapply inv_step; eassumption.
Qed.

(** With at least one slot the phase never gets stuck before the main
    goroutine has left it. *)
Lemma progress N e tasks s :
  1 <= N ->
  rtc (step N e) (init tasks) s ->
  main s <> Passed -> main s <> LeftEarly ->
  exists s', step N e s s'.
Proof.
  intros HN Hreach Hnp Hnl.
  destruct (inv_reachable _ _ _ _ Hreach) as (Hsem & Hwg & Hcap & _ & _ & _).
  destruct s as [m sm w g en]; cbn in *.
  assert (forall t l1 l2, g = l1 ++ (t, Body) :: l2 -> exists s', step N e (mkState m sm w g en) s')
    as Hbody.
  { intros t l1 l2 ->. eexists. apply step_body. }
  assert (forall t l1 l2, g = l1 ++ (t, Logged) :: l2 -> 0 < sm ->
            exists s', step N e (mkState m sm w g en) s') as Hlogged.
  { intros t l1 l2 -> Hpos. destruct sm as [|sm]; [lia|].
    eexists. apply step_free. }
  assert (forall t l1 l2, g = l1 ++ (t, Freed) :: l2 ->
            exists s', step N e (mkState m sm w g en) s') as Hfreed.
  { intros t l1 l2 ->. rewrite length_app in Hwg. cbn in Hwg.
    destruct w as [|w]; [lia|]. eexists. apply step_done. }
  assert (g <> [] -> exists s', step N e (mkState m sm w g en) s') as Hany.
  { intros Hg. destruct g as [|[t st] g]; [congruence|].
    destruct st.
    - apply (Hbody t [] g eq_refl).
    - apply (Hlogged t [] g eq_refl). cbn in Hsem. lia.
    - apply (Hfreed t [] g eq_refl). }
  destruct m as [[|t todo]|t todo|t todo| |]; try congruence.
  - destruct e.
    + destruct g as [|g0 g]; [|apply Hany; discriminate].
      cbn in Hwg. subst w. eexists. by apply step_wait.
    + eexists. by apply step_return.
  - eexists. apply step_add.
  - destruct (decide (sm < N)) as [Hlt|Hge].
    + eexists. by apply step_send.
    + apply Hany. intros ->. cbn in Hsem. lia.
  - eexists. apply step_go.
Qed.

End GateFacts.

(** C9, as the code has it. In every state that a phase can reach, with
    a gate of any capacity [N]: the goroutines in their body are among
    those that hold a slot, and these together with the value the main
    goroutine may just have sent are the values in the gate, at most [N];
    a submission that has done its [wg.Add(1)] can send exactly when
    fewer than [N] goroutines hold a slot; when the main goroutine is
    past [wg.Wait()] no goroutine of the phase is left and the tasks whose
    outcome has been recorded are all the tasks of the phase; and the
    main goroutine leaves the phase without waiting only when the walk
    has returned an error. *)
Theorem gate_bounds (N : nat) (e : Gate.ending) (tasks : list task)
    (s : Gate.state) :
  rtc (Gate.step N e) (Gate.init tasks) s ->
  (Gate.count Gate.in_body (Gate.gs s) <= Gate.count Gate.holds (Gate.gs s)
   /\ Gate.count Gate.holds (Gate.gs s) + Gate.token (Gate.main s) = Gate.sem s
   /\ Gate.sem s <= N)
  /\ (forall t todo,
        Gate.main s = Gate.Added t todo ->
        ((exists s', Gate.step N e s s' /\ Gate.main s' = Gate.Sent t todo)
         <-> Gate.count Gate.holds (Gate.gs s) < N))
  /\ (Gate.main s = Gate.Passed ->
        Gate.gs s = [] /\ Permutation tasks (Gate.recorded s)
        /\ e = Gate.ThenWait)
  /\ (Gate.main s = Gate.LeftEarly -> e = Gate.ThenReturn).
Proof.
  intros Hreach.
  destruct (GateFacts.inv_reachable _ _ _ _ Hreach)
    as (Hsem & Hwg & Hcap & Hperm & Hpassed & Hleft).
  split; [|split; [|split]].
  - split; [apply GateFacts.count_body_le_holds|]. split; [lia|exact Hcap].
  - intros t todo Hmain. destruct s as [m sm w g en]; cbn in *. subst m.
    cbn in Hsem. split.
    + intros (s' & Hstep & Hsent). inversion Hstep; subst; cbn in *;
        try discriminate; lia.
    + intros Hlt. eexists. split; [apply Gate.step_send; lia|reflexivity].
  - intros Hmain. destruct (Hpassed Hmain) as [Hnil He].
    split; [exact Hnil|]. split; [|exact He].
    unfold Gate.recorded. rewrite Hnil in *. rewrite Hmain in Hperm.
    cbn in *. rewrite app_nil_r. exact Hperm.
  - exact Hleft.
Qed.

Lemma gate_bounds_witness :
  rtc (Gate.step 5 Gate.ThenWait) (Gate.init [DeleteTask "p/old.txt"])
    (Gate.mkState Gate.Passed 0 0 [] [DeleteTask "p/old.txt"])
  /\ Permutation [DeleteTask "p/old.txt"]
       (Gate.recorded (Gate.mkState Gate.Passed 0 0 [] [DeleteTask "p/old.txt"])).
Proof.
  assert (rtc (Gate.step 5 Gate.ThenWait) (Gate.init [DeleteTask "p/old.txt"])
            (Gate.mkState Gate.Passed 0 0 [] [DeleteTask "p/old.txt"])) as Hreach.
  { eapply rtc_l; [apply Gate.step_add|].
    eapply rtc_l; [apply Gate.step_send; lia|].
    eapply rtc_l; [apply Gate.step_go|].
    eapply rtc_l; [apply (Gate.step_body _ _ _ _ _ _ [] [])|].
    eapply rtc_l; [apply (Gate.step_free _ _ _ _ _ _ [] [])|].
    eapply rtc_l; [apply (Gate.step_done _ _ _ _ _ _ [] [])|].
    eapply rtc_l; [by apply Gate.step_wait|].
    apply rtc_refl. }
  split; [exact Hreach|].
  exact (proj1 (proj2 (proj1 (proj2 (proj2 (gate_bounds _ _ _ _ Hreach))) eq_refl))).
Defined.

(** C9 as stated fails when the walk returns an error: in the run below
    the upload of [a.txt] is started, then the fingerprint of [b.txt]
    fails and [Sync] returns without [wg.Wait()]; the phase can be left
    while the upload is still in its body, its outcome not recorded. *)
Lemma early_return_leaves_upload_running :
  uploadPhase Scenario.early_run
    = ([UploadTask "/d/a.txt" "p/a.txt"], Gate.ThenReturn)
  /\ out_of Scenario.early_run
     = Returned (Some "upload failed: open /d/b.txt: permission denied")
  /\ trace_of Scenario.early_run
     = [EvLog (LogGettingRemote "p"); EvListObjectsV2 "bucket" "p";
        EvMakeChan 5; EvGo (UploadTask "/d/a.txt" "p/a.txt");
        EvOpen "/d/b.txt"]
  /\ rtc (Gate.step 5 Gate.ThenReturn)
       (Gate.init [UploadTask "/d/a.txt" "p/a.txt"])
       (Gate.mkState Gate.LeftEarly 1 1
          [(UploadTask "/d/a.txt" "p/a.txt", Gate.Body)] [])
  /\ Gate.recorded
       (Gate.mkState Gate.LeftEarly 1 1
          [(UploadTask "/d/a.txt" "p/a.txt", Gate.Body)] []) = [].
Proof.
  split; [vm_compute; reflexivity|].
  split; [vm_compute; reflexivity|].
  split; [vm_compute; reflexivity|].
  split; [|reflexivity].
  eapply rtc_l; [apply Gate.step_add|].
  eapply rtc_l; [apply Gate.step_send; lia|].
  eapply rtc_l; [apply Gate.step_go|].
  eapply rtc_l; [by apply Gate.step_return|].
  apply rtc_refl.
Qed.

(** * Further properties *)

(** ** [normalizePath] *)

Lemma ReplaceAll_contains s old new :
  old <> new -> contains (ReplaceAll s old new) old = false.
Proof.
  intros Hne. induction s as [|c s IH]; [reflexivity|].
  cbn [ReplaceAll contains]. rewrite IH, orb_false_r.
  destruct (Ascii.eqb c old) eqn:Hc.
  - apply Ascii.eqb_neq. congruence.
  - exact Hc.
Qed.

Lemma ReplaceAll_fixed s old new :
  ReplaceAll s old new = s <-> (contains s old = false \/ old = new).
Proof.
  induction s as [|c s IH]; cbn [ReplaceAll contains].
  - split; auto.
  - destruct (Ascii.eqb c old) eqn:Hc; cbn [orb].
    + apply Ascii.eqb_eq in Hc. subst c. split.
      * intros Heq. injection Heq as Hnew _. auto.
      * intros [? | ->]; [discriminate|]. f_equal. apply IH. auto.
    + split.
      * intros Heq. injection Heq as Heq. apply IH in Heq. exact Heq.
      * intros H. f_equal. apply IH. exact H.
Qed.

Lemma normalizePath_twice path :
  normalizePath (normalizePath path) = normalizePath path.
Proof.
  apply ReplaceAll_fixed. left. apply ReplaceAll_contains. discriminate.
Qed.

(** X1. [normalizePath] leaves no backslash, keeps the length, is
    idempotent, and changes a path exactly when it has a backslash. *)
Theorem normalizePath_idempotent (path : string) :
  normalizePath (normalizePath path) = normalizePath path
  /\ contains (normalizePath path) GoPath.backslash = false
  /\ String.length (normalizePath path) = String.length path
  /\ (normalizePath path = path <-> contains path GoPath.backslash = false).
Proof.
  assert (GoPath.backslash <> GoPath.slash) as Hne by discriminate.
  assert (contains (normalizePath path) GoPath.backslash = false) as Hno
    by (apply ReplaceAll_contains; exact Hne).
  split; [|split; [exact Hno|split]].
  - apply normalizePath_twice.
  - clear Hno. unfold normalizePath.
    induction path as [|c path IH]; [reflexivity|].
    cbn. rewrite IH. reflexivity.
  - unfold normalizePath. rewrite ReplaceAll_fixed. split; [|auto].
    intros [H|H]; [exact H|by destruct (Hne H)].
Qed.

(** X2. [main] treats backslashes and slashes alike in its inputs: it
    does the same on the source path, the target and the exclusion
    patterns as on their normalised forms. *)
Theorem main_normalizes_inputs (w : World) (flags : Flags)
    (arg0 arg1 : string) (tree : node) :
  main w flags [arg0; arg1] tree
  = main w (normalizedFlags flags) [normalizePath arg0; normalizePath arg1] tree.
Proof.
  unfold main, normalizedFlags. cbn [flag_exclude flag_delete flag_recursive
    flag_concurrency flag_size_only].
  rewrite !normalizePath_twice.
  rewrite map_map.
  rewrite (map_ext (fun x => normalizePath (normalizePath x)) normalizePath
             normalizePath_twice).
  reflexivity.
Qed.

(** ** [ListObjects] *)

Lemma listResult_pageObjects pages : forall result m,
  listResult pages result = inr m ->
  m = foldl addObject result (pageObjects pages).
Proof.
  induction pages as [contents|contents token next IH|err]; intros result m;
    cbn [listResult pageObjects].
  - intros Hm. injection Hm as <-. reflexivity.
  - intros Hm. rewrite foldl_app. apply IH. exact Hm.
  - discriminate.
Qed.

Lemma foldl_addObject_other objs : forall result k,
  (forall o, o ∈ objs -> obj_Key o <> k) ->
  foldl addObject result objs !! k = result !! k.
Proof.
  induction objs as [|o objs IH]; intros result k Hk; [reflexivity|].
  cbn [foldl]. rewrite IH.
  - unfold addObject. apply lookup_insert_ne. apply Hk. apply elem_of_cons. by left.
  - intros o' Ho'. apply Hk. apply elem_of_cons. by right.
Qed.

Lemma foldl_addObject_origin objs : forall result k info,
  foldl addObject result objs !! k = Some info ->
  result !! k = Some info
  \/ exists o, o ∈ objs /\ obj_Key o = k /\ info = recordOf o.
Proof.
  induction objs as [|o objs IH]; intros result k info Hk; [by left|].
  cbn [foldl] in Hk. apply IH in Hk as [Hk|(o' & Hin & Hkey & Hinfo)].
  - unfold addObject in Hk. destruct (decide (obj_Key o = k)) as [Heq|Hne].
    + rewrite Heq, lookup_insert_eq in Hk. injection Hk as <-.
      right. exists o. split; [apply elem_of_cons; by left|].
      split; [exact Heq|]. unfold recordOf. rewrite Heq. reflexivity.
    + rewrite lookup_insert_ne in Hk by exact Hne. by left.
  - right. exists o'. split; [apply elem_of_cons; by right|]. auto.
Qed.

Lemma foldl_addObject_keeps objs : forall result k,
  is_Some (result !! k) -> is_Some (foldl addObject result objs !! k).
Proof.
  induction objs as [|o objs IH]; intros result k Hk; [exact Hk|].
  cbn [foldl]. apply IH. unfold addObject.
  destruct (decide (obj_Key o = k)) as [->|Hne].
  - rewrite lookup_insert_eq. eauto.
  - rewrite lookup_insert_ne by exact Hne. exact Hk.
Qed.

Lemma foldl_addObject_present objs : forall result o,
  o ∈ objs -> is_Some (foldl addObject result objs !! obj_Key o).
Proof.
  induction objs as [|o' objs IH]; intros result o Hin;
    [by apply elem_of_nil in Hin|].
  cbn [foldl]. apply elem_of_cons in Hin as [->|Hin].
  - apply foldl_addObject_keeps. unfold addObject.
    rewrite lookup_insert_eq. eauto.
  - apply IH. exact Hin.
Qed.

(** X3. The inventory that [ListObjects] returns holds, under each key,
    the record of the last listed object with that key, over all pages:
    every record comes from a listed object and carries its own key as
    [Path], and no listed key is missing. The variables of the caller
    are not touched. *)
Theorem ListObjects_inventory (w : World) (r : R2Client) (pfx : string)
    (st : SyncVars) (m : gmap string FileInfo) :
  out_of (ListObjects w r pfx st) = Returned (inr m) ->
  (forall k info,
     m !! k = Some info ->
     Path info = k
     /\ exists o, o ∈ pageObjects (s3_ListObjectsV2 w (bucket r) pfx)
                  /\ obj_Key o = k /\ info = recordOf o)
  /\ (forall before o after,
        pageObjects (s3_ListObjectsV2 w (bucket r) pfx) = before ++ o :: after ->
        (forall o', o' ∈ after -> obj_Key o' <> obj_Key o) ->
        m !! obj_Key o = Some (recordOf o))
  /\ (forall o,
        o ∈ pageObjects (s3_ListObjectsV2 w (bucket r) pfx) ->
        is_Some (m !! obj_Key o))
  /\ state_of (ListObjects w r pfx st) = st.
Proof.
  unfold ListObjects. rewrite listPages_eq.
  change (out_of (?a, ?b, ?c)) with c. change (state_of (?a, ?b, ?c)) with a.
  intros Hm. injection Hm as Hm. apply listResult_pageObjects in Hm.
  set (objs := pageObjects (s3_ListObjectsV2 w (bucket r) pfx)) in *.
  assert (forall before o after,
            objs = before ++ o :: after ->
            (forall o', o' ∈ after -> obj_Key o' <> obj_Key o) ->
            m !! obj_Key o = Some (recordOf o)) as Hlast.
  { intros before o after Hobjs Hafter. rewrite Hm, Hobjs, foldl_app.
    cbn [foldl]. rewrite foldl_addObject_other by exact Hafter.
    unfold addObject. apply lookup_insert_eq. }
  split; [|split; [exact Hlast|split; [|reflexivity]]].
  - intros k info Hk. rewrite Hm in Hk.
    apply foldl_addObject_origin in Hk as [Hk|(o & Hin & Hkey & Hinfo)].
    + rewrite lookup_empty in Hk. discriminate.
    + split; [|eauto]. subst info. exact Hkey.
  - intros o Hin. rewrite Hm. apply foldl_addObject_present. exact Hin.
Qed.

Lemma ListObjects_inventory_witness :
  out_of (ListObjects (Cases.world Cases.paged [] []) Scenario.client "p" zeroVars)
    = Returned (inr (listResult_value Cases.paged))
  /\ listResult_value Cases.paged !! "p/a.txt"
     = Some (mkFileInfo "p/a.txt" 5 0 "e3").
Proof.
  assert (out_of (ListObjects (Cases.world Cases.paged [] []) Scenario.client
                    "p" zeroVars)
          = Returned (inr (listResult_value Cases.paged))) as Hout.
  { vm_compute. reflexivity. }
  split; [exact Hout|].
  exact (proj1 (proj2 (ListObjects_inventory _ _ _ _ _ Hout))
           [mkObject "p/a.txt" 1 0 "e1"; mkObject "p/b.txt" 2 0 "e2"]
           (mkObject "p/a.txt" 5 0 "e3") [] eq_refl
           (fun o' H => False_ind _ (proj1 (elem_of_nil o') H))).
Defined.

(** ** Errors of [Sync] *)

(** X4. When the listing fails on any page, [Sync] returns that error
    wrapped as [failed to get remote file list: ...]; it has not made the
    gate, opened no local file, started no task, and its inventory is
    still empty: no part of a listing that failed is used. *)
Theorem listing_failure_aborts
    (w : World) (r : R2Client) (localPath remotePath : string)
    (deleteSync recursive : bool) (concurrency : Z) (sizeOnly : bool)
    (excludePatterns : list string) (tree : node) (err : error)
    (run : SyncVars * list event * outcome (option error)) :
  run = Sync w r localPath remotePath deleteSync recursive concurrency
          sizeOnly excludePatterns tree zeroVars ->
  out_of (ListObjects w r remotePath zeroVars) = Returned (inl err) ->
  out_of run = Returned (Some ("failed to get remote file list: " +:+ err))
  /\ state_of run = zeroVars
  /\ spawned (trace_of run) = []
  /\ forall e, e ∈ trace_of run ->
       e = EvLog (LogGettingRemote remotePath)
       \/ e = EvListObjectsV2 (bucket r) remotePath.
Proof.
  intros -> Hlist. unfold ListObjects in Hlist. rewrite listPages_eq in Hlist.
  change (out_of (?a, ?b, ?c)) with c in Hlist. injection Hlist as Hlist.
  rewrite Sync_eq. cbv zeta. rewrite Hlist.
  change (out_of (?a, ?b, ?c)) with c. change (state_of (?a, ?b, ?c)) with a.
  change (trace_of (?a, ?b, ?c)) with b.
  split; [reflexivity|]. split; [reflexivity|].
  split; [apply spawned_prefix|]. intros e. apply prefix_events.
Qed.

Lemma listing_failure_aborts_witness :
  out_of (ListObjects (Cases.world Cases.broken [] Cases.files) Scenario.client
            "p" zeroVars) = Returned (inl "503 Slow Down")
  /\ out_of (Sync (Cases.world Cases.broken [] Cases.files) Scenario.client
               "/d" "p" true true 5 false [] Cases.tree zeroVars)
     = Returned (Some "failed to get remote file list: 503 Slow Down").
Proof.
  assert (out_of (ListObjects (Cases.world Cases.broken [] Cases.files)
                    Scenario.client "p" zeroVars)
          = Returned (inl "503 Slow Down")) as Hlist.
  { vm_compute. reflexivity. }
  split; [exact Hlist|].
  exact (proj1 (listing_failure_aborts _ _ _ _ _ _ _ _ _ _ _ _ eq_refl Hlist)).
Defined.

Lemma walk_events_no_wait tr :
  forallb is_walk_event tr = true ->
  (EvWait ∉ tr) /\ (EvLog LogSyncCompleted ∉ tr).
Proof.
  intros Hwalk. split; intros Hin; apply (forallb_elem _ _ _ Hwalk) in Hin;
    discriminate.
Qed.

(** X5. Whenever [Sync] returns an error, it has started no delete, has
    not waited for its uploads and has not logged completion: deletes are
    only decided after a walk that ended without error. *)
Theorem error_means_no_delete
    (w : World) (r : R2Client) (localPath remotePath : string)
    (deleteSync recursive : bool) (concurrency : Z) (sizeOnly : bool)
    (excludePatterns : list string) (tree : node) (msg : error)
    (run : SyncVars * list event * outcome (option error)) :
  run = Sync w r localPath remotePath deleteSync recursive concurrency
          sizeOnly excludePatterns tree zeroVars ->
  out_of run = Returned (Some msg) ->
  deletes (trace_of run) = []
  /\ (EvWait ∉ trace_of run)
  /\ (EvLog LogSyncCompleted ∉ trace_of run).
Proof.
  intros ->. rewrite Sync_eq. cbv zeta.
  assert (forall pages e, e ∈ syncPrefix r remotePath pages ->
            e <> EvWait /\ e <> EvLog LogSyncCompleted) as Hprefix.
  { intros pages e [->| ->]%prefix_events; split; discriminate. }
  destruct (listResult _ ∅) as [e|listed].
  { intros _. change (trace_of (?a, ?b, ?c)) with b.
    split; [apply deletes_prefix|].
    split; intros Hin; apply Hprefix in Hin as [? ?]; congruence. }
  destruct (concurrency <? 0)%Z; [discriminate|].
  pose proof (diffAll_walk_events w localPath remotePath concurrency sizeOnly
                (visits localPath recursive excludePatterns localPath tree)
                (set_remoteFiles listed zeroVars)) as Hwalk.
  destruct (diffAll _ _ _ _ _ _ _) as [[st2 evW] oW].
  change (trace_of (st2, evW, oW)) with evW in Hwalk.
  destruct oW as [[| |e]|m|];
    try (destruct (deletePhase deleteSync concurrency st2)
           as [[st3 evD] [[]|m|]]; discriminate);
    try discriminate.
  intros _. change (trace_of (?a, ?b, ?c)) with b.
  destruct (walk_events_no_wait _ Hwalk) as [Hw Hc].
  split; [|split].
  - rewrite deletes_app, deletes_prefix. cbn [app].
    change (deletes (EvMakeChan concurrency :: ?t)) with (deletes t).
    apply deletes_walk_events. exact Hwalk.
  - intros [Hin|[?|Hin]%elem_of_cons]%elem_of_app;
      [apply Hprefix in Hin as [? ?]; congruence|discriminate|by apply Hw].
  - intros [Hin|[?|Hin]%elem_of_cons]%elem_of_app;
      [apply Hprefix in Hin as [? ?]; congruence|discriminate|by apply Hc].
Qed.

Lemma error_means_no_delete_witness :
  out_of Scenario.failing_run
    = Returned (Some "upload failed: open /d/a.txt: permission denied")
  /\ deletes (trace_of Scenario.failing_run) = [].
Proof.
  assert (out_of Scenario.failing_run
          = Returned (Some "upload failed: open /d/a.txt: permission denied"))
    as Hout.
  { vm_compute. reflexivity. }
  split; [exact Hout|].
  exact (proj1 (error_means_no_delete _ _ _ _ _ _ _ _ _ _ _
                  Scenario.failing_run eq_refl Hout)).
Defined.

(** ** The goroutines *)

Ltac run_goroutine :=
  unfold goroutine, UploadFile, DeleteObject, PutObject,
    bind, log, emit, ret, modify;
  cbn [fst snd app].

Ltac frame_case :=
  repeat split; auto; try (intros; discriminate);
  try (intros ? ?; unfold state_of; cbn;
       first [by rewrite lookup_insert_ne | by rewrite lookup_delete_ne]).

(** One goroutine: it returns, logs its start line first and once, leaves
    the other keys alone and sends at most one request that changes the
    bucket, for the key of its task; its trace does not depend on the
    bucket. *)
Lemma goroutine_run (w : World) (r : R2Client) (dryRun : bool) (t : task)
    (objs : gmap string StoredObject) :
  let run := goroutine w r dryRun t objs in
  out_of run = Returned tt
  /\ head (trace_of run) = Some (startLine r t)
  /\ List.filter is_startLine (trace_of run) = [startLine r t]
  /\ (forall k, k <> keyOfTask t -> state_of run !! k = objs !! k)
  /\ (mutatedKeys (trace_of run) = []
      \/ mutatedKeys (trace_of run) = [keyOfTask t])
  /\ (dryRun = true -> mutatedKeys (trace_of run) = []).
Proof.
  cbv zeta. destruct t as [l k|k]; destruct dryRun; run_goroutine.
  - frame_case.
  - destruct (os_Open w l) as [e|[data stat]]; cbn; [frame_case|].
    destruct stat as [e|size]; cbn; [frame_case|].
    destruct (s3_PutObject w (bucket r) k) as [e|]; cbn; [frame_case|].
    destruct data as [e|data]; cbn; frame_case.
  - frame_case.
  - destruct (s3_DeleteObject w (bucket r) k) as [e|]; cbn; frame_case.
Qed.

(** X6. In a real run the goroutine of an upload either stores the
    contents of the local file under the remote key, with a content type
    that is never empty (the one of [mime], else the one of [fikamime],
    else [application/octet-stream]) and the length that [Stat] gave, and
    logs the upload; or it leaves the bucket as it was and ends with the
    line [upload failed] carrying the error of the open, the [Stat], the
    service or the read. Never both. *)
Theorem upload_stores_or_reports (w : World) (r : R2Client)
    (localPath remoteKey : string) (objs : gmap string StoredObject) :
  let run := goroutine w r false (UploadTask localPath remoteKey) objs in
  let ext := GoPath.Ext localPath in
  (exists data size ctype,
      os_Open w localPath = inr (mkOpenFile (inr data) (inr size))
      /\ s3_PutObject w (bucket r) remoteKey = None
      /\ ctype <> ""
      /\ (mime_TypeByExtension w ext <> "" -> ctype = mime_TypeByExtension w ext)
      /\ (mime_TypeByExtension w ext = "" -> fikamime_TypeByExtension w ext <> "" ->
          ctype = fikamime_TypeByExtension w ext)
      /\ (mime_TypeByExtension w ext = "" -> fikamime_TypeByExtension w ext = "" ->
          ctype = "application/octet-stream")
      /\ state_of run = <[remoteKey := mkStored data ctype]> objs
      /\ trace_of run
         = [EvLog (LogUploading localPath (RemotePath r remoteKey));
            EvOpen localPath;
            EvPutObject (bucket r) remoteKey size ctype;
            EvLog (LogUpload localPath (RemotePath r remoteKey) size)])
  \/ (exists err,
        state_of run = objs
        /\ last (trace_of run)
           = Some (EvLog (LogUploadFailed (RemotePath r remoteKey) err))
        /\ (forall size,
              EvLog (LogUpload localPath (RemotePath r remoteKey) size)
                ∉ trace_of run)
        /\ (os_Open w localPath = inl err
            \/ (exists file, os_Open w localPath = inr file
                  /\ (f_stat file = inl err
                      \/ s3_PutObject w (bucket r) remoteKey = Some err
                      \/ f_data file = inl err)))).
Proof.
  cbv zeta. run_goroutine.
  destruct (os_Open w localPath) as [e|[data stat]] eqn:Hopen; cbn.
  { right. exists e. repeat split; auto.
    intros size Hin. rewrite !elem_of_cons in Hin.
    destruct Hin as [?|[?|[?|?%elem_of_nil]]]; done. }
  destruct stat as [e|size]; cbn.
  { right. exists e. repeat split; eauto 6.
    intros size Hin. rewrite !elem_of_cons in Hin.
    destruct Hin as [?|[?|[?|?%elem_of_nil]]]; done. }
  destruct (s3_PutObject w (bucket r) remoteKey) as [e|] eqn:Hput; cbn.
  { right. exists e. repeat split; eauto 7.
    intros sz Hin. rewrite !elem_of_cons in Hin.
    destruct Hin as [?|[?|[?|[?|?%elem_of_nil]]]]; done. }
  destruct data as [e|data]; cbn.
  { right. exists e. repeat split; eauto 8.
    intros sz Hin. rewrite !elem_of_cons in Hin.
    destruct Hin as [?|[?|[?|[?|?%elem_of_nil]]]]; done. }
  left. eexists data, size, _. split; [reflexivity|]. split; [reflexivity|].
  split; [|split; [|split; [|split; [|split; reflexivity]]]].
  - destruct (mime_TypeByExtension w (GoPath.Ext localPath)) as [|c s];
      cbn; [|discriminate].
    destruct (fikamime_TypeByExtension w (GoPath.Ext localPath)) as [|c s];
      cbn; discriminate.
  - destruct (mime_TypeByExtension w (GoPath.Ext localPath)); cbn; congruence.
  - intros ->. cbn.
    destruct (fikamime_TypeByExtension w (GoPath.Ext localPath)); cbn; congruence.
  - intros -> ->. reflexivity.
Qed.

(** X7. In a real run the goroutine of a delete sends one
    [DeleteObject] for its key; when the service accepts it the key is
    gone from the bucket and the delete is logged; when the service
    refuses it the bucket is as it was and the goroutine ends with the
    line [delete failed] carrying the error. *)
Theorem delete_removes_or_reports (w : World) (r : R2Client) (key : string)
    (objs : gmap string StoredObject) :
  let run := goroutine w r false (DeleteTask key) objs in
  mutatedKeys (trace_of run) = [key]
  /\ (EvDeleteObject (bucket r) key ∈ trace_of run)
  /\ ((s3_DeleteObject w (bucket r) key = None
       /\ state_of run = delete key objs
       /\ state_of run !! key = None
       /\ last (trace_of run) = Some (EvLog (LogDelete (RemotePath r key))))
      \/ (exists err,
            s3_DeleteObject w (bucket r) key = Some err
            /\ state_of run = objs
            /\ last (trace_of run)
               = Some (EvLog (LogDeleteFailed (RemotePath r key) err))
            /\ (EvLog (LogDelete (RemotePath r key)) ∉ trace_of run))).
Proof.
  cbv zeta. run_goroutine.
  destruct (s3_DeleteObject w (bucket r) key) as [e|]; cbn.
  - split; [reflexivity|]. split; [apply elem_of_cons; right; apply elem_of_cons; by left|].
    right. exists e. repeat split; auto.
    intros Hin. rewrite !elem_of_cons in Hin.
    destruct Hin as [?|[?|[?|?%elem_of_nil]]]; done.
  - split; [reflexivity|]. split; [apply elem_of_cons; right; apply elem_of_cons; by left|].
    left. repeat split; auto. unfold state_of; cbn. apply lookup_delete_eq.
Qed.

(** ** A batch of goroutines *)

Lemma runTasks_cons w r dryRun t tasks objs :
  runTasks w r dryRun (t :: tasks) objs
  = (state_of (runTasks w r dryRun tasks (state_of (goroutine w r dryRun t objs))),
     trace_of (goroutine w r dryRun t objs)
       ++ trace_of (runTasks w r dryRun tasks
                      (state_of (goroutine w r dryRun t objs))),
     out_of (runTasks w r dryRun tasks (state_of (goroutine w r dryRun t objs)))).
Proof.
  unfold runTasks. cbn [forEach]. unfold bind at 1.
  pose proof (goroutine_run w r dryRun t objs) as [Hout _]. cbv zeta in Hout.
  destruct (goroutine w r dryRun t objs) as [[st1 ev1] o1].
  change (out_of (st1, ev1, o1)) with o1 in Hout. subst o1.
  change (state_of (st1, ev1, Returned ())) with st1.
  change (trace_of (st1, ev1, Returned ())) with ev1.
  destruct (forEach tasks (goroutine w r dryRun) st1) as [[st2 ev2] o2].
  reflexivity.
Qed.

Lemma runTasks_state w r dryRun t tasks objs :
  state_of (runTasks w r dryRun (t :: tasks) objs)
  = state_of (runTasks w r dryRun tasks (state_of (goroutine w r dryRun t objs))).
Proof. rewrite runTasks_cons. reflexivity. Qed.

Lemma runTasks_trace w r dryRun t tasks objs :
  trace_of (runTasks w r dryRun (t :: tasks) objs)
  = trace_of (goroutine w r dryRun t objs)
      ++ trace_of (runTasks w r dryRun tasks
                     (state_of (goroutine w r dryRun t objs))).
Proof. rewrite runTasks_cons. reflexivity. Qed.

Lemma mutatedKeys_app tr1 tr2 :
  mutatedKeys (tr1 ++ tr2) = mutatedKeys tr1 ++ mutatedKeys tr2.
Proof. unfold mutatedKeys. apply omap_app. Qed.

(** X8. The goroutines of a batch of tasks all run to their end,
    whatever fails in any of them: each logs its start line, once, and a
    failure in one does not keep the next from running. Together they
    leave every key that is not the key of a task as it was, and every
    request that changes the bucket is for the key of a task of the
    batch. *)
Theorem tasks_failure_isolated (w : World) (r : R2Client) (dryRun : bool)
    (tasks : list task) (objs : gmap string StoredObject) :
  let run := runTasks w r dryRun tasks objs in
  out_of run = Returned tt
  /\ List.filter is_startLine (trace_of run) = map (startLine r) tasks
  /\ (forall k, k ∉ map keyOfTask tasks -> state_of run !! k = objs !! k)
  /\ (forall k, k ∈ mutatedKeys (trace_of run) -> k ∈ map keyOfTask tasks).
Proof.
  cbv zeta. revert objs. induction tasks as [|t tasks IH]; intros objs.
  - repeat split; auto.
  - rewrite runTasks_cons.
    change (out_of (?a, ?b, ?c)) with c. change (state_of (?a, ?b, ?c)) with a.
    change (trace_of (?a, ?b, ?c)) with b.
    destruct (goroutine_run w r dryRun t objs)
      as (_ & _ & Hstart & Hframe & Hmut & _). cbv zeta in *.
    destruct (IH (state_of (goroutine w r dryRun t objs)))
      as (Hout' & Hstart' & Hframe' & Hmut').
    split; [exact Hout'|]. split; [|split].
    + rewrite List.filter_app, Hstart, Hstart'. reflexivity.
    + intros k Hk. cbn [map] in Hk. rewrite not_elem_of_cons in Hk.
      destruct Hk as [Hne Hk]. rewrite (Hframe' k Hk). apply Hframe. exact Hne.
    + intros k. rewrite mutatedKeys_app, elem_of_app. cbn [map].
      rewrite elem_of_cons. intros [Hin|Hin].
      * left. destruct Hmut as [Hm|Hm]; rewrite Hm in Hin.
        -- by apply elem_of_nil in Hin.
        -- by apply list_elem_of_singleton in Hin.
      * right. by apply Hmut'.
Qed.

(** What a goroutine does to the bucket and what it logs do not depend on
    what the bucket holds under other keys: two goroutines for different
    keys can run in either order. *)
Lemma goroutine_trace_indep w r dryRun t objs objs' :
  trace_of (goroutine w r dryRun t objs) = trace_of (goroutine w r dryRun t objs').
Proof.
  destruct t as [l k|k]; destruct dryRun; run_goroutine; try reflexivity.
  - destruct (os_Open w l) as [e|[data stat]]; cbn; [reflexivity|].
    destruct stat as [e|size]; cbn; [reflexivity|].
    destruct (s3_PutObject w (bucket r) k) as [e|]; cbn; [reflexivity|].
    destruct data as [e|data]; cbn; reflexivity.
  - destruct (s3_DeleteObject w (bucket r) k) as [e|]; cbn; reflexivity.
Qed.

Lemma goroutine_swap w r dryRun t1 t2 objs :
  keyOfTask t1 <> keyOfTask t2 ->
  state_of (goroutine w r dryRun t2 (state_of (goroutine w r dryRun t1 objs)))
  = state_of (goroutine w r dryRun t1 (state_of (goroutine w r dryRun t2 objs))).
Proof.
  intros Hne.
  destruct t1 as [l1 k1|k1], t2 as [l2 k2|k2]; destruct dryRun;
    cbn [keyOfTask] in Hne; run_goroutine; try reflexivity;
    repeat match goal with
    | |- context [os_Open w ?l] => destruct (os_Open w l) as [?|[[?|?] [?|?]]]; cbn
    | |- context [s3_PutObject w ?b ?k] => destruct (s3_PutObject w b k); cbn
    | |- context [s3_DeleteObject w ?b ?k] => destruct (s3_DeleteObject w b k); cbn
    end;
    unfold state_of; cbn; try reflexivity.
  all: first [ apply insert_insert_ne; congruence
          | apply delete_insert_ne; congruence
          | symmetry; apply delete_insert_ne; congruence
          | apply delete_delete ].
Qed.

Lemma runTasks_trace_indep w r dryRun tasks : forall objs objs',
  trace_of (runTasks w r dryRun tasks objs)
  = trace_of (runTasks w r dryRun tasks objs').
Proof.
  induction tasks as [|t tasks IH]; intros objs objs'; [reflexivity|].
  rewrite !runTasks_trace.
  rewrite (goroutine_trace_indep w r dryRun t objs objs').
  f_equal. apply IH.
Qed.

(** X9. The order in which the goroutines of a batch run does not
    matter when no two of its tasks have the same key: the bucket they
    leave is the same for every order, and so is what they log, up to
    the order of the lines. *)
Theorem tasks_order_irrelevant (w : World) (r : R2Client) (dryRun : bool)
    (tasks tasks' : list task) (objs : gmap string StoredObject) :
  Permutation tasks tasks' ->
  NoDup (map keyOfTask tasks) ->
  state_of (runTasks w r dryRun tasks objs)
  = state_of (runTasks w r dryRun tasks' objs)
  /\ Permutation (trace_of (runTasks w r dryRun tasks objs))
       (trace_of (runTasks w r dryRun tasks' objs)).
Proof.
  intros Hperm. revert objs.
  induction Hperm as [|t l l' Hperm IH|t1 t2 l|l l' l'' Hperm1 IH1 Hperm2 IH2];
    intros objs Hnd.
  - split; reflexivity.
  - rewrite !runTasks_state, !runTasks_trace.
    cbn [map] in Hnd. apply NoDup_cons in Hnd as [_ Hnd].
    destruct (IH (state_of (goroutine w r dryRun t objs)) Hnd) as [Hst Htr].
    split; [exact Hst|]. by apply Permutation_app_head.
  - rewrite !runTasks_state, !runTasks_trace.
    cbn [map] in Hnd. apply NoDup_cons in Hnd as [Hne _].
    rewrite not_elem_of_cons in Hne. destruct Hne as [Hne _].
    rewrite (goroutine_swap w r dryRun t1 t2 objs) by congruence.
    split; [reflexivity|].
    rewrite (goroutine_trace_indep w r dryRun t2
               (state_of (goroutine w r dryRun t1 objs)) objs).
    rewrite (goroutine_trace_indep w r dryRun t1
               (state_of (goroutine w r dryRun t2 objs)) objs).
    rewrite !app_assoc. apply Permutation_app_tail. apply Permutation_app_comm.
  - destruct (IH1 objs Hnd) as [Hst1 Htr1].
    assert (NoDup (map keyOfTask l')) as Hnd'.
    { rewrite <- Hperm1. exact Hnd. }
    destruct (IH2 objs Hnd') as [Hst2 Htr2].
    split; [congruence|]. etransitivity; eassumption.
Qed.

Lemma tasks_order_irrelevant_witness :
  state_of (runTasks (Cases.world Cases.paged ["p/b.txt"] Cases.files)
              Scenario.client false
              [UploadTask "/d/a.txt" "p/a.txt"; DeleteTask "p/b.txt";
               DeleteTask "p/old.txt"] Cases_bucket)
  = state_of (runTasks (Cases.world Cases.paged ["p/b.txt"] Cases.files)
                Scenario.client false
                [DeleteTask "p/old.txt"; UploadTask "/d/a.txt" "p/a.txt";
                 DeleteTask "p/b.txt"] Cases_bucket).
Proof.
  refine (proj1 (tasks_order_irrelevant _ _ _ _ _ _ _ _)).
  - apply Permutation_sym.
    exact (Permutation_cons_append
             [UploadTask "/d/a.txt" "p/a.txt"; DeleteTask "p/b.txt"]
             (DeleteTask "p/old.txt")).
  - refine (bool_decide_unpack _ _). vm_compute. exact I.
Defined.

(** ** The shape of a run of [Sync] *)

(** A run of [Sync] either stops before the gate is made; or stops in
    the walk; or goes through the walk, waits, and runs the delete phase. *)
Lemma Sync_shape w r localPath remotePath deleteSync recursive concurrency
    sizeOnly excludePatterns tree :
  let run := Sync w r localPath remotePath deleteSync recursive concurrency
               sizeOnly excludePatterns tree zeroVars in
  let pre := syncPrefix r remotePath (s3_ListObjectsV2 w (bucket r) remotePath) in
  (trace_of run = pre /\ out_of run <> Returned None)
  \/ exists listed st2 evW oW,
       listResult (s3_ListObjectsV2 w (bucket r) remotePath) ∅ = inr listed
       /\ (concurrency <? 0)%Z = false
       /\ diffAll w localPath remotePath concurrency sizeOnly
            (visits localPath recursive excludePatterns localPath tree)
            (set_remoteFiles listed zeroVars) = (st2, evW, oW)
       /\ ((stopped oW
            /\ trace_of run = pre ++ EvMakeChan concurrency :: evW
            /\ state_of run = st2
            /\ out_of run <> Returned None)
           \/ (exists res, oW = Returned res /\ (forall e, res <> WErr e)
                 /\ trace_of run
                    = pre ++ EvMakeChan concurrency :: evW
                        ++ [EvWait; EvLog (LogFilesUploaded (uploadCount st2))]
                        ++ trace_of (deletePhase deleteSync concurrency st2)
                        ++ closing (out_of (deletePhase deleteSync concurrency st2))
                 /\ state_of run = state_of (deletePhase deleteSync concurrency st2)
                 /\ out_of run
                    = finish (out_of (deletePhase deleteSync concurrency st2)))).
Proof.
  cbv zeta. rewrite Sync_eq. cbv zeta.
  destruct (listResult _ ∅) as [e|listed]; [left; split; [reflexivity|discriminate]|].
  destruct (concurrency <? 0)%Z eqn:Hc; [left; split; [reflexivity|discriminate]|].
  right.
  destruct (diffAll _ _ _ _ _ _ _) as [[st2 evW] oW] eqn:Hdiff.
  exists listed, st2, evW, oW. split; [reflexivity|]. split; [reflexivity|].
  split; [first [reflexivity|exact Hdiff]|].
  destruct oW as [[| |e]|msg|].
  - right. exists WNil. split; [reflexivity|]. split; [discriminate|].
    destruct (deletePhase deleteSync concurrency st2) as [[st3 evD] [[]|msg|]];
      cbn [closing finish out_of trace_of state_of fst snd];
      rewrite ?app_nil_r; repeat split; reflexivity.
  - right. exists WSkipDir. split; [reflexivity|]. split; [discriminate|].
    destruct (deletePhase deleteSync concurrency st2) as [[st3 evD] [[]|msg|]];
      cbn [closing finish out_of trace_of state_of fst snd];
      rewrite ?app_nil_r; repeat split; reflexivity.
  - left. repeat split; try reflexivity. discriminate.
  - left. repeat split; try reflexivity. discriminate.
  - left. repeat split; try reflexivity. discriminate.
Qed.

Lemma spawned_uploads tr :
  deletes tr = [] -> spawned tr = map uploadTask (uploads tr).
Proof.
  induction tr as [|e tr IH]; [reflexivity|].
  destruct e as [| | | | |[l k|k]| | |]; cbn; intros Hd; try (apply IH; exact Hd).
  - f_equal. apply IH. exact Hd.
  - discriminate.
Qed.

Lemma spawned_deletes tr :
  uploads tr = [] -> spawned tr = map DeleteTask (deletes tr).
Proof.
  induction tr as [|e tr IH]; [reflexivity|].
  destruct e as [| | | | |[l k|k]| | |]; cbn; intros Hu; try (apply IH; exact Hu).
  - discriminate.
  - f_equal. apply IH. exact Hu.
Qed.

Lemma uploads_walk_events_none tr :
  forallb (fun e => negb (is_walk_event e)) tr = true -> uploads tr = [].
Proof.
  induction tr as [|e tr IH]; [reflexivity|].
  cbn [forallb]. intros [He Htr]%andb_true_iff.
  destruct e as [| | | | |[]| | |]; try discriminate; cbn; auto.
Qed.

Lemma deletePhase_shape deleteSync concurrency st :
  uploads (trace_of (deletePhase deleteSync concurrency st)) = []
  /\ (EvWait ∉ trace_of (deletePhase deleteSync concurrency st)
      \/ exists keys n,
           trace_of (deletePhase deleteSync concurrency st)
           = EvLog LogStartingDeletion :: map (fun k => EvGo (DeleteTask k)) keys
               ++ [EvWait; EvLog (LogFilesDeleted n)]).
Proof.
  split; [apply deletePhase_no_uploads|].
  rewrite deletePhase_eq. destruct (deleteSync && _).
  - cbv zeta. destruct (concurrency =? 0)%Z.
    + left. intros [?|?%elem_of_nil]%elem_of_cons; [discriminate|done].
    + right. eexists _, _. reflexivity.
  - left. by intros ?%elem_of_nil.
Qed.

(** The trace of a run splits at the first [wg.Wait()]. *)
Lemma Sync_phases
    (w : World) (r : R2Client) (localPath remotePath : string)
    (deleteSync recursive : bool) (concurrency : Z) (sizeOnly : bool)
    (excludePatterns : list string) (tree : node) :
  let run := Sync w r localPath remotePath deleteSync recursive concurrency
               sizeOnly excludePatterns tree zeroVars in
  exists before after,
    trace_of run = before ++ after
    /\ deletes before = [] /\ (EvWait ∉ before)
    /\ uploads after = [] /\ (forall p, EvOpen p ∉ after)
    /\ (after = [] \/ head after = Some EvWait)
    /\ spawned (trace_of run)
       = map uploadTask (uploads (trace_of run))
           ++ map DeleteTask (deletes (trace_of run)).
Proof.
  cbv zeta.
  assert (forall pages, EvWait ∉ syncPrefix r remotePath pages) as Hpre.
  { intros pages Hin. apply prefix_events in Hin as [?|?]; discriminate. }
  assert (forall before after,
            deletes before = [] -> uploads after = [] ->
            spawned (before ++ after)
            = map uploadTask (uploads (before ++ after))
                ++ map DeleteTask (deletes (before ++ after))) as Hsp.
  { intros before after Hd Hu.
    rewrite spawned_app, uploads_app, deletes_app, Hd, Hu, app_nil_r. cbn [app].
    rewrite (spawned_uploads _ Hd), (spawned_deletes _ Hu). reflexivity. }
  destruct (Sync_shape w r localPath remotePath deleteSync recursive concurrency
              sizeOnly excludePatterns tree)
    as [[Htr _]|(listed & st2 & evW & oW & _ & _ & Hdiff & Hcases)];
    cbv zeta in *.
  - exists (trace_of (Sync w r localPath remotePath deleteSync recursive
                        concurrency sizeOnly excludePatterns tree zeroVars)), [].
    rewrite app_nil_r. split; [reflexivity|]. rewrite Htr.
    split; [apply deletes_prefix|]. split; [apply Hpre|].
    split; [reflexivity|]. split; [intros p ?%elem_of_nil; done|].
    split; [by left|].
    rewrite spawned_prefix, uploads_prefix, deletes_prefix. reflexivity.
  - pose proof (diffAll_walk_events w localPath remotePath concurrency sizeOnly
                  (visits localPath recursive excludePatterns localPath tree)
                  (set_remoteFiles listed zeroVars)) as Hwalk.
    rewrite Hdiff in Hwalk. change (trace_of (st2, evW, oW)) with evW in Hwalk.
    assert (deletes (syncPrefix r remotePath
                       (s3_ListObjectsV2 w (bucket r) remotePath)
                     ++ EvMakeChan concurrency :: evW) = []) as Hd.
    { rewrite deletes_app, deletes_prefix. cbn [app].
      change (deletes (EvMakeChan concurrency :: ?t)) with (deletes t).
      by apply deletes_walk_events. }
    assert (EvWait ∉ syncPrefix r remotePath
                       (s3_ListObjectsV2 w (bucket r) remotePath)
                     ++ EvMakeChan concurrency :: evW) as Hw.
    { intros [Hin|[?|Hin]%elem_of_cons]%elem_of_app;
        [by apply Hpre in Hin|discriminate|].
      exact (proj1 (walk_events_no_wait _ Hwalk) Hin). }
    destruct Hcases as [(_ & Htr & _ & _)|(res & _ & _ & Htr & _ & _)].
    + eexists _, []. rewrite app_nil_r. split; [exact Htr|].
      split; [exact Hd|]. split; [exact Hw|]. split; [reflexivity|].
      split; [intros p ?%elem_of_nil; done|]. split; [by left|].
      rewrite Htr. rewrite <- (app_nil_r (_ ++ _ :: evW)) at 1 2 3.
      by apply Hsp.
    + destruct (deletePhase_shape deleteSync concurrency st2) as [Hup _].
      pose proof (deletePhase_no_open deleteSync concurrency st2) as Hopen.
      set (evD := trace_of (deletePhase deleteSync concurrency st2)) in *.
      set (cl := closing (out_of (deletePhase deleteSync concurrency st2))) in *.
      assert (uploads cl = [] /\ forall p, EvOpen p ∉ cl) as [Hcl Hclo].
      { unfold cl. destruct (out_of _) as [[]|msg|]; cbn; split; try reflexivity;
          intros p Hin; rewrite ?elem_of_cons in Hin;
          try (by apply elem_of_nil in Hin).
        destruct Hin as [?|?%elem_of_nil]; [discriminate|done]. }
      exists (syncPrefix r remotePath (s3_ListObjectsV2 w (bucket r) remotePath)
                ++ EvMakeChan concurrency :: evW),
        ([EvWait; EvLog (LogFilesUploaded (uploadCount st2))] ++ evD ++ cl).
      assert (uploads ([EvWait; EvLog (LogFilesUploaded (uploadCount st2))]
                         ++ evD ++ cl) = []) as Hu.
      { rewrite !uploads_app, Hup, Hcl. reflexivity. }
      split; [rewrite Htr, <- app_assoc; reflexivity|].
      split; [exact Hd|]. split; [exact Hw|]. split; [exact Hu|].
      split.
      { intros p. rewrite !elem_of_app, !elem_of_cons.
        intros [[?|[?|?%elem_of_nil]]|[Hin|Hin]]; try discriminate; try done.
        - by apply (Hopen p).
        - by apply (Hclo p). }
      split; [by right|].
      rewrite Htr.
      replace (syncPrefix r remotePath (s3_ListObjectsV2 w (bucket r) remotePath)
                 ++ EvMakeChan concurrency :: evW
                 ++ [EvWait; EvLog (LogFilesUploaded (uploadCount st2))]
                 ++ evD ++ cl)
        with ((syncPrefix r remotePath (s3_ListObjectsV2 w (bucket r) remotePath)
                 ++ EvMakeChan concurrency :: evW)
                ++ [EvWait; EvLog (LogFilesUploaded (uploadCount st2))]
                ++ evD ++ cl)
        by (rewrite <- app_assoc; reflexivity).
      by apply Hsp.
Qed.

(** ** What is uploaded and what is deleted *)

(** Splits the membership of an event in a trace of [Sync] into its
    parts. *)
Ltac split_trace H :=
  repeat match goal with
  | H' : _ \/ _ |- _ => destruct H' as [H'|H']
  | H' : _ ∈ syncPrefix _ _ _ |- _ => apply prefix_events in H'
  | H' : _ ∈ [] |- _ => by apply elem_of_nil in H'
  | H' : _ ∈ _ :: _ |- _ => rewrite elem_of_cons in H'
  | H' : _ ∈ _ ++ _ |- _ => rewrite elem_of_app in H'
  end; try discriminate; try done.


(** X10. In every run of [Sync] the uploads come first and the deletes
    after them: the trace splits at the first [wg.Wait()] into a part
    that starts no delete and a part that starts no upload and opens no
    file, so the tasks of the run are its uploads followed by its
    deletes. A delete is started only after the wait for the uploads. *)
Theorem uploads_then_deletes
    (w : World) (r : R2Client) (localPath remotePath : string)
    (deleteSync recursive : bool) (concurrency : Z) (sizeOnly : bool)
    (excludePatterns : list string) (tree : node) :
  let run := Sync w r localPath remotePath deleteSync recursive concurrency
               sizeOnly excludePatterns tree zeroVars in
  (exists before after,
     trace_of run = before ++ after
     /\ deletes before = [] /\ (EvWait ∉ before)
     /\ uploads after = [] /\ (forall p, EvOpen p ∉ after)
     /\ (after = [] \/ head after = Some EvWait)
     /\ spawned (trace_of run)
        = map uploadTask (uploads (trace_of run))
            ++ map DeleteTask (deletes (trace_of run)))
  /\ (deletes (trace_of run) <> [] -> EvWait ∈ trace_of run).
Proof.
  cbv zeta. split; [apply Sync_phases|].
  destruct (Sync_phases w r localPath remotePath deleteSync recursive concurrency
              sizeOnly excludePatterns tree)
    as (before & after & Htr & Hd & _ & _ & _ & Hhead & _). cbv zeta in *.
  rewrite Htr, deletes_app, Hd. cbn [app]. intros Hne.
  destruct Hhead as [->|Hhead]; [by destruct Hne|].
  destruct after as [|e after]; [discriminate|]. injection Hhead as ->.
  apply elem_of_app. right. apply elem_of_cons. by left.
Qed.

Lemma uploads_then_deletes_witness :
  deletes (trace_of Cases_mixed_run) <> []
  /\ EvWait ∈ trace_of Cases_mixed_run.
Proof.
  assert (deletes (trace_of Cases_mixed_run) <> []) as Hne.
  { vm_compute. discriminate. }
  split; [exact Hne|].
  exact (proj2 (uploads_then_deletes Cases_mixed_world Scenario.client "/d" "p"
                  true true 5 true [] Cases.tree) Hne).
Defined.


Lemma Sync_uploads_visits w r localPath remotePath deleteSync recursive
    concurrency sizeOnly excludePatterns tree l k :
  (l, k) ∈ uploads (trace_of
    (Sync w r localPath remotePath deleteSync recursive concurrency sizeOnly
       excludePatterns tree zeroVars)) ->
  k = remoteKeyOf localPath remotePath l
  /\ exists size,
       inr (l, size) ∈ visits localPath recursive excludePatterns localPath tree.
Proof.
  intros [st Hin]%Sync_uploads. eapply diffAll_uploads. exact Hin.
Qed.

Lemma filesOf_elem vs l size :
  (l, size) ∈ filesOf vs <-> inr (l, size) ∈ vs.
Proof.
  unfold filesOf. rewrite list_elem_of_omap. split.
  - intros ([e|c] & Hin & Heq); [discriminate|]. by injection Heq as ->.
  - intros Hin. exists (inr (l, size)). split; [exact Hin|reflexivity].
Qed.

Lemma claimed_elem localPath remotePath cs l size :
  (l, size) ∈ cs -> remoteKeyOf localPath remotePath l ∈ claimed localPath remotePath cs.
Proof.
  intros Hin. unfold claimed. apply list_elem_of_fmap.
  exists (l, size). split; [reflexivity|exact Hin].
Qed.

Lemma deletePhase_deletes deleteSync concurrency st k :
  k ∈ deletes (trace_of (deletePhase deleteSync concurrency st)) ->
  deleteSync = true /\ is_Some (remoteFiles st !! k).
Proof.
  rewrite deletePhase_eq. destruct deleteSync; cbn [andb];
    [|by intros ?%elem_of_nil].
  destruct (0 <? size (remoteFiles st))%nat; [|by intros ?%elem_of_nil].
  cbv zeta. destruct (concurrency =? 0)%Z; change (trace_of (?a, ?b, ?c)) with b.
  - by intros ?%elem_of_nil.
  - change (deletes (EvLog LogStartingDeletion :: ?tr)) with (deletes tr).
    rewrite deletes_app, deletes_spawned, app_nil_r.
    intros ([k' info] & -> & Hin)%list_elem_of_fmap.
    apply elem_of_map_to_list in Hin. split; [reflexivity|]. by exists info.
Qed.

(** The deletes of any run are for keys that were listed and that no
    candidate of the walk has claimed. *)
Lemma Sync_deletes_unclaimed w r localPath remotePath deleteSync recursive
    concurrency sizeOnly excludePatterns tree k :
  k ∈ deletes (trace_of
    (Sync w r localPath remotePath deleteSync recursive concurrency sizeOnly
       excludePatterns tree zeroVars)) ->
  deleteSync = true
  /\ (k ∉ claimed localPath remotePath
            (candidates localPath recursive excludePatterns localPath tree))
  /\ exists listed,
       listResult (s3_ListObjectsV2 w (bucket r) remotePath) ∅ = inr listed
       /\ is_Some (listed !! k).
Proof.
  destruct (Sync_shape w r localPath remotePath deleteSync recursive concurrency
              sizeOnly excludePatterns tree)
    as [[Htr _]|(listed & st2 & evW & oW & Hlisted & _ & Hdiff & Hcases)];
    cbv zeta in *.
  { rewrite Htr, deletes_prefix. by intros ?%elem_of_nil. }
  pose proof (diffAll_walk_events w localPath remotePath concurrency sizeOnly
                (visits localPath recursive excludePatterns localPath tree)
                (set_remoteFiles listed zeroVars)) as Hwalk.
  rewrite Hdiff in Hwalk. change (trace_of (st2, evW, oW)) with evW in Hwalk.
  apply deletes_walk_events in Hwalk.
  destruct Hcases as [(_ & Htr & _ & _)|(res & -> & Hres & Htr & _ & _)];
    rewrite Htr, deletes_app, deletes_prefix; cbn [app];
    change (deletes (EvMakeChan concurrency :: ?t)) with (deletes t).
  { rewrite Hwalk. by intros ?%elem_of_nil. }
  rewrite deletes_app, Hwalk. cbn [app].
  change (deletes (EvWait :: EvLog ?m :: ?tr)) with (deletes tr).
  rewrite deletes_app.
  assert (deletes (closing (out_of (deletePhase deleteSync concurrency st2))) = [])
    as ->.
  { destruct (out_of _) as [[]|msg|]; reflexivity. }
  rewrite app_nil_r. intros [Hds Hsome]%deletePhase_deletes.
  pose proof (diffAll_claims w localPath remotePath concurrency sizeOnly
                (visits localPath recursive excludePatterns localPath tree)
                (set_remoteFiles listed zeroVars) res) as Hclaims.
  rewrite Hdiff in Hclaims. specialize (Hclaims eq_refl Hres).
  change (state_of (st2, evW, Returned res)) with st2 in Hclaims.
  cbn [set_remoteFiles remoteFiles] in Hclaims.
  rewrite Hclaims, foldl_delete_lookup in Hsome.
  fold (candidates localPath recursive excludePatterns localPath tree) in Hsome.
  split; [exact Hds|]. case_decide as Hin.
  - by destruct Hsome.
  - split; [exact Hin|]. exists listed. split; [exact Hlisted|exact Hsome].
Qed.

(** X11. No run of [Sync] deletes a key that it uploads to, or the key
    of any file that reached the diff step: the keys it deletes were
    listed and are the remote key of no candidate, and the keys it
    uploads to are remote keys of candidates. *)
Theorem uploaded_keys_not_deleted
    (w : World) (r : R2Client) (localPath remotePath : string)
    (deleteSync recursive : bool) (concurrency : Z) (sizeOnly : bool)
    (excludePatterns : list string) (tree : node) :
  let run := Sync w r localPath remotePath deleteSync recursive concurrency
               sizeOnly excludePatterns tree zeroVars in
  let claims := claimed localPath remotePath
                  (candidates localPath recursive excludePatterns localPath tree) in
  (forall l k, (l, k) ∈ uploads (trace_of run) ->
     k = remoteKeyOf localPath remotePath l /\ k ∈ claims)
  /\ (forall k, k ∈ deletes (trace_of run) -> k ∉ claims)
  /\ (forall l k, (l, k) ∈ uploads (trace_of run) -> k ∉ deletes (trace_of run)).
Proof.
  cbv zeta.
  assert (forall l k,
            (l, k) ∈ uploads (trace_of
              (Sync w r localPath remotePath deleteSync recursive concurrency
                 sizeOnly excludePatterns tree zeroVars)) ->
            k = remoteKeyOf localPath remotePath l
            /\ k ∈ claimed localPath remotePath
                     (candidates localPath recursive excludePatterns localPath tree))
    as Hup.
  { intros l k (-> & size & Hin)%Sync_uploads_visits. split; [reflexivity|].
    apply (claimed_elem _ _ _ l size). unfold candidates.
    by apply filesOf_elem. }
  split; [exact Hup|]. split.
  - intros k Hin. by apply Sync_deletes_unclaimed in Hin as (_ & Hnin & _).
  - intros l k [_ Hin]%Hup Hdel.
    by apply Sync_deletes_unclaimed in Hdel as (_ & Hnin & _).
Qed.

Lemma uploaded_keys_not_deleted_witness :
  ("/d/sub/b.txt", "p/sub/b.txt") ∈ uploads (trace_of Cases_mixed_run)
  /\ "p/sub/b.txt" ∉ deletes (trace_of Cases_mixed_run).
Proof.
  assert (("/d/sub/b.txt", "p/sub/b.txt") ∈ uploads (trace_of Cases_mixed_run))
    as Hin.
  { apply list_elem_of_In. vm_compute. tauto. }
  split; [exact Hin|].
  exact (proj2 (proj2 (uploaded_keys_not_deleted Cases_mixed_world
                         Scenario.client "/d" "p" true true 5 true []
                         Cases.tree)) _ _ Hin).
Defined.


(** ** The local paths of a run *)

Lemma visits_paths localPath recursive excludePatterns n :
  forall path l size,
    inr (l, size) ∈ visits localPath recursive excludePatterns path n ->
    contains l GoPath.backslash = false
    /\ shouldExclude l excludePatterns = false
    /\ (recursive = false -> GoPath.Dir l = localPath).
Proof.
  induction n as [sz|entries IH|e|e] using node_nested_ind;
    intros path l size Hin; cbn [visits] in Hin.
  - destruct (passes _ _ _ _) eqn:Hpass; [|by apply elem_of_nil in Hin].
    apply list_elem_of_singleton in Hin. injection Hin as -> ->.
    unfold passes in Hpass. apply andb_true_iff in Hpass as [Hex Hdir].
    split; [apply ReplaceAll_contains; discriminate|].
    split; [by apply negb_true_iff in Hex|].
    intros ->. cbn [orb] in Hdir. by apply String.eqb_eq in Hdir.
  - destruct (passes _ _ _ _); [|by apply elem_of_nil in Hin].
    apply list_elem_of_In, in_flat_map in Hin as ([name child] & Hentry & Hin).
    rewrite Forall_forall in IH.
    eapply (IH (name, child)); apply list_elem_of_In; eassumption.
  - apply list_elem_of_singleton in Hin. discriminate.
  - apply list_elem_of_singleton in Hin. discriminate.
Qed.

Lemma hashed_opens sizeOnly inventory fullpath key p :
  EvOpen p ∈ hashed sizeOnly inventory fullpath key -> p = fullpath.
Proof.
  unfold hashed. destruct (inventory !! key); [|by intros ?%elem_of_nil].
  destruct sizeOnly; [by intros ?%elem_of_nil|].
  intros Hin%list_elem_of_singleton. congruence.
Qed.

Lemma diffAll_opens w localPath remotePath concurrency sizeOnly vs : forall st p,
  EvOpen p ∈ trace_of (diffAll w localPath remotePath concurrency sizeOnly vs st) ->
  exists size, inr (p, size) ∈ vs.
Proof.
  induction vs as [|[e|[fullpath size]] vs IH]; intros st p Hin.
  - by apply elem_of_nil in Hin.
  - by apply elem_of_nil in Hin.
  - rewrite diffAll_cons in Hin. cbv zeta in Hin.
    assert (EvOpen p ∈ hashed sizeOnly (remoteFiles st) fullpath
                         (remoteKeyOf localPath remotePath fullpath) ->
            exists size', inr (p, size') ∈ inr (fullpath, size) :: vs) as Hhead.
    { intros ->%hashed_opens. exists size. apply elem_of_cons. by left. }
    assert (forall st', EvOpen p ∈ trace_of
              (diffAll w localPath remotePath concurrency sizeOnly vs st') ->
            exists size', inr (p, size') ∈ inr (fullpath, size) :: vs) as Htail.
    { intros st' [size' Hin']%IH. exists size'. apply elem_of_cons. by right. }
    destruct (needs _ _ _ _ _ _) as [e|[|]];
      change (trace_of (?a, ?b, ?c)) with b in Hin.
    + by apply Hhead.
    + destruct (concurrency =? 0)%Z; change (trace_of (?a, ?b, ?c)) with b in Hin;
        [by apply Hhead|].
      rewrite !elem_of_app in Hin. destruct Hin as [[Hin|Hin]|Hin].
      * by apply Hhead.
      * apply list_elem_of_singleton in Hin. discriminate.
      * by eapply Htail.
    + rewrite elem_of_app in Hin. destruct Hin as [Hin|Hin];
        [by apply Hhead|by eapply Htail].
Qed.

(** X12. Every local path that [Sync] opens for a fingerprint or hands
    to an upload is a path rewritten by [normalizePath]: it holds no
    backslash, so on a system where a backslash is part of a name a file
    with one in its path is never opened under its own path. Such a path
    is also not excluded by the patterns, and without recursion its
    [path.Dir] is the source path as given. *)
Theorem local_paths_normalized
    (w : World) (r : R2Client) (localPath remotePath : string)
    (deleteSync recursive : bool) (concurrency : Z) (sizeOnly : bool)
    (excludePatterns : list string) (tree : node) (p : string) :
  let run := Sync w r localPath remotePath deleteSync recursive concurrency
               sizeOnly excludePatterns tree zeroVars in
  EvOpen p ∈ trace_of run \/ (exists k, EvGo (UploadTask p k) ∈ trace_of run) ->
  contains p GoPath.backslash = false
  /\ shouldExclude p excludePatterns = false
  /\ (recursive = false -> GoPath.Dir p = localPath).
Proof.
  cbv zeta. intros Hin.
  assert (exists size,
            inr (p, size) ∈ visits localPath recursive excludePatterns localPath tree)
    as [size Hvis]; [|by eapply visits_paths].
  destruct Hin as [Hopen|[k Hgo]].
  - destruct (Sync_shape w r localPath remotePath deleteSync recursive concurrency
                sizeOnly excludePatterns tree)
      as [[Htr _]|(listed & st2 & evW & oW & _ & _ & Hdiff & Hcases)];
      cbv zeta in *.
    { rewrite Htr in Hopen. apply prefix_events in Hopen as [?|?]; discriminate. }
    assert (EvOpen p ∈ evW) as HinW.
    { destruct Hcases as [(_ & Htr & _ & _)|(res & _ & _ & Htr & _ & _)];
        rewrite Htr in Hopen; split_trace Hopen.
      - by apply deletePhase_no_open in Hopen.
      - destruct (out_of _) as [[]|msg|]; cbn in Hopen; split_trace Hopen. }
    eapply diffAll_opens. rewrite Hdiff. exact HinW.
  - assert ((p, k) ∈ uploads (trace_of
              (Sync w r localPath remotePath deleteSync recursive concurrency
                 sizeOnly excludePatterns tree zeroVars))) as Hup.
    { unfold uploads. apply list_elem_of_omap.
      exists (EvGo (UploadTask p k)). split; [exact Hgo|reflexivity]. }
    by apply Sync_uploads_visits in Hup as [_ Hup].
Qed.

Lemma local_paths_normalized_witness :
  EvGo (UploadTask "/d/a.txt" "p/a.txt") ∈ trace_of Scenario.early_run
  /\ contains "/d/a.txt" GoPath.backslash = false.
Proof.
  assert (EvGo (UploadTask "/d/a.txt" "p/a.txt") ∈ trace_of Scenario.early_run)
    as Hin.
  { apply list_elem_of_In. vm_compute. tauto. }
  split; [exact Hin|].
  exact (proj1 (local_paths_normalized _ _ _ _ _ _ _ _ _ _ _
                  (or_intror (ex_intro _ "p/a.txt" Hin)))).
Defined.

Lemma needs_unlisted w sizeOnly inventory fullpath size key :
  inventory !! key = None ->
  needs w sizeOnly inventory fullpath size key = inr true.
Proof. intros Hnone. unfold needs. rewrite Hnone. reflexivity. Qed.

(** A file whose key is not, or no longer, in the inventory when its
    turn comes is uploaded. *)
Lemma diffAll_uploads_unlisted w localPath remotePath concurrency sizeOnly before :
  forall st l size after res,
    out_of (diffAll w localPath remotePath concurrency sizeOnly
              (before ++ inr (l, size) :: after) st) = Returned res ->
    (forall e, res <> WErr e) ->
    remoteFiles st !! remoteKeyOf localPath remotePath l = None
    \/ remoteKeyOf localPath remotePath l
       ∈ claimed localPath remotePath (filesOf before) ->
    (l, remoteKeyOf localPath remotePath l)
    ∈ uploads (trace_of (diffAll w localPath remotePath concurrency sizeOnly
                           (before ++ inr (l, size) :: after) st)).
Proof.
  induction before as [|[e|[f sz]] before IH];
    intros st l size after res Hout Hres Hkey.
  - cbn [app] in *. destruct Hkey as [Hnone|Hin]; [|by apply elem_of_nil in Hin].
    rewrite diffAll_cons in *. cbv zeta in *.
    rewrite (needs_unlisted _ _ _ _ _ _ Hnone) in *.
    destruct (concurrency =? 0)%Z; [discriminate|].
    change (trace_of (?a, ?b, ?c)) with b.
    rewrite !uploads_app, uploads_hashed. cbn. apply elem_of_cons. by left.
  - cbn in Hout. injection Hout as <-. by destruct (Hres e).
  - cbn [app] in *. rewrite diffAll_cons in *. cbv zeta in *.
    cbn [filesOf omap claimed map fst] in Hkey.
    assert (forall st',
              remoteFiles st'
              = delete (remoteKeyOf localPath remotePath f) (remoteFiles st) ->
              remoteFiles st' !! remoteKeyOf localPath remotePath l = None
              \/ remoteKeyOf localPath remotePath l
                 ∈ claimed localPath remotePath (filesOf before)) as Hnext.
    { intros st' ->. destruct Hkey as [Hnone|[Heq|Hin]%elem_of_cons].
      - left. apply lookup_delete_None. by right.
      - left. rewrite Heq. apply lookup_delete_eq.
      - by right. }
    destruct (needs _ _ _ _ _ _) as [e|[|]];
      change (out_of (?a, ?b, ?c)) with c in Hout;
      change (trace_of (?a, ?b, ?c)) with b.
    + injection Hout as <-. by destruct (Hres e).
    + destruct (concurrency =? 0)%Z;
        change (out_of (?a, ?b, ?c)) with c in Hout; [discriminate|].
      change (trace_of (?a, ?b, ?c)) with b.
      rewrite !uploads_app. apply elem_of_app. right.
      eapply IH; [exact Hout|exact Hres|]. by apply Hnext.
    + rewrite uploads_app. apply elem_of_app. right.
      eapply IH; [exact Hout|exact Hres|]. by apply Hnext.
Qed.

(** The uploads of a run that got as far as the walk are those of its
    walk. *)
Lemma Sync_uploads_eq w r localPath remotePath deleteSync recursive concurrency
    sizeOnly excludePatterns tree listed :
  listResult (s3_ListObjectsV2 w (bucket r) remotePath) ∅ = inr listed ->
  (concurrency <? 0)%Z = false ->
  uploads (trace_of
    (Sync w r localPath remotePath deleteSync recursive concurrency sizeOnly
       excludePatterns tree zeroVars))
  = uploads (trace_of
      (diffAll w localPath remotePath concurrency sizeOnly
         (visits localPath recursive excludePatterns localPath tree)
         (set_remoteFiles listed zeroVars))).
Proof.
  intros Hlisted Hc.
  destruct (Sync_shape w r localPath remotePath deleteSync recursive concurrency
              sizeOnly excludePatterns tree)
    as [[Htr Hout]|(listed' & st2 & evW & oW & Hlisted' & _ & Hdiff & Hcases)];
    cbv zeta in *.
  - exfalso. revert Htr Hout. rewrite Sync_eq. cbv zeta. rewrite Hlisted, Hc.
    change (trace_of (?a, ?b, ?c)) with b.
    destruct (diffAll _ _ _ _ _ _ _) as [[st2 evW] [[| |e]|msg|]];
      try destruct (deletePhase deleteSync concurrency st2)
        as [[st3 evD] [[]|msg'|]];
      change (trace_of (?a, ?b, ?c)) with b;
      intros Htr _; apply (f_equal length) in Htr;
      rewrite length_app in Htr; cbn in Htr; lia.
  - rewrite Hlisted in Hlisted'. injection Hlisted' as <-. rewrite Hdiff.
    change (trace_of (st2, evW, oW)) with evW.
    destruct Hcases as [(_ & Htr & _ & _)|(res & _ & _ & Htr & _ & _)];
      rewrite Htr, uploads_app, uploads_prefix; cbn [app];
      change (uploads (EvMakeChan concurrency :: ?t)) with (uploads t);
      [reflexivity|].
    rewrite uploads_app. cbn [app].
    change (uploads (EvWait :: EvLog ?m :: ?tr)) with (uploads tr).
    rewrite uploads_app, deletePhase_no_uploads.
    assert (uploads (closing (out_of (deletePhase deleteSync concurrency st2))) = [])
      as ->.
    { destruct (out_of _) as [[]|msg|]; reflexivity. }
    rewrite app_nil_r. reflexivity.
Qed.

(** X13. In a run of [Sync] that returns nil, a file that reaches the
    diff step is uploaded whenever its remote key was not listed, and also
    whenever an earlier file of the walk had the same remote key: the
    first of them removes the key from the inventory, so the later one
    finds it missing and is uploaded without being compared. *)
Theorem unlisted_or_repeated_key_uploaded
    (w : World) (r : R2Client) (localPath remotePath : string)
    (deleteSync recursive : bool) (concurrency : Z) (sizeOnly : bool)
    (excludePatterns : list string) (tree : node)
    (listed : gmap string FileInfo)
    (before after : list (error + string * Z)) (l : string) (size : Z) :
  let run := Sync w r localPath remotePath deleteSync recursive concurrency
               sizeOnly excludePatterns tree zeroVars in
  out_of run = Returned None ->
  listResult (s3_ListObjectsV2 w (bucket r) remotePath) ∅ = inr listed ->
  visits localPath recursive excludePatterns localPath tree
    = before ++ inr (l, size) :: after ->
  listed !! remoteKeyOf localPath remotePath l = None
  \/ remoteKeyOf localPath remotePath l
     ∈ claimed localPath remotePath (filesOf before) ->
  (l, remoteKeyOf localPath remotePath l) ∈ uploads (trace_of run).
Proof.
  cbv zeta. intros Hout Hlisted Hvis Hkey.
  destruct (Sync_returns_nil _ _ _ _ _ _ _ _ _ _ _ Hlisted Hout)
    as (st2 & evW & res & Hdiff & Hres & _ & _).
  assert ((concurrency <? 0)%Z = false) as Hc.
  { revert Hout. rewrite Sync_eq. cbv zeta. rewrite Hlisted.
    destruct (concurrency <? 0)%Z; [discriminate|reflexivity]. }
  rewrite (Sync_uploads_eq _ _ _ _ _ _ _ _ _ _ _ Hlisted Hc).
  rewrite Hvis in *.
  eapply diffAll_uploads_unlisted; [rewrite Hdiff; reflexivity|exact Hres|].
  exact Hkey.
Qed.

Lemma unlisted_or_repeated_key_uploaded_witness :
  ("/d/sub/b.txt", "p/sub/b.txt") ∈ uploads (trace_of Cases_repeated_run).
Proof.
  refine (unlisted_or_repeated_key_uploaded Cases_repeated_world Scenario.client
            "/d" "p" false true 5 true [] Cases_repeated_tree
            (listResult_value Cases_repeated_pages)
            [inr ("/d/sub/b.txt", 1%Z)] [] "/d/sub/b.txt" 7 _ _ _ _).
  - vm_compute. reflexivity.
  - vm_compute. reflexivity.
  - vm_compute. reflexivity.
  - right. apply list_elem_of_In. vm_compute. tauto.
Defined.

(** ** The counts *)

Lemma int_wrap_small z :
  (- 2 ^ 63 <= z < 2 ^ 63)%Z -> int_wrap z = z.
Proof.
  intros Hz. unfold int_wrap. rewrite Z.mod_small by lia. lia.
Qed.

Lemma iter_count n (z : Z) :
  (0 <= z)%Z -> (z + Z.of_nat n < 2 ^ 63)%Z ->
  Nat.iter n (fun c => int_wrap (c + 1)) z = (z + Z.of_nat n)%Z.
Proof.
  revert z. induction n as [|n IH]; intros z Hz Hn.
  - cbn. lia.
  - rewrite Nat.iter_succ_r, IH; [|rewrite int_wrap_small; lia..].
    rewrite int_wrap_small; lia.
Qed.

Lemma diffAll_counts w localPath remotePath concurrency sizeOnly vs :
  forall st res,
    out_of (diffAll w localPath remotePath concurrency sizeOnly vs st)
      = Returned res ->
    uploadCount (state_of (diffAll w localPath remotePath concurrency sizeOnly vs st))
    = Nat.iter
        (length (uploads (trace_of
           (diffAll w localPath remotePath concurrency sizeOnly vs st))))
        (fun c => int_wrap (c + 1)) (uploadCount st)
    /\ deleteCount
         (state_of (diffAll w localPath remotePath concurrency sizeOnly vs st))
       = deleteCount st.
Proof.
  induction vs as [|[e|[fullpath size]] vs IH]; intros st res Hout.
  - split; reflexivity.
  - split; reflexivity.
  - rewrite diffAll_cons in *. cbv zeta in *.
    destruct (needs _ _ _ _ _ _) as [e|[|]];
      change (out_of (?a, ?b, ?c)) with c in Hout;
      change (trace_of (?a, ?b, ?c)) with b;
      change (state_of (?a, ?b, ?c)) with a.
    + rewrite uploads_hashed. split; reflexivity.
    + destruct (concurrency =? 0)%Z;
        change (out_of (?a, ?b, ?c)) with c in Hout; [discriminate|].
      change (trace_of (?a, ?b, ?c)) with b;
      change (state_of (?a, ?b, ?c)) with a.
      destruct (IH _ _ Hout) as [Hu Hd]. rewrite Hu, Hd.
      rewrite !uploads_app, uploads_hashed.
      change (uploads [EvGo (UploadTask ?f ?k)]) with [(f, k)].
      cbn [app length]. split; [|reflexivity].
      rewrite Nat.iter_succ_r. reflexivity.
    + destruct (IH _ _ Hout) as [Hu Hd]. rewrite Hu, Hd.
      rewrite uploads_app, uploads_hashed. split; reflexivity.
Qed.

Lemma iter_incr_deleteCount_count n st :
  deleteCount (Nat.iter n incr_deleteCount st)
  = Nat.iter n (fun c => int_wrap (c + 1)) (deleteCount st).
Proof.
  induction n as [|n IH]; [reflexivity|].
  rewrite !Nat.iter_succ. cbn [incr_deleteCount deleteCount].
  rewrite IH. reflexivity.
Qed.

(** X14. The numbers that [Sync] logs are the numbers of goroutines it
    has started, not of transfers that succeeded: the line [files
    uploaded] carries the number of uploads started, the line [files
    deleted] the number of deletes started (as long as they fit Go's
    [int]); a run that returns nil logs the first of them, and the
    second only when it has started a delete. *)
Theorem logged_counts
    (w : World) (r : R2Client) (localPath remotePath : string)
    (deleteSync recursive : bool) (concurrency : Z) (sizeOnly : bool)
    (excludePatterns : list string) (tree : node) :
  let run := Sync w r localPath remotePath deleteSync recursive concurrency
               sizeOnly excludePatterns tree zeroVars in
  (forall n, EvLog (LogFilesUploaded n) ∈ trace_of run ->
     (Z.of_nat (length (uploads (trace_of run))) < 2 ^ 63)%Z ->
     n = Z.of_nat (length (uploads (trace_of run))))
  /\ (forall n, EvLog (LogFilesDeleted n) ∈ trace_of run ->
        (Z.of_nat (length (deletes (trace_of run))) < 2 ^ 63)%Z ->
        n = Z.of_nat (length (deletes (trace_of run)))
        /\ deletes (trace_of run) <> [])
  /\ (out_of run = Returned None ->
        exists n, EvLog (LogFilesUploaded n) ∈ trace_of run).
Proof.
  cbv zeta.
  destruct (Sync_shape w r localPath remotePath deleteSync recursive concurrency
              sizeOnly excludePatterns tree)
    as [[Htr Hout]|(listed & st2 & evW & oW & Hlisted & Hc & Hdiff & Hcases)];
    cbv zeta in *.
  { rewrite Htr. split; [|split].
    - intros n Hin. split_trace Hin.
    - intros n Hin. split_trace Hin.
    - intros Hnil. by destruct Hout. }
  pose proof (diffAll_walk_events w localPath remotePath concurrency sizeOnly
                (visits localPath recursive excludePatterns localPath tree)
                (set_remoteFiles listed zeroVars)) as Hwalk.
  rewrite Hdiff in Hwalk. change (trace_of (st2, evW, oW)) with evW in Hwalk.
  assert (forall m, EvLog m ∉ evW) as HnoLog.
  { intros m Hin. apply (forallb_elem _ _ _ Hwalk) in Hin. discriminate. }
  destruct Hcases as [(_ & Htr & _ & Hout)|(res & -> & Hres & Htr & _ & Hout)].
  { rewrite Htr. split; [|split].
    - intros n Hin. split_trace Hin. by apply HnoLog in Hin.
    - intros n Hin. split_trace Hin. by apply HnoLog in Hin.
    - intros Hnil. by destruct Hout. }
  pose proof (diffAll_counts w localPath remotePath concurrency sizeOnly
                (visits localPath recursive excludePatterns localPath tree)
                (set_remoteFiles listed zeroVars) res) as Hcount.
  rewrite Hdiff in Hcount. destruct (Hcount eq_refl) as [Hup Hdel].
  change (state_of (st2, evW, Returned res)) with st2 in Hup, Hdel.
  change (trace_of (st2, evW, Returned res)) with evW in Hup.
  cbn [set_remoteFiles uploadCount deleteCount zeroVars] in Hup, Hdel.
  assert (uploads (trace_of
            (Sync w r localPath remotePath deleteSync recursive concurrency
               sizeOnly excludePatterns tree zeroVars)) = uploads evW) as Hups.
  { rewrite (Sync_uploads_eq _ _ _ _ _ _ _ _ _ _ _ Hlisted Hc), Hdiff.
    reflexivity. }
  assert (deletes (trace_of
            (Sync w r localPath remotePath deleteSync recursive concurrency
               sizeOnly excludePatterns tree zeroVars))
          = deletes (trace_of (deletePhase deleteSync concurrency st2))) as Hdels.
  { rewrite Htr, deletes_app, deletes_prefix. cbn [app].
    change (deletes (EvMakeChan concurrency :: ?t)) with (deletes t).
    rewrite deletes_app, (deletes_walk_events _ Hwalk). cbn [app].
    change (deletes (EvWait :: EvLog ?m :: ?tr)) with (deletes tr).
    rewrite deletes_app.
    assert (deletes (closing (out_of (deletePhase deleteSync concurrency st2))) = [])
      as ->.
    { destruct (out_of _) as [[]|msg|]; reflexivity. }
    apply app_nil_r. }
  rewrite Hups, Hdels.
  assert (forall n, EvLog (LogFilesUploaded n)
                      ∉ trace_of (deletePhase deleteSync concurrency st2)
                        ++ closing (out_of (deletePhase deleteSync concurrency st2)))
    as HnoUp.
  { intros n. rewrite deletePhase_eq. destruct (deleteSync && _); cbv zeta;
      [destruct (concurrency =? 0)%Z|];
      cbn [trace_of out_of closing fst snd app]; intros Hin; split_trace Hin.
    by apply list_elem_of_fmap in Hin as (k & ? & _). }
  split; [|split].
  - intros n Hin Hsmall. rewrite Htr in Hin.
    rewrite elem_of_app in Hin. destruct Hin as [Hin|Hin]; [split_trace Hin|].
    apply elem_of_cons in Hin as [?|Hin]; [discriminate|].
    rewrite elem_of_app in Hin. destruct Hin as [Hin|Hin];
      [by apply HnoLog in Hin|].
    cbn [app] in Hin.
    apply elem_of_cons in Hin as [?|Hin]; [discriminate|].
    apply elem_of_cons in Hin as [Heq|Hin]; [|by apply HnoUp in Hin].
    injection Heq as ->. rewrite Hup. rewrite iter_count; lia.
  - intros n Hin. rewrite Htr in Hin.
    rewrite elem_of_app in Hin. destruct Hin as [Hin|Hin]; [split_trace Hin|].
    apply elem_of_cons in Hin as [?|Hin]; [discriminate|].
    rewrite elem_of_app in Hin. destruct Hin as [Hin|Hin];
      [by apply HnoLog in Hin|].
    cbn [app] in Hin.
    apply elem_of_cons in Hin as [?|Hin]; [discriminate|].
    apply elem_of_cons in Hin as [?|Hin]; [discriminate|].
    revert Hin. rewrite deletePhase_eq.
    destruct (deleteSync && _) eqn:Hds; cbv zeta;
      [destruct (concurrency =? 0)%Z|];
      cbn [trace_of out_of closing fst snd app]; intros Hin;
      try (split_trace Hin; fail).
    apply andb_true_iff in Hds as [_ Hsize].
    apply map_to_list_nonempty in Hsize.
    change (deletes (EvLog LogStartingDeletion :: ?tr)) with (deletes tr).
    rewrite deletes_app, deletes_spawned, app_nil_r.
    intros Hsmall. split; [|exact Hsize].
    split_trace Hin.
    + by apply list_elem_of_fmap in Hin as (k & ? & _).
    + injection Hin as ->. rewrite iter_incr_deleteCount_count, Hdel.
      rewrite iter_count; lia.
  - intros _. exists (uploadCount st2). rewrite Htr.
    apply elem_of_app. right. apply elem_of_cons. right.
    apply elem_of_app. right. apply elem_of_cons. right.
    apply elem_of_cons. by left.
Qed.

Lemma logged_counts_witness :
  EvLog (LogFilesUploaded 1) ∈ trace_of Cases_mixed_run
  /\ 1%Z = Z.of_nat (length (uploads (trace_of Cases_mixed_run))).
Proof.
  assert (EvLog (LogFilesUploaded 1) ∈ trace_of Cases_mixed_run) as Hin.
  { apply list_elem_of_In. vm_compute. tauto. }
  split; [exact Hin|].
  refine (proj1 (logged_counts Cases_mixed_world Scenario.client "/d" "p"
                   true true 5 true [] Cases.tree) 1%Z Hin _).
  vm_compute. reflexivity.
Defined.


(** ** The bucket after a run *)

Lemma runTasks_app w r dryRun tasks1 tasks2 : forall objs,
  state_of (runTasks w r dryRun (tasks1 ++ tasks2) objs)
  = state_of (runTasks w r dryRun tasks2
                (state_of (runTasks w r dryRun tasks1 objs)))
  /\ trace_of (runTasks w r dryRun (tasks1 ++ tasks2) objs)
     = trace_of (runTasks w r dryRun tasks1 objs)
         ++ trace_of (runTasks w r dryRun tasks2
                        (state_of (runTasks w r dryRun tasks1 objs))).
Proof.
  induction tasks1 as [|t tasks1 IH]; intros objs; [split; reflexivity|].
  cbn [app]. rewrite !runTasks_state, !runTasks_trace.
  destruct (IH (state_of (goroutine w r dryRun t objs))) as [-> ->].
  split; [reflexivity|]. by rewrite app_assoc.
Qed.

Lemma runTasks_frame w r dryRun tasks : forall objs k,
  k ∉ map keyOfTask tasks ->
  state_of (runTasks w r dryRun tasks objs) !! k = objs !! k.
Proof.
  induction tasks as [|t tasks IH]; intros objs k Hk; [reflexivity|].
  cbn [map] in Hk. rewrite not_elem_of_cons in Hk. destruct Hk as [Hne Hk].
  rewrite runTasks_state, (IH _ _ Hk).
  by apply (goroutine_run w r dryRun t objs).
Qed.

Lemma upload_keeps w r dryRun l k objs k' :
  is_Some (objs !! k') ->
  is_Some (state_of (goroutine w r dryRun (UploadTask l k) objs) !! k').
Proof.
  intros Hsome. destruct dryRun; run_goroutine; [exact Hsome|].
  destruct (os_Open w l) as [e|[data stat]]; cbn; [exact Hsome|].
  destruct stat as [e|size]; cbn; [exact Hsome|].
  destruct (s3_PutObject w (bucket r) k) as [e|]; cbn; [exact Hsome|].
  destruct data as [e|data]; cbn; [exact Hsome|].
  unfold state_of; cbn. destruct (decide (k' = k)) as [->|Hne].
  - rewrite lookup_insert_eq. eauto.
  - by rewrite lookup_insert_ne.
Qed.

Lemma uploads_keep w r dryRun ups : forall objs k',
  is_Some (objs !! k') ->
  is_Some (state_of (runTasks w r dryRun (map uploadTask ups) objs) !! k').
Proof.
  induction ups as [|[l k] ups IH]; intros objs k' Hsome; [exact Hsome|].
  cbn [map]. rewrite runTasks_state. apply IH.
  apply upload_keeps. exact Hsome.
Qed.

Lemma uploads_no_delete_request w r dryRun ups : forall objs b k,
  EvDeleteObject b k ∉ trace_of (runTasks w r dryRun (map uploadTask ups) objs).
Proof.
  induction ups as [|[l k] ups IH]; intros objs b k'.
  - by intros ?%elem_of_nil.
  - cbn [map]. rewrite runTasks_trace. rewrite elem_of_app.
    intros [Hin|Hin]; [|by apply IH in Hin].
    revert Hin. unfold uploadTask; cbn [fst snd].
    destruct dryRun; run_goroutine.
    { cbn. intros Hin. split_trace Hin. }
    destruct (os_Open w l) as [e|[data stat]]; cbn;
      [intros Hin; split_trace Hin|].
    destruct stat as [e|size]; cbn; [intros Hin; split_trace Hin|].
    destruct (s3_PutObject w (bucket r) k) as [e|]; cbn;
      [intros Hin; split_trace Hin|].
    destruct data as [e|data]; cbn; intros Hin; split_trace Hin.
Qed.

Lemma Sync_no_delete w r localPath remotePath recursive concurrency sizeOnly
    excludePatterns tree :
  deletes (trace_of
    (Sync w r localPath remotePath false recursive concurrency sizeOnly
       excludePatterns tree zeroVars)) = [].
Proof.
  destruct (deletes _) as [|k ks] eqn:Hd; [reflexivity|].
  assert (k ∈ deletes (trace_of
            (Sync w r localPath remotePath false recursive concurrency sizeOnly
               excludePatterns tree zeroVars))) as Hin.
  { rewrite Hd. apply elem_of_cons. by left. }
  apply Sync_deletes_unclaimed in Hin as [? _]. discriminate.
Qed.

(** X15. Without [--delete] a run only adds to the bucket: whatever its
    goroutines do, in a dry run or not, every key the bucket had is still
    there afterwards, every object under a key the run did not upload to
    is untouched, and no [DeleteObject] request is sent. *)
Theorem without_delete_bucket_only_grows
    (w : World) (r : R2Client) (localPath remotePath : string)
    (dryRun recursive : bool) (concurrency : Z) (sizeOnly : bool)
    (excludePatterns : list string) (tree : node)
    (objs : gmap string StoredObject) :
  let res := SyncRun w r localPath remotePath false dryRun recursive concurrency
               sizeOnly excludePatterns tree objs in
  (forall k, is_Some (objs !! k) -> is_Some (res.1.2 !! k))
  /\ (forall k, k ∉ (uploads (trace_of res.1.1)).*2 -> res.1.2 !! k = objs !! k)
  /\ (forall b k, EvDeleteObject b k ∉ res.2).
Proof.
  cbv zeta. unfold SyncRun. cbn [fst snd].
  destruct (Sync_phases w r localPath remotePath false recursive concurrency
              sizeOnly excludePatterns tree)
    as (_ & _ & _ & _ & _ & _ & _ & _ & Hsp). cbv zeta in Hsp.
  rewrite Sync_no_delete in Hsp. cbn [map] in Hsp. rewrite app_nil_r in Hsp.
  rewrite Hsp. fold (runTasks w r dryRun). split; [|split].
  - intros k. apply uploads_keep.
  - intros k Hk. apply runTasks_frame.
    intros Hin. apply Hk.
    apply list_elem_of_fmap in Hin as (t & Heq & Hin).
    apply list_elem_of_fmap in Hin as (u & -> & Hin).
    apply list_elem_of_fmap. exists u. split; [exact Heq|exact Hin].
  - intros b k. apply uploads_no_delete_request.
Qed.

(** What a goroutine that logs no failure does to the keys of the
    bucket in a real run. *)
Lemma goroutine_dom_ok w r t objs (k' : string) :
  forallb (fun e => negb (is_failure e)) (trace_of (goroutine w r false t objs))
    = true ->
  is_Some (state_of (goroutine w r false t objs) !! k')
  <-> match t with
      | UploadTask _ k => k' = k \/ is_Some (objs !! k')
      | DeleteTask k => k' <> k /\ is_Some (objs !! k')
      end.
Proof.
  destruct t as [l k|k]; run_goroutine.
  - destruct (os_Open w l) as [e|[data stat]]; cbn; [discriminate|].
    destruct stat as [e|size]; cbn; [discriminate|].
    destruct (s3_PutObject w (bucket r) k) as [e|]; cbn; [discriminate|].
    destruct data as [e|data]; cbn; [discriminate|]. intros _.
    unfold state_of; cbn. destruct (decide (k' = k)) as [->|Hne].
    + rewrite lookup_insert_eq. split; eauto.
    + rewrite lookup_insert_ne by congruence. split; [by right|].
      intros [?|?]; [congruence|assumption].
  - destruct (s3_DeleteObject w (bucket r) k) as [e|]; cbn; [discriminate|].
    intros _. unfold state_of; cbn. destruct (decide (k' = k)) as [->|Hne].
    + rewrite lookup_delete_eq. split; [by intros [? ?]|by intros [? _]].
    + rewrite lookup_delete_ne by congruence. split; [by split|by intros [_ ?]].
Qed.

Lemma runTasks_uploads_ok w r ups : forall objs (k' : string),
  forallb (fun e => negb (is_failure e))
    (trace_of (runTasks w r false (map uploadTask ups) objs)) = true ->
  is_Some (state_of (runTasks w r false (map uploadTask ups) objs) !! k')
  <-> k' ∈ ups.*2 \/ is_Some (objs !! k').
Proof.
  induction ups as [|[l k] ups IH]; intros objs k' Hok.
  - cbn. split; [by right|]. intros [?%elem_of_nil|?]; done.
  - cbn [map fmap list_fmap] in *. rewrite runTasks_trace, forallb_app in Hok.
    apply andb_true_iff in Hok as [Hok1 Hok2].
    rewrite runTasks_state, (IH _ _ Hok2).
    unfold uploadTask in *; cbn [fst snd] in *.
    rewrite (goroutine_dom_ok _ _ _ _ _ Hok1), elem_of_cons. tauto.
Qed.

Lemma runTasks_deletes_ok w r ks : forall objs (k' : string),
  forallb (fun e => negb (is_failure e))
    (trace_of (runTasks w r false (map DeleteTask ks) objs)) = true ->
  is_Some (state_of (runTasks w r false (map DeleteTask ks) objs) !! k')
  <-> (k' ∉ ks) /\ is_Some (objs !! k').
Proof.
  induction ks as [|k ks IH]; intros objs k' Hok.
  - cbn. split; [intros ?; split; [apply not_elem_of_nil|done]|by intros [_ ?]].
  - cbn [map] in *. rewrite runTasks_trace, forallb_app in Hok.
    apply andb_true_iff in Hok as [Hok1 Hok2].
    rewrite runTasks_state, (IH _ _ Hok2).
    rewrite (goroutine_dom_ok _ _ _ _ _ Hok1), not_elem_of_cons. tauto.
Qed.

(** The deletes of a run that returns nil with [--delete]. *)
Lemma Sync_deletes_all w r localPath remotePath recursive concurrency sizeOnly
    excludePatterns tree listed k :
  listResult (s3_ListObjectsV2 w (bucket r) remotePath) ∅ = inr listed ->
  out_of (Sync w r localPath remotePath true recursive concurrency sizeOnly
            excludePatterns tree zeroVars) = Returned None ->
  is_Some (listed !! k) ->
  k ∉ claimed localPath remotePath
        (candidates localPath recursive excludePatterns localPath tree) ->
  k ∈ deletes (trace_of
    (Sync w r localPath remotePath true recursive concurrency sizeOnly
       excludePatterns tree zeroVars)).
Proof.
  intros Hlisted Hout [info Hinfo] Hnin.
  destruct (Sync_returns_nil _ _ _ _ _ _ _ _ _ _ _ Hlisted Hout)
    as (st2 & evW & res & Hdiff & Hres & Hdel & ->).
  pose proof (diffAll_walk_events w localPath remotePath concurrency sizeOnly
                (visits localPath recursive excludePatterns localPath tree)
                (set_remoteFiles listed zeroVars)) as Hwalk.
  pose proof (diffAll_claims w localPath remotePath concurrency sizeOnly
                (visits localPath recursive excludePatterns localPath tree)
                (set_remoteFiles listed zeroVars) res) as Hclaims.
  rewrite Hdiff in Hwalk, Hclaims.
  specialize (Hclaims eq_refl Hres).
  change (state_of (st2, evW, Returned res)) with st2 in Hclaims.
  cbn [set_remoteFiles remoteFiles] in Hclaims.
  destruct (deletePhase_returned _ _ _ _ Hdel) as [_ Hdeletes].
  change (trace_of (?a, ?b, ?c)) with b.
  rewrite deletes_app. apply elem_of_app. right.
  change (deletes (EvMakeChan concurrency :: ?tr)) with (deletes tr).
  rewrite deletes_app. apply elem_of_app. right.
  change (deletes ([EvWait; EvLog ?m] ++ ?tr)) with (deletes tr).
  rewrite deletes_app. apply elem_of_app. left.
  rewrite Hdeletes, Hclaims. apply list_elem_of_fmap.
  exists (k, info). split; [reflexivity|].
  apply elem_of_map_to_list. rewrite foldl_delete_lookup.
  fold (candidates localPath recursive excludePatterns localPath tree).
  rewrite decide_False by exact Hnin. exact Hinfo.
Qed.

(** X16. A run with [--delete] makes the bucket mirror the local tree.
    When the listing shows the keys that the bucket holds, [Sync] returns
    nil and no goroutine logs a failure, then afterwards the keys of the
    bucket are exactly the remote keys of the files that reached the diff
    step, and the objects the run uploaded nothing to are the ones that
    were there before. *)
Theorem sync_mirrors_candidates
    (w : World) (r : R2Client) (localPath remotePath : string)
    (recursive : bool) (concurrency : Z) (sizeOnly : bool)
    (excludePatterns : list string) (tree : node)
    (listed : gmap string FileInfo) (objs : gmap string StoredObject) :
  let res := SyncRun w r localPath remotePath true false recursive concurrency
               sizeOnly excludePatterns tree objs in
  let claims := claimed localPath remotePath
                  (candidates localPath recursive excludePatterns localPath tree) in
  out_of res.1.1 = Returned None ->
  listResult (s3_ListObjectsV2 w (bucket r) remotePath) ∅ = inr listed ->
  (forall k, is_Some (listed !! k) <-> is_Some (objs !! k)) ->
  forallb (fun e => negb (is_failure e)) res.2 = true ->
  (forall k, is_Some (res.1.2 !! k) <-> k ∈ claims)
  /\ (forall k, k ∈ claims -> k ∉ (uploads (trace_of res.1.1)).*2 ->
        res.1.2 !! k = objs !! k /\ is_Some (objs !! k)).
Proof.
  cbv zeta. unfold SyncRun. cbn [fst snd]. fold (runTasks w r false).
  intros Hout Hlisted Hdom Hok.
  destruct (Sync_phases w r localPath remotePath true recursive concurrency
              sizeOnly excludePatterns tree)
    as (_ & _ & _ & _ & _ & _ & _ & _ & Hsp). cbv zeta in Hsp.
  set (run := Sync w r localPath remotePath true recursive concurrency
                sizeOnly excludePatterns tree zeroVars) in *.
  set (claims := claimed localPath remotePath
                   (candidates localPath recursive excludePatterns localPath tree)).
  rewrite Hsp in *.
  change (forEach ?t (goroutine w r false) ?o) with (runTasks w r false t o) in *.
  destruct (runTasks_app w r false (map uploadTask (uploads (trace_of run)))
              (map DeleteTask (deletes (trace_of run))) objs) as [Hst Htr].
  rewrite Hst. rewrite Htr, forallb_app in Hok.
  apply andb_true_iff in Hok as [Hok1 Hok2].
  assert (forall k, k ∈ (uploads (trace_of run)).*2 -> k ∈ claims) as Hup.
  { intros k ([l k'] & -> & Hin)%list_elem_of_fmap. cbn [snd].
    apply Sync_uploads_visits in Hin as (-> & size & Hin).
    apply (claimed_elem _ _ _ l size). by apply filesOf_elem. }
  assert (forall k, k ∈ deletes (trace_of run) ->
            is_Some (listed !! k) /\ k ∉ claims) as Hdel.
  { intros k Hin. apply Sync_deletes_unclaimed in Hin
      as (_ & Hnin & listed' & Hlisted' & Hsome).
    rewrite Hlisted in Hlisted'. injection Hlisted' as <-. by split. }
  assert (forall k, k ∈ claims -> is_Some (listed !! k)
                                  \/ k ∈ (uploads (trace_of run)).*2) as Hnew.
  { intros k Hin. destruct (listed !! k) as [info|] eqn:Hk; [left; eauto|right].
    apply list_elem_of_fmap in Hin as ([l size] & -> & Hin). cbn [fst] in *.
    apply filesOf_elem in Hin.
    apply list_elem_of_split in Hin as (before & after & Hvis).
    apply list_elem_of_fmap. exists (l, remoteKeyOf localPath remotePath l).
    split; [reflexivity|].
    destruct (Sync_returns_nil _ _ _ _ _ _ _ _ _ _ _ Hlisted Hout)
      as (st2 & evW & res & Hdiff & Hres & _ & _).
    assert ((concurrency <? 0)%Z = false) as Hc.
    { revert Hout. unfold run. rewrite Sync_eq. cbv zeta. rewrite Hlisted.
      destruct (concurrency <? 0)%Z; [discriminate|reflexivity]. }
    unfold run. rewrite (Sync_uploads_eq _ _ _ _ _ _ _ _ _ _ _ Hlisted Hc).
    rewrite Hvis in *.
    eapply diffAll_uploads_unlisted; [rewrite Hdiff; reflexivity|exact Hres|].
    left. exact Hk. }
  split.
  - intros k. rewrite (runTasks_deletes_ok _ _ _ _ _ Hok2).
    rewrite (runTasks_uploads_ok _ _ _ _ _ Hok1). split.
    + intros [Hnd [Hin|Hsome]]; [by apply Hup|].
      destruct (decide (k ∈ claims)) as [Hc|Hc]; [exact Hc|].
      exfalso. apply Hnd. apply (Sync_deletes_all _ _ _ _ _ _ _ _ _ _ _ Hlisted Hout).
      * by apply Hdom.
      * exact Hc.
    + intros Hin. split.
      * intros Hd. by apply Hdel in Hd as [_ ?].
      * destruct (Hnew _ Hin) as [Hsome|Hu]; [right; by apply Hdom|by left].
  - intros k Hin Hnu. split.
    + rewrite runTasks_frame.
      * apply runTasks_frame. intros Hk. apply Hnu.
        apply list_elem_of_fmap in Hk as (t & -> & Hk).
        apply list_elem_of_fmap in Hk as (u & -> & Hk).
        apply list_elem_of_fmap. exists u. split; [reflexivity|exact Hk].
      * intros Hk. apply list_elem_of_fmap in Hk as (t & -> & Hk).
        apply list_elem_of_fmap in Hk as (k' & -> & Hk). cbn [keyOfTask] in *.
        by apply Hdel in Hk as [_ ?].
    + destruct (Hnew _ Hin) as [Hsome|Hu]; [by apply Hdom|done].
Qed.

Lemma sync_mirrors_candidates_witness :
  is_Some
    ((SyncRun Scenario.stale_world Scenario.client "/d" "p" true false true 5
        true [] Scenario.stale_tree Cases_stale_bucket).1.2 !! "p/a.txt")
  /\ (SyncRun Scenario.stale_world Scenario.client "/d" "p" true false true 5
        true [] Scenario.stale_tree Cases_stale_bucket).1.2 !! "p/old.txt" = None.
Proof.
  pose proof (sync_mirrors_candidates Scenario.stale_world Scenario.client
                "/d" "p" true 5 true [] Scenario.stale_tree
                (remoteFiles (Scenario.inventory Scenario.stale_objs))
                Cases_stale_bucket) as Hmirror.
  cbv zeta in Hmirror.
  destruct Hmirror as [Hkeys _].
  - vm_compute. reflexivity.
  - vm_compute. reflexivity.
  - intros k. rewrite <- !elem_of_dom.
    assert (dom (remoteFiles (Scenario.inventory Scenario.stale_objs))
            = dom Cases_stale_bucket) as ->; [|reflexivity].
    refine (bool_decide_unpack _ _). vm_compute. exact I.
  - vm_compute. reflexivity.
  - split.
    + apply Hkeys. apply list_elem_of_In. vm_compute. tauto.
    + apply eq_None_not_Some. intros Hsome. apply Hkeys in Hsome.
      apply list_elem_of_In in Hsome. vm_compute in Hsome. intuition discriminate.
Defined.

(** ** A tree that the bucket already mirrors *)

Lemma needs_same w sizeOnly inventory fullpath size key info :
  inventory !! key = Some info ->
  Size info = size ->
  sizeOnly = true \/ fingerprint w fullpath = inr (ETag info) ->
  needs w sizeOnly inventory fullpath size key = inr false
  /\ spawned (hashed sizeOnly inventory fullpath key) = [].
Proof.
  intros Hinfo <- Hsame. unfold needs, hashed. rewrite Hinfo, Z.eqb_refl.
  destruct sizeOnly; [split; reflexivity|].
  destruct Hsame as [? | ->]; [discriminate|]. rewrite String.eqb_refl.
  split; reflexivity.
Qed.

Lemma diffAll_same w localPath remotePath concurrency sizeOnly vs : forall st,
  (forall e, inl e ∉ vs) ->
  NoDup (claimed localPath remotePath (filesOf vs)) ->
  (forall l size, inr (l, size) ∈ vs ->
     exists info,
       remoteFiles st !! remoteKeyOf localPath remotePath l = Some info
       /\ Size info = size
       /\ (sizeOnly = true \/ fingerprint w l = inr (ETag info))) ->
  out_of (diffAll w localPath remotePath concurrency sizeOnly vs st)
    = Returned WNil
  /\ spawned (trace_of (diffAll w localPath remotePath concurrency sizeOnly vs st))
     = []
  /\ uploadCount (state_of (diffAll w localPath remotePath concurrency sizeOnly vs st))
     = uploadCount st.
Proof.
  induction vs as [|[e|[fullpath size]] vs IH]; intros st Hfiles Hnd Hsame.
  - repeat split.
  - exfalso. apply (Hfiles e). apply elem_of_cons. by left.
  - rewrite diffAll_cons. cbv zeta.
    destruct (Hsame fullpath size) as (info & Hinfo & Hsize & Hfp);
      [apply elem_of_cons; by left|].
    destruct (needs_same w sizeOnly _ fullpath size _ info Hinfo Hsize Hfp)
      as [-> Hh].
    change (out_of (?a, ?b, ?c)) with c. change (trace_of (?a, ?b, ?c)) with b.
    change (state_of (?a, ?b, ?c)) with a.
    change (claimed localPath remotePath (filesOf (inr (fullpath, size) :: vs)))
      with (remoteKeyOf localPath remotePath fullpath
              :: claimed localPath remotePath (filesOf vs)) in Hnd.
    apply NoDup_cons in Hnd as [Hfresh Hnd].
    destruct (IH (delete_remoteFile (remoteKeyOf localPath remotePath fullpath) st))
      as (Hout & Hsp & Hcount).
    + intros e Hin. apply (Hfiles e). apply elem_of_cons. by right.
    + exact Hnd.
    + intros l sz Hin.
      destruct (Hsame l sz) as (info' & Hinfo' & Hrest);
        [apply elem_of_cons; by right|].
      exists info'. split; [|exact Hrest].
      cbn [delete_remoteFile remoteFiles]. rewrite lookup_delete_ne; [exact Hinfo'|].
      intros Heq. apply Hfresh. rewrite Heq.
      apply (claimed_elem _ _ _ l sz). by apply filesOf_elem.
    + split; [exact Hout|]. split; [|exact Hcount].
      rewrite spawned_app, Hh, Hsp. reflexivity.
Qed.

(** X17. A run over a tree that the bucket already mirrors starts
    nothing. When every entry of the tree can be examined, no two files
    have the same remote key, every file that reaches the diff step is
    listed under its key with its size and (unless only sizes count) its
    fingerprint, and every listed key is the key of such a file or
    [--delete] is off, then [Sync] starts no goroutine, logs that 0 files
    were uploaded and returns nil; this even holds with [--concurrency
    0], since the gate is never used. *)
Theorem mirrored_tree_starts_nothing
    (w : World) (r : R2Client) (localPath remotePath : string)
    (deleteSync recursive : bool) (concurrency : Z) (sizeOnly : bool)
    (excludePatterns : list string) (tree : node)
    (listed : gmap string FileInfo) :
  let run := Sync w r localPath remotePath deleteSync recursive concurrency
               sizeOnly excludePatterns tree zeroVars in
  let vs := visits localPath recursive excludePatterns localPath tree in
  (0 <= concurrency)%Z ->
  listResult (s3_ListObjectsV2 w (bucket r) remotePath) ∅ = inr listed ->
  (forall e, inl e ∉ vs) ->
  NoDup (claimed localPath remotePath (filesOf vs)) ->
  (forall l size, inr (l, size) ∈ vs ->
     exists info,
       listed !! remoteKeyOf localPath remotePath l = Some info
       /\ Size info = size
       /\ (sizeOnly = true \/ fingerprint w l = inr (ETag info))) ->
  deleteSync = false
  \/ (forall k, is_Some (listed !! k) ->
        k ∈ claimed localPath remotePath (filesOf vs)) ->
  out_of run = Returned None
  /\ spawned (trace_of run) = []
  /\ (EvLog (LogFilesUploaded 0) ∈ trace_of run).
Proof.
  cbv zeta. intros Hc Hlisted Hfiles Hnd Hsame Hdel.
  destruct (diffAll_same w localPath remotePath concurrency sizeOnly _
              (set_remoteFiles listed zeroVars) Hfiles Hnd Hsame)
    as (Hout & Hsp & Hcount).
  pose proof (diffAll_claims w localPath remotePath concurrency sizeOnly
                (visits localPath recursive excludePatterns localPath tree)
                (set_remoteFiles listed zeroVars) WNil Hout) as Hclaims.
  rewrite Sync_eq. cbv zeta. rewrite Hlisted.
  assert ((concurrency <? 0)%Z = false) as -> by (apply Z.ltb_ge; lia).
  destruct (diffAll _ _ _ _ _ _ _) as [[st2 evW] oW].
  change (out_of (st2, evW, oW)) with oW in Hout. subst oW.
  change (trace_of (st2, evW, _)) with evW in Hsp.
  change (state_of (st2, evW, _)) with st2 in Hcount, Hclaims.
  cbn [set_remoteFiles remoteFiles uploadCount zeroVars] in Hcount, Hclaims.
  specialize (Hclaims ltac:(discriminate)).
  assert (deletePhase deleteSync concurrency st2 = (st2, [], Returned tt)) as ->.
  { rewrite deletePhase_eq. destruct Hdel as [->|Hdel]; [reflexivity|].
    assert (remoteFiles st2 = ∅) as ->.
    { rewrite Hclaims. apply map_eq. intros k.
      rewrite foldl_delete_lookup, lookup_empty. case_decide as Hin; [reflexivity|].
      destruct (listed !! k) as [info|] eqn:Hk; [|reflexivity].
      exfalso. apply Hin, Hdel. rewrite Hk. eauto. }
    rewrite map_size_empty. cbn. rewrite andb_false_r. reflexivity. }
  change (out_of (?a, ?b, ?c)) with c. change (trace_of (?a, ?b, ?c)) with b.
  split; [reflexivity|]. rewrite Hcount. split.
  - rewrite spawned_app, spawned_prefix. cbn [app].
    change (spawned (EvMakeChan concurrency :: ?t)) with (spawned t).
    rewrite spawned_app, Hsp. reflexivity.
  - apply elem_of_app. right. apply elem_of_cons. right.
    apply elem_of_app. right. apply elem_of_cons. right.
    apply elem_of_cons. by left.
Qed.

Lemma mirrored_tree_starts_nothing_witness :
  out_of (Sync Cases_same_world Scenario.client "/d" "p" true true 0 false []
            Cases.tree zeroVars) = Returned None
  /\ spawned (trace_of (Sync Cases_same_world Scenario.client "/d" "p" true true
                          0 false [] Cases.tree zeroVars)) = [].
Proof.
  pose proof (mirrored_tree_starts_nothing Cases_same_world Scenario.client
                "/d" "p" true true 0 false [] Cases.tree
                (listResult_value Cases_same_pages)) as Hsame.
  cbv zeta in Hsame. destruct Hsame as (Hout & Hsp & _).
  - lia.
  - vm_compute. reflexivity.
  - intros e Hin. apply list_elem_of_In in Hin. vm_compute in Hin.
    intuition discriminate.
  - refine (bool_decide_unpack _ _). vm_compute. exact I.
  - intros l size Hin. apply list_elem_of_In in Hin. vm_compute in Hin.
    destruct Hin as [Heq|[Heq|[]]]; injection Heq as <- <-.
    + exists (mkFileInfo "p/a.txt" 1 0 Scenario.etag_x).
      split; [vm_compute; reflexivity|]. split; [reflexivity|].
      right. vm_compute. reflexivity.
    + exists (mkFileInfo "p/sub/b.txt" 1 0
                (dquote +:+ Scenario.digest "a" +:+ dquote)).
      split; [vm_compute; reflexivity|]. split; [reflexivity|].
      right. vm_compute. reflexivity.
  - right. intros k Hsome. apply elem_of_dom in Hsome.
    assert (dom (listResult_value Cases_same_pages)
            = list_to_set (claimed "/d" "p"
                (filesOf (visits "/d" true [] "/d" Cases.tree)))) as Hdom.
    { refine (bool_decide_unpack _ _). vm_compute. exact I. }
    rewrite Hdom in Hsome. by apply elem_of_list_to_set in Hsome.
  - split; [exact Hout|exact Hsp].
Defined.

(** ** The gate: termination and the empty gate *)

Module GateRunFacts.
Import Gate GateRun.

Lemma stepsLeft_step N e s s' : step N e s s' -> stepsLeft s = S (stepsLeft s').
Proof.
  intros Hstep. destruct Hstep; unfold stepsLeft;
    cbn [main gs mainLeft length map list_sum stageLeft snd];
    rewrite ?map_app, ?list_sum_app; cbn [map stageLeft snd];
    repeat change (list_sum (?x :: ?l)) with (x + list_sum l); lia.
Qed.

Lemma stepsLeft_nsteps N e n : forall s s',
  nsteps (step N e) n s s' -> stepsLeft s = n + stepsLeft s'.
Proof.
  induction n as [|n IH]; intros s s' Hn.
  - inversion Hn; subst. reflexivity.
  - inversion Hn as [|? ? s1 ? Hstep Hrest]; subst.
    rewrite (stepsLeft_step _ _ _ _ Hstep), (IH _ _ Hrest). lia.
Qed.

Lemma completes N e tasks : forall k s,
  1 <= N ->
  stepsLeft s <= k ->
  rtc (step N e) (init tasks) s ->
  exists s', rtc (step N e) s s' /\ left s'.
Proof.
  induction k as [|k IH]; intros s HN Hk Hreach.
  - exists s. split; [apply rtc_refl|].
    unfold left. unfold stepsLeft in Hk.
    destruct (main s) as [todo|t todo|t todo| |];
      cbn [mainLeft] in Hk; try lia; [left|right]; reflexivity.
  - assert (left s \/ (main s <> Passed /\ main s <> LeftEarly)) as [Hl|[Hnp Hnl]].
    { unfold left. destruct (main s); auto; right; split; discriminate. }
    { exists s. split; [apply rtc_refl|exact Hl]. }
    destruct (GateFacts.progress N e tasks s HN Hreach Hnp Hnl) as [s1 Hstep].
    destruct (IH s1 HN) as (s' & Hrest & Hleft).
    + pose proof (stepsLeft_step _ _ _ _ Hstep). lia.
    + eapply rtc_r; eassumption.
    + exists s'. split; [|exact Hleft]. eapply rtc_l; eassumption.
Qed.

End GateRunFacts.

(** X18. With at least one slot a phase cannot deadlock and cannot run
    for ever: every step uses up one of the steps that are left, of
    which there are [6 * n + 1] for [n] tasks at the start, so every
    execution is finite; and from every state that the phase can reach
    the main goroutine can still get out of the phase, through
    [wg.Wait()] or the early return. *)
Theorem gate_always_completes (N : nat) (e : Gate.ending) (tasks : list task)
    (s : Gate.state) :
  1 <= N ->
  rtc (Gate.step N e) (Gate.init tasks) s ->
  GateRun.stepsLeft (Gate.init tasks) = 6 * length tasks + 1
  /\ (forall n s', nsteps (Gate.step N e) n s s' ->
        GateRun.stepsLeft s = n + GateRun.stepsLeft s')
  /\ (exists s', rtc (Gate.step N e) s s' /\ GateRun.left s')
  /\ (~ GateRun.left s -> exists s', Gate.step N e s s').
Proof.
  intros HN Hreach. split; [|split; [|split]].
  - unfold GateRun.stepsLeft. cbn. lia.
  - intros n s'. apply GateRunFacts.stepsLeft_nsteps.
  - eapply GateRunFacts.completes; [exact HN|reflexivity|exact Hreach].
  - intros Hnot. apply (GateFacts.progress N e tasks s HN Hreach).
    + intros Hp. apply Hnot. by left.
    + intros Hl. apply Hnot. by right.
Qed.

Lemma gate_always_completes_witness :
  exists s',
    rtc (Gate.step 1 Gate.ThenWait)
      (Gate.init [UploadTask "/d/a.txt" "p/a.txt"; DeleteTask "p/old.txt"]) s'
    /\ GateRun.left s'.
Proof.
  exact (proj1 (proj2 (proj2
           (gate_always_completes 1 Gate.ThenWait
              [UploadTask "/d/a.txt" "p/a.txt"; DeleteTask "p/old.txt"]
              _ (le_n 1) (rtc_refl _ _))))).
Defined.

(** X19. A gate without a slot lets nothing through: with capacity 0
    and at least one task, the only states a phase can reach are its
    start and the state after the first [wg.Add(1)], where the send
    waits for ever; no goroutine is started and the main goroutine never
    leaves the phase. *)
Theorem gate_without_slot_stuck (e : Gate.ending) (t : task) (todo : list task)
    (s : Gate.state) :
  rtc (Gate.step 0 e) (Gate.init (t :: todo)) s ->
  (s = Gate.init (t :: todo) \/ s = Gate.mkState (Gate.Added t todo) 0 1 [] [])
  /\ Gate.gs s = [] /\ Gate.ended s = []
  /\ ~ GateRun.left s
  /\ (s = Gate.mkState (Gate.Added t todo) 0 1 [] [] ->
      forall s', ~ Gate.step 0 e s s').
Proof.
  intros Hreach.
  assert (s = Gate.init (t :: todo)
          \/ s = Gate.mkState (Gate.Added t todo) 0 1 [] []) as Hs.
  { revert s Hreach. apply rtc_ind_r; [by left|].
    intros y z _ Hstep [->| ->]; inversion Hstep; subst;
      try (by right); try lia;
      match goal with
      | H : [] = ?l1 ++ _ :: _ |- _ => destruct l1; discriminate H
      | H : ?l1 ++ _ :: _ = [] |- _ => destruct l1; discriminate H
      end. }
  split; [exact Hs|].
  destruct Hs as [->| ->]; cbn; (split; [reflexivity|]); (split; [reflexivity|]);
    (split; [intros [?|?]; discriminate|]).
  - discriminate.
  - intros _ s' Hstep. inversion Hstep; subst; try lia;
      match goal with
      | H : [] = ?l1 ++ _ :: _ |- _ => destruct l1; discriminate H
      | H : ?l1 ++ _ :: _ = [] |- _ => destruct l1; discriminate H
      end.
Qed.

Lemma gate_without_slot_stuck_witness :
  ~ GateRun.left (Gate.mkState (Gate.Added (DeleteTask "p/old.txt") []) 0 1 [] []).
Proof.
  refine (proj1 (proj2 (proj2 (proj2
            (gate_without_slot_stuck Gate.ThenWait (DeleteTask "p/old.txt") []
               _ _))))).
  eapply rtc_l; [apply Gate.step_add|]. apply rtc_refl.
Defined.

(** ** The [--exclude] flag *)

Lemma Split_no_sep s sep : contains s sep = false -> Split s sep = [s].
Proof.
  induction s as [|c s IH]; [reflexivity|]. cbn [contains Split].
  intros [Hc Hs]%orb_false_iff. rewrite Hc, (IH Hs). reflexivity.
Qed.

Lemma Split_app_sep s sep rest :
  contains s sep = false ->
  Split (s +:+ String sep rest) sep = s :: Split rest sep.
Proof.
  induction s as [|c s IH]; cbn [contains].
  - intros _. change ("" +:+ String sep rest) with (String sep rest).
    cbn [Split]. rewrite Ascii.eqb_refl. reflexivity.
  - intros [Hc Hs]%orb_false_iff.
    change (String c s +:+ String sep rest)
      with (String c (s +:+ String sep rest)).
    cbn [Split]. rewrite Hc, (IH Hs). reflexivity.
Qed.

Lemma Split_Join values :
  values <> [] ->
  Forall (fun v => contains v ","%char = false) values ->
  Split (GoStrings.Join values ",") ","%char = values.
Proof.
  intros Hne Hall. induction Hall as [|v values Hv Hall IH]; [by destruct Hne|].
  destruct values as [|v' values].
  - cbn. by apply Split_no_sep.
  - change (GoStrings.Join (v :: v' :: values) ",")
      with (v +:+ String ","%char (GoStrings.Join (v' :: values) ",")).
    rewrite (Split_app_sep _ _ _ Hv), IH; [reflexivity|discriminate].
Qed.

Lemma parseExclude_eq values : forall s,
  parseExclude s values = (s ++ values, None).
Proof.
  induction values as [|v values IH]; intros s; cbn [parseExclude].
  - by rewrite app_nil_r.
  - unfold stringSliceFlag_Set. rewrite IH, <- app_assoc. reflexivity.
Qed.

(** X20. The [--exclude] flag collects its occurrences in the order
    they are given and never reports an error; and as long as no pattern
    holds a comma, the text that [String] gives for the flag splits back
    at the commas into the patterns that were given. *)
Theorem exclude_flag_round_trip (values : list string) :
  values <> [] ->
  Forall (fun v => contains v ","%char = false) values ->
  parseExclude [] values = (values, None)
  /\ Split (stringSliceFlag_String (parseExclude [] values).1) ","%char = values
  /\ (forall s v, (stringSliceFlag_Set s v).2 = None
                  /\ length (stringSliceFlag_Set s v).1 = S (length s)
                  /\ last (stringSliceFlag_Set s v).1 = Some v).
Proof.
  intros Hne Hall. rewrite parseExclude_eq. cbn [app fst].
  split; [reflexivity|]. split; [by apply Split_Join|].
  intros s v. unfold stringSliceFlag_Set. cbn [fst snd].
  split; [reflexivity|]. rewrite length_app, last_snoc. cbn. split; [lia|reflexivity].
Qed.

Lemma exclude_flag_round_trip_witness :
  Split (stringSliceFlag_String (parseExclude [] ["*.tmp"; "/local/dir/exclude1"]).1)
    ","%char = ["*.tmp"; "/local/dir/exclude1"].
Proof.
  refine (proj1 (proj2 (exclude_flag_round_trip ["*.tmp"; "/local/dir/exclude1"] _ _))).
  - discriminate.
  - repeat constructor.
Defined.

(** ** Patterns that match the empty name *)

Lemma Split_rooted fullpath :
  GoPath.is_rooted fullpath = true ->
  exists rest, Split fullpath GoPath.slash = "" :: rest.
Proof.
  destruct fullpath as [|c s]; [discriminate|]. cbn [GoPath.is_rooted Split].
  intros ->. eauto.
Qed.

Lemma normalizePath_rooted path :
  GoPath.is_rooted path = true -> GoPath.is_rooted (normalizePath path) = true.
Proof.
  destruct path as [|c s]; [discriminate|].
  unfold normalizePath. cbn [GoPath.is_rooted ReplaceAll].
  intros Hc. apply Ascii.eqb_eq in Hc. subst c. reflexivity.
Qed.

(** X21. A pattern that matches the empty name, such as the empty
    pattern or [*], excludes every path that starts with a slash, since
    the part before the first slash is the empty name. With such a
    pattern and an absolute source path the walk is pruned at its root:
    no file reaches the diff step, none is opened and nothing is
    uploaded. *)
Theorem empty_name_pattern_excludes_all
    (w : World) (r : R2Client) (localPath remotePath : string)
    (deleteSync recursive : bool) (concurrency : Z) (sizeOnly : bool)
    (excludePatterns : list string) (tree : node) (p : string) :
  let run := Sync w r localPath remotePath deleteSync recursive concurrency
               sizeOnly excludePatterns tree zeroVars in
  p ∈ excludePatterns ->
  glob p "" ->
  GoPath.is_rooted localPath = true ->
  (forall fullpath, GoPath.is_rooted fullpath = true ->
     shouldExclude fullpath excludePatterns = true)
  /\ candidates localPath recursive excludePatterns localPath tree = []
  /\ uploads (trace_of run) = []
  /\ (forall l, EvOpen l ∉ trace_of run).
Proof.
  cbv zeta. intros Hp Hglob Hroot.
  assert (forall fullpath, GoPath.is_rooted fullpath = true ->
            shouldExclude fullpath excludePatterns = true) as Hex.
  { intros fullpath [rest Hsplit]%Split_rooted.
    rewrite shouldExclude_existsb. apply existsb_exists. exists p.
    split; [by apply list_elem_of_In|].
    unfold excludes. rewrite Hsplit. cbn [existsb].
    apply matches_glob in Hglob. rewrite Hglob. apply orb_true_iff. right.
    reflexivity. }
  assert (forall l size,
            inr (l, size) ∉ visits localPath recursive excludePatterns localPath tree)
    as Hvis.
  { intros l size Hin.
    assert (passes localPath recursive excludePatterns localPath = false) as Hpass.
    { unfold passes. rewrite (Hex _ (normalizePath_rooted _ Hroot)). reflexivity. }
    destruct tree as [sz|entries|e|e]; cbn [visits] in Hin; rewrite ?Hpass in Hin;
      try (by apply elem_of_nil in Hin);
      apply list_elem_of_singleton in Hin; discriminate. }
  split; [exact Hex|]. split; [|split].
  - unfold candidates.
    destruct (omap _ _) as [|[l size] cs] eqn:Hc; [reflexivity|].
    exfalso. apply (Hvis l size). apply filesOf_elem. unfold filesOf.
    rewrite Hc. apply elem_of_cons. by left.
  - destruct (uploads _) as [|[l k] us] eqn:Hu; [reflexivity|].
    exfalso.
    assert ((l, k) ∈ uploads (trace_of
              (Sync w r localPath remotePath deleteSync recursive concurrency
                 sizeOnly excludePatterns tree zeroVars))) as Hin.
    { rewrite Hu. apply elem_of_cons. by left. }
    apply Sync_uploads_visits in Hin as (_ & size & Hin). by apply Hvis in Hin.
  - intros l Hin.
    destruct (Sync_shape w r localPath remotePath deleteSync recursive concurrency
                sizeOnly excludePatterns tree)
      as [[Htr _]|(listed & st2 & evW & oW & _ & _ & Hdiff & Hcases)];
      cbv zeta in *.
    { rewrite Htr in Hin. split_trace Hin. }
    assert (EvOpen l ∈ evW) as HinW.
    { destruct Hcases as [(_ & Htr & _ & _)|(res & _ & _ & Htr & _ & _)];
        rewrite Htr in Hin; split_trace Hin.
      - by apply deletePhase_no_open in Hin.
      - destruct (out_of _) as [[]|msg|]; cbn in Hin; split_trace Hin. }
    assert (exists size, inr (l, size)
              ∈ visits localPath recursive excludePatterns localPath tree)
      as [size Hv].
    { eapply diffAll_opens. rewrite Hdiff. exact HinW. }
    by apply Hvis in Hv.
Qed.

Lemma empty_name_pattern_excludes_all_witness :
  shouldExclude "/d/a.txt" [""] = true
  /\ uploads (trace_of (Sync Scenario.flat_world Scenario.client "/d" "p" true
                          true 5 false [""] Scenario.flat_tree zeroVars)) = [].
Proof.
  pose proof (empty_name_pattern_excludes_all Scenario.flat_world Scenario.client
                "/d" "p" true true 5 false [""] Scenario.flat_tree "") as H.
  cbv zeta in H. destruct H as (Hex & _ & Hup & _).
  - apply elem_of_cons. by left.
  - vm_compute. reflexivity.
  - reflexivity.
  - split; [apply Hex; reflexivity|exact Hup].
Defined.

(** ** An entry that cannot be examined *)

(** X22. An entry of the tree that cannot be examined, or a directory
    that cannot be read, ends the whole run: when the walk reaches it
    after files that went through the diff step, [Sync] returns its error
    wrapped as [upload failed: ...], whatever comes after it in the tree
    is not looked at, the uploads started before it stay started, and no
    delete is started. *)
Theorem unreadable_entry_aborts
    (w : World) (r : R2Client) (localPath remotePath : string)
    (deleteSync recursive : bool) (concurrency : Z) (sizeOnly : bool)
    (excludePatterns : list string) (tree : node)
    (listed : gmap string FileInfo)
    (before after : list (error + string * Z)) (e : error) :
  let run := Sync w r localPath remotePath deleteSync recursive concurrency
               sizeOnly excludePatterns tree zeroVars in
  (1 <= concurrency)%Z ->
  listResult (s3_ListObjectsV2 w (bucket r) remotePath) ∅ = inr listed ->
  visits localPath recursive excludePatterns localPath tree
    = before ++ inl e :: after ->
  (forall v, v ∈ before ->
     exists l size, v = inr (l, size)
       /\ (sizeOnly = true \/ exists etag, fingerprint w l = inr etag)) ->
  out_of run = Returned (Some ("upload failed: " +:+ e))
  /\ trace_of run
     = syncPrefix r remotePath (s3_ListObjectsV2 w (bucket r) remotePath)
         ++ EvMakeChan concurrency
         :: trace_of (diffAll w localPath remotePath concurrency sizeOnly before
                        (set_remoteFiles listed zeroVars))
  /\ deletes (trace_of run) = []
  /\ (forall l k, (l, k) ∈ uploads (trace_of run) ->
        exists size, inr (l, size) ∈ before).
Proof.
  cbv zeta. intros Hc Hlisted Hvis Hbefore.
  pose proof (diffAll_completes w localPath remotePath concurrency sizeOnly
                before Hc Hbefore (set_remoteFiles listed zeroVars)) as Hout.
  pose proof (diffAll_walk_events w localPath remotePath concurrency sizeOnly
                before (set_remoteFiles listed zeroVars)) as Hwalk.
  pose proof (diffAll_uploads w localPath remotePath concurrency sizeOnly
                before (set_remoteFiles listed zeroVars)) as Hup.
  rewrite Sync_eq. cbv zeta. rewrite Hlisted, Hvis.
  assert ((concurrency <? 0)%Z = false) as -> by (apply Z.ltb_ge; lia).
  rewrite diffAll_app. unfold bind.
  destruct (diffAll w localPath remotePath concurrency sizeOnly before _)
    as [[st1 ev1] o1].
  change (out_of (st1, ev1, o1)) with o1 in Hout. subst o1.
  change (trace_of (st1, ev1, _)) with ev1 in *.
  cbn [diffAll]. unfold ret. rewrite app_nil_r.
  change (out_of (?a, ?b, ?c)) with c. change (trace_of (?a, ?b, ?c)) with b.
  split; [reflexivity|]. split; [reflexivity|]. split.
  - rewrite deletes_app, deletes_prefix. cbn [app].
    change (deletes (EvMakeChan concurrency :: ?t)) with (deletes t).
    by apply deletes_walk_events.
  - intros l k. rewrite uploads_app, uploads_prefix. cbn [app].
    change (uploads (EvMakeChan concurrency :: ?t)) with (uploads t).
    intros Hin. by apply Hup in Hin as [_ ?].
Qed.

Lemma unreadable_entry_aborts_witness :
  out_of (Sync Scenario.flat_world Scenario.client "/d" "p" true true 5 false []
            (Dir [("a.txt", File 1); ("sub", DirUnreadable "open /d/sub: permission denied");
                  ("z.txt", File 1)]) zeroVars)
  = Returned (Some "upload failed: open /d/sub: permission denied").
Proof.
  refine (proj1 (unreadable_entry_aborts Scenario.flat_world Scenario.client
                   "/d" "p" true true 5 false []
                   (Dir [("a.txt", File 1);
                         ("sub", DirUnreadable "open /d/sub: permission denied");
                         ("z.txt", File 1)])
                   ∅ [inr ("/d/a.txt", 1%Z)] [inr ("/d/z.txt", 1%Z)]
                   "open /d/sub: permission denied" _ _ _ _)).
  - lia.
  - vm_compute. reflexivity.
  - vm_compute. reflexivity.
  - intros v Hin. apply list_elem_of_singleton in Hin. subst v.
    exists "/d/a.txt", 1%Z. split; [reflexivity|]. right.
    eexists. vm_compute. reflexivity.
Defined.

(** ** The exit status *)

Lemma deletePhase_events deleteSync concurrency st e :
  e ∈ trace_of (deletePhase deleteSync concurrency st) ->
  e = EvLog LogStartingDeletion \/ (exists k, e = EvGo (DeleteTask k))
  \/ e = EvWait \/ exists n, e = EvLog (LogFilesDeleted n).
Proof.
  rewrite deletePhase_eq. destruct (deleteSync && _); cbv zeta;
    [destruct (concurrency =? 0)%Z|]; cbn [trace_of fst snd]; intros Hin;
    split_trace Hin; subst; eauto 6.
  apply list_elem_of_fmap in Hin as (k & -> & _). eauto.
Qed.

(** What the trace of [Sync] says about its result. *)
Lemma Sync_log_facts w r localPath remotePath deleteSync recursive concurrency
    sizeOnly excludePatterns tree :
  let run := Sync w r localPath remotePath deleteSync recursive concurrency
               sizeOnly excludePatterns tree zeroVars in
  (out_of run = Returned None <-> EvLog LogSyncCompleted ∈ trace_of run)
  /\ (EvLog LogUsage ∉ trace_of run)
  /\ (forall e, EvLog (LogFatal e) ∉ trace_of run)
  /\ (EvLoadConfig ∉ trace_of run)
  /\ (forall b p, EvListObjectsV2 b p ∈ trace_of run ->
        b = bucket r /\ p = remotePath).
Proof.
  cbv zeta.
  destruct (Sync_shape w r localPath remotePath deleteSync recursive concurrency
              sizeOnly excludePatterns tree)
    as [[Htr Hout]|(listed & st2 & evW & oW & _ & _ & Hdiff & Hcases)];
    cbv zeta in *.
  { rewrite Htr. split; [|split; [|split; [|split]]].
    - split; [by intros ?|]. intros Hin. split_trace Hin.
    - intros Hin. split_trace Hin.
    - intros e Hin. split_trace Hin.
    - intros Hin. split_trace Hin.
    - intros b p Hin. split_trace Hin. injection Hin as -> ->. by split. }
  pose proof (diffAll_walk_events w localPath remotePath concurrency sizeOnly
                (visits localPath recursive excludePatterns localPath tree)
                (set_remoteFiles listed zeroVars)) as Hwalk.
  rewrite Hdiff in Hwalk. change (trace_of (st2, evW, oW)) with evW in Hwalk.
  assert (forall e, e ∈ evW -> is_walk_event e = true) as HW.
  { intros e. by apply forallb_elem. }
  destruct Hcases as [(_ & Htr & _ & Hout)|(res & _ & _ & Htr & _ & Hout)];
    rewrite Htr.
  { split; [|split; [|split; [|split]]].
    - split; [by intros ?|]. intros Hin. split_trace Hin.
      apply HW in Hin. discriminate.
    - intros Hin. split_trace Hin. apply HW in Hin. discriminate.
    - intros e Hin. split_trace Hin. apply HW in Hin. discriminate.
    - intros Hin. split_trace Hin. apply HW in Hin. discriminate.
    - intros b p Hin. split_trace Hin.
      + injection Hin as -> ->. by split.
      + apply HW in Hin. discriminate. }
  assert (forall e, e ∈ trace_of (deletePhase deleteSync concurrency st2) ->
            e <> EvLog LogSyncCompleted /\ e <> EvLog LogUsage
            /\ (forall err, e <> EvLog (LogFatal err)) /\ e <> EvLoadConfig
            /\ forall b p, e <> EvListObjectsV2 b p) as HD.
  { intros e [->|[[k ->]|[->|[n ->]]]]%deletePhase_events;
      repeat split; try discriminate; intros; discriminate. }
  rewrite Hout.
  split; [|split; [|split; [|split]]].
  - destruct (out_of (deletePhase deleteSync concurrency st2)) as [[]|msg|];
      cbn [finish closing].
    + split; [intros _|reflexivity].
      apply elem_of_app. right. apply elem_of_cons. right.
      apply elem_of_app. right. apply elem_of_app. right.
      apply elem_of_app. right. apply elem_of_cons. by left.
    + split; [discriminate|]. intros Hin. split_trace Hin.
      * apply HW in Hin. discriminate.
      * by apply HD in Hin as (? & _).
    + split; [discriminate|]. intros Hin. split_trace Hin.
      * apply HW in Hin. discriminate.
      * by apply HD in Hin as (? & _).
  - intros Hin. split_trace Hin.
    + apply HW in Hin. discriminate.
    + by apply HD in Hin as (_ & ? & _).
    + destruct (out_of _) as [[]|msg|]; cbn in Hin; split_trace Hin.
  - intros e Hin. split_trace Hin.
    + apply HW in Hin. discriminate.
    + apply HD in Hin as (_ & _ & Hf & _). by apply (Hf e).
    + destruct (out_of _) as [[]|msg|]; cbn in Hin; split_trace Hin.
  - intros Hin. split_trace Hin.
    + apply HW in Hin. discriminate.
    + by apply HD in Hin as (_ & _ & _ & ? & _).
    + destruct (out_of _) as [[]|msg|]; cbn in Hin; split_trace Hin.
  - intros b p Hin. split_trace Hin.
    + injection Hin as -> ->. by split.
    + apply HW in Hin. discriminate.
    + apply HD in Hin as (_ & _ & _ & _ & Hl). by destruct (Hl b p).
    + destruct (out_of _) as [[]|msg|]; cbn in Hin; split_trace Hin.
Qed.

(** X23. The process ends with status 0 exactly when help was asked
    for or the run has logged [Sync completed.]; with status 1 exactly
    when [main] has printed its usage text or logged a fatal error; and
    with status 2 exactly when [flag.Parse] has rejected the command line
    or the run has panicked. It has no other exit status. The bucket is
    listed only after [flag.Parse] has accepted the command line with
    exactly two arguments, the target was parsed and the client
    configuration was loaded, and then with the host of the target as the
    bucket and its path without the leading slash as the prefix. *)
Theorem main_exit_status (w : World) (cmd : parse) (tree : node) :
  let res := r2sync w cmd tree in
  (exitStatus res.2 = Some 0%Z <->
   cmd = HelpAsked \/ EvLog LogSyncCompleted ∈ res.1)
  /\ (exitStatus res.2 = Some 1%Z <->
      EvLog LogUsage ∈ res.1 \/ exists e, EvLog (LogFatal e) ∈ res.1)
  /\ (exitStatus res.2 = Some 2%Z <->
      (exists msg, cmd = Rejected msg) \/ exists msg, res.2 = Crash msg)
  /\ (forall code, exitStatus res.2 = Some code ->
        code = 0%Z \/ code = 1%Z \/ code = 2%Z)
  /\ (forall b p, EvListObjectsV2 b p ∈ res.1 ->
        (EvLoadConfig ∈ res.1)
        /\ config_LoadDefaultConfig w = None
        /\ exists flags arg0 arg1 u,
             cmd = Parsed flags [arg0; arg1]
             /\ url_Parse w (normalizePath arg1) = inr u
             /\ b = Host u
             /\ p = TrimPrefix1 (url_Path u) GoPath.slash).
Proof.
  cbv zeta. destruct cmd as [flags args| |msg]; cbn [r2sync fst snd exitStatus].
  2:{ split; [|split; [|split; [|split]]].
      - split; [intros _; by left|reflexivity].
      - split; [discriminate|]. intros [Hin|[e Hin]]; split_trace Hin.
      - split; [discriminate|]. intros [[msg [=]]|[msg [=]]].
      - intros code [= <-]. by left.
      - intros b p Hin. split_trace Hin. }
  2:{ split; [|split; [|split; [|split]]].
      - split; [discriminate|]. intros [[=]|Hin]. split_trace Hin.
      - split; [discriminate|]. intros [Hin|[e Hin]]; split_trace Hin.
      - split; [intros _; left; eauto|reflexivity].
      - intros code [= <-]. right. by right.
      - intros b p Hin. split_trace Hin. }
  assert (forall (tr : list event),
            tr = [EvLog LogUsage] \/ (exists e, tr = [EvLog (LogInvalidTarget e);
                                                      EvLog LogUsage])
            \/ (exists e, tr = [EvLoadConfig; EvLog (LogFatal e)]) ->
            (Some 1%Z = Some 0%Z <->
             Parsed flags args = HelpAsked \/ EvLog LogSyncCompleted ∈ tr)
            /\ (Some 1%Z = Some 1%Z <->
                EvLog LogUsage ∈ tr \/ exists e, EvLog (LogFatal e) ∈ tr)
            /\ (Some 1%Z = Some 2%Z <->
                (exists msg, Parsed flags args = Rejected msg)
                \/ exists msg, Exit 1 = Crash msg)
            /\ (forall code, Some 1%Z = Some code ->
                  code = 0%Z \/ code = 1%Z \/ code = 2%Z)
            /\ (forall b p, EvListObjectsV2 b p ∉ tr)) as Hearly.
  { intros tr Htr. split; [|split; [|split; [|split]]].
    - split; [discriminate|]. intros [[=]|Hin].
      destruct Htr as [->|[[e ->]|[e ->]]]; split_trace Hin.
    - split; [intros _|reflexivity].
      destruct Htr as [->|[[e ->]|[e ->]]].
      + left. apply elem_of_cons. by left.
      + left. apply elem_of_cons. right. apply elem_of_cons. by left.
      + right. exists e. apply elem_of_cons. right. apply elem_of_cons. by left.
    - split; [discriminate|]. intros [[msg [=]]|[msg [=]]].
    - intros code [= <-]. right. by left.
    - intros b p Hin. destruct Htr as [->|[[e ->]|[e ->]]]; split_trace Hin. }
  unfold main.
  destruct args as [|arg0 [|arg1 [|arg2 args]]];
    try (destruct (Hearly [EvLog LogUsage]) as (H0 & H1 & H2 & Hc & Hl);
         [by left|];
         cbn [fst snd exitStatus]; split; [exact H0|]; split; [exact H1|];
         split; [exact H2|]; split; [exact Hc|];
         intros b p Hin; by apply Hl in Hin).
  destruct (url_Parse w (normalizePath arg1)) as [e|u] eqn:Hparse.
  { destruct (Hearly [EvLog (LogInvalidTarget e); EvLog LogUsage])
      as (H0 & H1 & H2 & Hc & Hl); [right; left; eauto|].
    cbn [fst snd exitStatus]. split; [exact H0|]. split; [exact H1|].
    split; [exact H2|]. split; [exact Hc|].
    intros b p Hin. by apply Hl in Hin. }
  unfold NewR2Client.
  destruct (config_LoadDefaultConfig w) as [e|] eqn:Hconfig.
  { destruct (Hearly [EvLoadConfig; EvLog (LogFatal e)])
      as (H0 & H1 & H2 & Hc & Hl); [right; right; eauto|].
    cbn [fst snd exitStatus]. split; [exact H0|]. split; [exact H1|].
    split; [exact H2|]. split; [exact Hc|].
    intros b p Hin. by apply Hl in Hin. }
  destruct (Sync_log_facts w (mkClient (Host u) (Scheme u)) (normalizePath arg0)
              (TrimPrefix1 (url_Path u) GoPath.slash) (flag_delete flags)
              (flag_recursive flags) (flag_concurrency flags)
              (flag_size_only flags) (map normalizePath (flag_exclude flags)) tree)
    as (Hdone & Husage & Hfatal & Hload & Hlist). cbv zeta in *.
  destruct (Sync _ _ _ _ _ _ _ _ _ _ _) as [[st tr] o].
  change (out_of (st, tr, o)) with o in *.
  change (trace_of (st, tr, o)) with tr in *.
  assert (forall b p, EvListObjectsV2 b p ∈ tr ->
            b = Host u /\ p = TrimPrefix1 (url_Path u) GoPath.slash) as Hl.
  { intros b p Hin. by apply Hlist in Hin. }
  assert (forall tr' b p,
            (EvListObjectsV2 b p ∈ EvLoadConfig :: tr ++ tr') ->
            (forall e, e ∈ tr' -> exists m, e = EvLog m) ->
            (EvLoadConfig ∈ EvLoadConfig :: tr ++ tr')
            /\ exists flags' a0 a1 u',
                 Parsed flags [arg0; arg1] = Parsed flags' [a0; a1]
                 /\ @inr error URL u = inr u'
                 /\ b = Host u'
                 /\ p = TrimPrefix1 (url_Path u') GoPath.slash) as Hlisted.
  { intros tr' b p Hin Hlog. split; [apply elem_of_cons; by left|].
    assert (EvListObjectsV2 b p ∈ tr) as Hin'.
    { apply elem_of_cons in Hin as [?|Hin]; [discriminate|].
      apply elem_of_app in Hin as [Hin|Hin]; [exact Hin|].
      apply Hlog in Hin as [m ?]. discriminate. }
    apply Hl in Hin' as [-> ->]. by exists flags, arg0, arg1, u. }
  destruct o as [[err|]|msg|]; cbn [fst snd exitStatus].
  - split; [|split; [|split; [|split]]].
    + split; [discriminate|]. intros [[=]|Hin]. split_trace Hin.
      apply Hdone in Hin. discriminate.
    + split; [intros _|reflexivity]. right. exists err.
      apply elem_of_cons. right. apply elem_of_app. right.
      apply elem_of_cons. by left.
    + split; [discriminate|]. intros [[m [=]]|[m [=]]].
    + intros code [= <-]. right. by left.
    + intros b p Hin.
      destruct (Hlisted [EvLog (LogFatal err)] b p Hin) as [H1 H2].
      { intros e He. apply list_elem_of_singleton in He. eauto. }
      split; [exact H1|]. split; [first [reflexivity|exact Hconfig]|].
      destruct H2 as (f' & a0 & a1 & u' & He & Hu & -> & ->).
      injection He as <- <- <-. injection Hu as <-.
      exists flags, arg0, arg1, u.
      repeat split; first [reflexivity|exact Hparse].
  - split; [|split; [|split; [|split]]].
    + split; [intros _|reflexivity]. right. apply elem_of_cons. right.
      by apply Hdone.
    + split; [discriminate|]. intros [Hin|[e Hin]]; split_trace Hin.
      exfalso. by apply (Hfatal e).
    + split; [discriminate|]. intros [[m [=]]|[m [=]]].
    + intros code [= <-]. by left.
    + intros b p Hin. rewrite <- (app_nil_r tr) in Hin.
      destruct (Hlisted [] b p Hin) as [H1 H2].
      { intros e He. by apply elem_of_nil in He. }
      rewrite app_nil_r in H1.
      split; [exact H1|]. split; [first [reflexivity|exact Hconfig]|].
      destruct H2 as (f' & a0 & a1 & u' & He & Hu & -> & ->).
      injection He as <- <- <-. injection Hu as <-.
      exists flags, arg0, arg1, u.
      repeat split; first [reflexivity|exact Hparse].
  - split; [|split; [|split; [|split]]].
    + split; [discriminate|]. intros [[=]|Hin]. split_trace Hin.
      apply Hdone in Hin. discriminate.
    + split; [discriminate|]. intros [Hin|[e Hin]]; split_trace Hin.
      exfalso. by apply (Hfatal e).
    + split; [intros _; right; eauto|reflexivity].
    + intros code [= <-]. right. by right.
    + intros b p Hin. rewrite <- (app_nil_r tr) in Hin.
      destruct (Hlisted [] b p Hin) as [H1 H2].
      { intros e He. by apply elem_of_nil in He. }
      rewrite app_nil_r in H1.
      split; [exact H1|]. split; [first [reflexivity|exact Hconfig]|].
      destruct H2 as (f' & a0 & a1 & u' & He & Hu & -> & ->).
      injection He as <- <- <-. injection Hu as <-.
      exists flags, arg0, arg1, u.
      repeat split; first [reflexivity|exact Hparse].
  - split; [|split; [|split; [|split]]].
    + split; [discriminate|]. intros [[=]|Hin]. split_trace Hin.
      apply Hdone in Hin. discriminate.
    + split; [discriminate|]. intros [Hin|[e Hin]]; split_trace Hin.
      exfalso. by apply (Hfatal e).
    + split; [discriminate|]. intros [[m [=]]|[m [=]]].
    + intros code [=].
    + intros b p Hin. rewrite <- (app_nil_r tr) in Hin.
      destruct (Hlisted [] b p Hin) as [H1 H2].
      { intros e He. by apply elem_of_nil in He. }
      rewrite app_nil_r in H1.
      split; [exact H1|]. split; [first [reflexivity|exact Hconfig]|].
      destruct H2 as (f' & a0 & a1 & u' & He & Hu & -> & ->).
      injection He as <- <- <-. injection Hu as <-.
      exists flags, arg0, arg1, u.
      repeat split; first [reflexivity|exact Hparse].
Qed.

Lemma main_exit_status_witness :
  EvLog LogSyncCompleted
    ∈ (r2sync Cases_mixed_world
         (Parsed (mkFlags false true true 5 true []) ["/d"; "r2://bucket/p"])
         Cases.tree).1
  /\ exitStatus
       (r2sync Cases_mixed_world
          (Parsed (mkFlags false true true 5 true []) ["/d"; "r2://bucket/p"])
          Cases.tree).2 = Some 0%Z
  /\ exitStatus
       (r2sync Cases_mixed_world
          (Parsed (mkFlags false true true (-1) true []) ["/d"; "r2://bucket/p"])
          Cases.tree).2 = Some 2%Z.
Proof.
  assert (EvLog LogSyncCompleted
            ∈ (r2sync Cases_mixed_world
                 (Parsed (mkFlags false true true 5 true [])
                    ["/d"; "r2://bucket/p"]) Cases.tree).1) as Hin.
  { apply list_elem_of_In. vm_compute. tauto. }
  split; [exact Hin|]. split.
  - exact (proj2 (proj1 (main_exit_status Cases_mixed_world
                           (Parsed (mkFlags false true true 5 true [])
                              ["/d"; "r2://bucket/p"]) Cases.tree))
             (or_intror Hin)).
  - refine (proj2 (proj1 (proj2 (proj2
              (main_exit_status Cases_mixed_world
                 (Parsed (mkFlags false true true (-1) true [])
                    ["/d"; "r2://bucket/p"]) Cases.tree)))) _).
    right. eexists. vm_compute. reflexivity.
Defined.


(** ** The order of the uploads *)

Lemma diffAll_uploads_sublist w localPath remotePath concurrency sizeOnly vs :
  forall st,
    uploads (trace_of (diffAll w localPath remotePath concurrency sizeOnly vs st))
    `sublist_of`
    map (fun c => (c.1, remoteKeyOf localPath remotePath c.1)) (filesOf vs).
Proof.
  induction vs as [|[e|[fullpath size]] vs IH]; intros st.
  - apply sublist_nil_l.
  - apply sublist_nil_l.
  - rewrite diffAll_cons. cbv zeta.
    change (filesOf (inr (fullpath, size) :: vs))
      with ((fullpath, size) :: filesOf vs). cbn [map fst].
    destruct (needs _ _ _ _ _ _) as [e|[|]];
      change (trace_of (?a, ?b, ?c)) with b.
    + rewrite uploads_hashed. apply sublist_nil_l.
    + destruct (concurrency =? 0)%Z; change (trace_of (?a, ?b, ?c)) with b.
      * rewrite uploads_hashed. apply sublist_nil_l.
      * rewrite !uploads_app, uploads_hashed.
        change (uploads [EvGo (UploadTask ?f ?k)]) with [(f, k)]. cbn [app].
        apply sublist_skip. apply IH.
    + rewrite uploads_app, uploads_hashed. cbn [app].
      apply sublist_cons. apply IH.
Qed.

(** X24. [Sync] starts its uploads in the order of the walk, each file
    at most once: the uploads of a run, with their remote keys, are a
    subsequence of the files that reach the diff step, in the lexical
    order in which [filepath.Walk] visits them. *)
Theorem uploads_follow_walk_order
    (w : World) (r : R2Client) (localPath remotePath : string)
    (deleteSync recursive : bool) (concurrency : Z) (sizeOnly : bool)
    (excludePatterns : list string) (tree : node) :
  let run := Sync w r localPath remotePath deleteSync recursive concurrency
               sizeOnly excludePatterns tree zeroVars in
  uploads (trace_of run)
  `sublist_of`
  map (fun c => (c.1, remoteKeyOf localPath remotePath c.1))
    (candidates localPath recursive excludePatterns localPath tree)
  /\ length (uploads (trace_of run))
     <= length (candidates localPath recursive excludePatterns localPath tree).
Proof.
  cbv zeta.
  assert (uploads (trace_of
            (Sync w r localPath remotePath deleteSync recursive concurrency
               sizeOnly excludePatterns tree zeroVars))
          `sublist_of`
          map (fun c => (c.1, remoteKeyOf localPath remotePath c.1))
            (candidates localPath recursive excludePatterns localPath tree))
    as Hsub.
  { destruct (Sync_shape w r localPath remotePath deleteSync recursive concurrency
                sizeOnly excludePatterns tree)
      as [[Htr _]|(listed & st2 & evW & oW & Hlisted & Hc & Hdiff & _)];
      cbv zeta in *.
    - rewrite Htr, uploads_prefix. apply sublist_nil_l.
    - rewrite (Sync_uploads_eq _ _ _ _ _ _ _ _ _ _ _ Hlisted Hc).
      apply diffAll_uploads_sublist. }
  split; [exact Hsub|].
  apply sublist_length in Hsub. by rewrite length_map in Hsub.
Qed.


(** ** C8: the dry run *)

(** A run of [Sync] that returns nil has logged the numbers of uploads
    and of deletes it started. *)
Lemma Sync_counts_logged w r localPath remotePath deleteSync recursive
    concurrency sizeOnly excludePatterns tree listed :
  let run := Sync w r localPath remotePath deleteSync recursive concurrency
               sizeOnly excludePatterns tree zeroVars in
  listResult (s3_ListObjectsV2 w (bucket r) remotePath) ∅ = inr listed ->
  out_of run = Returned None ->
  ((Z.of_nat (length (uploads (trace_of run))) < 2 ^ 63)%Z ->
   EvLog (LogFilesUploaded (Z.of_nat (length (uploads (trace_of run)))))
     ∈ trace_of run)
  /\ (deletes (trace_of run) <> [] ->
      (Z.of_nat (length (deletes (trace_of run))) < 2 ^ 63)%Z ->
      EvLog (LogFilesDeleted (Z.of_nat (length (deletes (trace_of run)))))
        ∈ trace_of run).
Proof.
  cbv zeta. intros Hlisted Hout.
  assert ((concurrency <? 0)%Z = false) as Hc.
  { revert Hout. rewrite Sync_eq. cbv zeta. rewrite Hlisted.
    destruct (concurrency <? 0)%Z; [discriminate|reflexivity]. }
  pose proof (Sync_uploads_eq w r localPath remotePath deleteSync recursive
                concurrency sizeOnly excludePatterns tree listed Hlisted Hc) as Hups.
  destruct (Sync_returns_nil _ _ _ _ _ _ _ _ _ _ _ Hlisted Hout)
    as (st2 & evW & res & Hdiff & Hres & Hdel & Hrun).
  pose proof (diffAll_walk_events w localPath remotePath concurrency sizeOnly
                (visits localPath recursive excludePatterns localPath tree)
                (set_remoteFiles listed zeroVars)) as Hwalk.
  pose proof (diffAll_counts w localPath remotePath concurrency sizeOnly
                (visits localPath recursive excludePatterns localPath tree)
                (set_remoteFiles listed zeroVars) res) as Hcount.
  rewrite Hdiff in Hwalk, Hcount, Hups.
  destruct (Hcount eq_refl) as [Hup Hdc].
  change (state_of (st2, evW, Returned res)) with st2 in Hup, Hdc.
  change (trace_of (st2, evW, Returned res)) with evW in Hup, Hups, Hwalk.
  cbn [set_remoteFiles uploadCount deleteCount zeroVars] in Hup, Hdc.
  rewrite Hups.
  assert (deletes (trace_of
            (Sync w r localPath remotePath deleteSync recursive concurrency
               sizeOnly excludePatterns tree zeroVars))
          = deletes (trace_of (deletePhase deleteSync concurrency st2))) as Hdels.
  { rewrite Hrun. change (trace_of (?a, ?b, ?c)) with b.
    rewrite deletes_app, deletes_prefix. cbn [app].
    change (deletes (EvMakeChan concurrency :: ?t)) with (deletes t).
    rewrite deletes_app, (deletes_walk_events _ Hwalk). cbn [app].
    change (deletes (EvWait :: EvLog ?m :: ?tr)) with (deletes tr).
    rewrite deletes_app. apply app_nil_r. }
  rewrite Hdels, Hrun. change (trace_of (?a, ?b, ?c)) with b. split.
  - intros Hsmall. rewrite Hup, iter_count, Z.add_0_l by lia.
    apply elem_of_app. right. apply elem_of_cons. right.
    apply elem_of_app. right. apply elem_of_cons. right.
    apply elem_of_cons. by left.
  - rewrite deletePhase_eq.
    destruct (deleteSync && _); cbv zeta;
      [destruct (concurrency =? 0)%Z|];
      change (trace_of (?a, ?b, ?c)) with b;
      try (intros Hne; by destruct Hne).
    change (deletes (EvLog LogStartingDeletion :: ?tr)) with (deletes tr).
    rewrite deletes_app, deletes_spawned, app_nil_r.
    intros _ Hsmall. rewrite iter_incr_deleteCount_count, Hdc.
    rewrite iter_count, Z.add_0_l by lia.
    apply elem_of_app. right. apply elem_of_cons. right.
    apply elem_of_app. right. apply elem_of_cons. right.
    apply elem_of_cons. right. apply elem_of_app. left.
    apply elem_of_cons. right. apply elem_of_app. right.
    apply elem_of_cons. right. apply elem_of_cons. by left.
Qed.

(** C8. In a dry run the goroutines of any tasks, in any order, leave the
    bucket as it is and call neither [PutObject] nor [DeleteObject]; each
    of them still logs its task. For a run of [Sync], the goroutine of
    [main] does exactly what it does in a real run, and what it does is
    this: when it returns nil it has admitted an upload for every file
    that reached the diff step with a key that was not listed and, with
    [--delete], a delete for every listed key that no file claimed; each
    task it admitted has logged its start line and its [(dryrun)] line;
    and it has logged the number of uploads and the number of deletes it
    admitted. *)
Theorem dry_run_no_mutation
    (w : World) (r : R2Client) (localPath remotePath : string)
    (deleteSync recursive : bool) (concurrency : Z) (sizeOnly : bool)
    (excludePatterns : list string) (tree : node)
    (objs : gmap string StoredObject) (tasks : list task) :
  (state_of (forEach tasks (goroutine w r true) objs) = objs
   /\ forallb (fun e => negb (is_mutation e))
        (trace_of (forEach tasks (goroutine w r true) objs)) = true
   /\ trace_of (forEach tasks (goroutine w r true) objs)
      = flat_map (dryRunLog r) tasks
   /\ out_of (forEach tasks (goroutine w r true) objs) = Returned tt)
  /\ (let dry :=
        SyncRun w r localPath remotePath deleteSync true recursive concurrency
          sizeOnly excludePatterns tree objs in
      let real :=
        SyncRun w r localPath remotePath deleteSync false recursive concurrency
          sizeOnly excludePatterns tree objs in
      dry.1.1 = real.1.1
      /\ dry.1.2 = objs
      /\ forallb (fun e => negb (is_mutation e)) dry.2 = true
      /\ dry.2 = flat_map (dryRunLog r) (spawned (trace_of real.1.1)))
  /\ (let dry :=
        SyncRun w r localPath remotePath deleteSync true recursive concurrency
          sizeOnly excludePatterns tree objs in
      let cs := candidates localPath recursive excludePatterns localPath tree in
      forall listed,
        listResult (s3_ListObjectsV2 w (bucket r) remotePath) ∅ = inr listed ->
        out_of dry.1.1 = Returned None ->
        (forall l size,
           (l, size) ∈ cs ->
           listed !! remoteKeyOf localPath remotePath l = None ->
           UploadTask l (remoteKeyOf localPath remotePath l)
             ∈ spawned (trace_of dry.1.1))
        /\ (deleteSync = true ->
            forall k,
              is_Some (listed !! k) ->
              k ∉ claimed localPath remotePath cs ->
              DeleteTask k ∈ spawned (trace_of dry.1.1))
        /\ (forall t, t ∈ spawned (trace_of dry.1.1) ->
              forall e, e ∈ dryRunLog r t -> e ∈ dry.2)
        /\ length (spawned (trace_of dry.1.1))
           = length (uploads (trace_of dry.1.1))
             + length (deletes (trace_of dry.1.1))
        /\ ((Z.of_nat (length (uploads (trace_of dry.1.1))) < 2 ^ 63)%Z ->
            EvLog (LogFilesUploaded
                     (Z.of_nat (length (uploads (trace_of dry.1.1)))))
              ∈ trace_of dry.1.1)
        /\ (deletes (trace_of dry.1.1) <> [] ->
            (Z.of_nat (length (deletes (trace_of dry.1.1))) < 2 ^ 63)%Z ->
            EvLog (LogFilesDeleted
                     (Z.of_nat (length (deletes (trace_of dry.1.1)))))
              ∈ trace_of dry.1.1)).
Proof.
  split; [|split].
  - rewrite forEach_dry_run. unfold state_of, trace_of, out_of; cbn [fst snd].
    repeat split. apply dryRunLog_no_mutation.
  - cbv zeta. unfold SyncRun. cbn [fst snd]. rewrite forEach_dry_run.
    unfold state_of at 1, trace_of at 1 2; cbn [fst snd].
    repeat split. apply dryRunLog_no_mutation.
  - cbv zeta. unfold SyncRun. cbn [fst snd]. rewrite forEach_dry_run.
    change (trace_of (objs, ?b, Returned tt)) with b.
    set (run := Sync w r localPath remotePath deleteSync recursive concurrency
                  sizeOnly excludePatterns tree zeroVars).
    intros listed Hlisted Hout.
    destruct (Sync_phases w r localPath remotePath deleteSync recursive
                concurrency sizeOnly excludePatterns tree)
      as (_ & _ & _ & _ & _ & _ & _ & _ & Hsp). cbv zeta in Hsp.
    fold run in Hsp.
    assert ((concurrency <? 0)%Z = false) as Hc.
    { revert Hout. unfold run. rewrite Sync_eq. cbv zeta. rewrite Hlisted.
      destruct (concurrency <? 0)%Z; [discriminate|reflexivity]. }
    destruct (Sync_counts_logged w r localPath remotePath deleteSync recursive
                concurrency sizeOnly excludePatterns tree listed Hlisted Hout)
      as [Hcu Hcd].
    split; [|split; [|split; [|split; [|split; [exact Hcu|exact Hcd]]]]].
    + intros l size Hin Hnone. rewrite Hsp. apply elem_of_app. left.
      apply list_elem_of_fmap.
      exists (l, remoteKeyOf localPath remotePath l). split; [reflexivity|].
      apply filesOf_elem in Hin.
      apply list_elem_of_split in Hin as (before & after & Hvis).
      destruct (Sync_returns_nil _ _ _ _ _ _ _ _ _ _ _ Hlisted Hout)
        as (st2 & evW & res & Hdiff & Hres & _ & _).
      unfold run. rewrite (Sync_uploads_eq _ _ _ _ _ _ _ _ _ _ _ Hlisted Hc).
      rewrite Hvis in *.
      eapply diffAll_uploads_unlisted; [rewrite Hdiff; reflexivity|exact Hres|].
      left. exact Hnone.
    + intros -> k Hsome Hnin. rewrite Hsp. apply elem_of_app. right.
      apply list_elem_of_fmap. exists k. split; [reflexivity|].
      by apply (Sync_deletes_all _ _ _ _ _ _ _ _ _ listed).
    + intros t Ht e He. apply list_elem_of_In, in_flat_map.
      exists t. split; apply list_elem_of_In; assumption.
    + rewrite Hsp, length_app, !length_map. reflexivity.
Qed.

Lemma dry_run_no_mutation_witness :
  UploadTask "/d/sub/b.txt" "p/sub/b.txt" ∈ spawned (trace_of Cases_mixed_run)
  /\ DeleteTask "p/old.txt" ∈ spawned (trace_of Cases_mixed_run)
  /\ EvLog (LogDryrunUpload "/d/sub/b.txt" "r2://bucket/p/sub/b.txt")
     ∈ (SyncRun Cases_mixed_world Scenario.client "/d" "p" true true true 5
          true [] Cases.tree Cases_stale_bucket).2
  /\ EvLog (LogFilesUploaded 1) ∈ trace_of Cases_mixed_run.
Proof.
  pose proof (dry_run_no_mutation Cases_mixed_world Scenario.client "/d" "p"
                true true 5 true [] Cases.tree Cases_stale_bucket []) as Hdry.
  destruct Hdry as (_ & _ & Hrun). cbv zeta in Hrun.
  destruct (Hrun (remoteFiles (Scenario.inventory Scenario.stale_objs)))
    as (Hup & Hdel & Hlog & _ & Hcu & _).
  - vm_compute. reflexivity.
  - vm_compute. reflexivity.
  - assert (UploadTask "/d/sub/b.txt" "p/sub/b.txt"
              ∈ spawned (trace_of Cases_mixed_run)) as Hin.
    { apply (Hup "/d/sub/b.txt" 1%Z).
      - apply list_elem_of_In. vm_compute. tauto.
      - vm_compute. reflexivity. }
    split; [exact Hin|]. split; [|split].
    + apply (Hdel eq_refl).
      * vm_compute. eauto.
      * intros Hc. apply list_elem_of_In in Hc. vm_compute in Hc.
        intuition discriminate.
    + apply (Hlog _ Hin). apply elem_of_cons. right. apply elem_of_cons. by left.
    + refine (Hcu _). vm_compute. reflexivity.
Defined.
